(** * gntp_notify: a shallow embedding of the GNTP protocol engine

    The development follows the layout of the repository:

    - the parts of Go's standard library the engine calls ([strings],
      [strconv], [io]/[bufio], [net/textproto]), modelled from their
      documented behaviour;
    - package [server]: header blocks, the error taxonomy, the dispatch
      table, directive parsing, the binary resource reader and the
      connection's serve step;
    - package [main]: the file cache and the NOTIFY handler.

    Go strings are byte sequences; they are modelled as [string] (a list of
    8-bit [ascii]).  A [bufio.Reader] over a connection is modelled as the
    string of bytes that have not been read yet, followed by end of file. *)

From Stdlib Require Import ZArith Ascii String Lia DecimalString.
From stdpp Require Import gmap strings list.

Local Arguments String.append !_ _ / : simpl nomatch.

(** ** Bytes and strings *)

Definition byte_val (c : ascii) : Z := Z.of_N (N_of_ascii c).
Definition byte_of (z : Z) : ascii := ascii_of_N (Z.to_N z).

Definition LF : ascii := byte_of 10.
Definition CR : ascii := byte_of 13.
Definition SP : ascii := byte_of 32.
Definition HT : ascii := byte_of 9.

Definition byte_eqb (a b : ascii) : bool := Ascii.eqb a b.

Definition is_digit (c : ascii) : bool :=
  (48 <=? byte_val c)%Z && (byte_val c <=? 57)%Z.
Definition is_lower (c : ascii) : bool :=
  (97 <=? byte_val c)%Z && (byte_val c <=? 122)%Z.
Definition is_upper (c : ascii) : bool :=
  (65 <=? byte_val c)%Z && (byte_val c <=? 90)%Z.

Fixpoint str_map (f : ascii → ascii) (s : string) : string :=
  match s with
  | EmptyString => EmptyString
  | String c s' => String (f c) (str_map f s')
  end.

Fixpoint str_forallb (p : ascii → bool) (s : string) : bool :=
  match s with
  | EmptyString => true
  | String c s' => p c && str_forallb p s'
  end.

Fixpoint str_rev_app (s acc : string) : string :=
  match s with
  | EmptyString => acc
  | String c s' => str_rev_app s' (String c acc)
  end.
Definition str_rev (s : string) : string := str_rev_app s EmptyString.

(** [s[n:]] for [n <= len(s)]. *)
Fixpoint str_drop (n : nat) (s : string) : string :=
  match n, s with
  | O, _ => s
  | S n', String _ s' => str_drop n' s'
  | S _, EmptyString => EmptyString
  end.

(** [s[:n]] for [n <= len(s)]. *)
Fixpoint str_take (n : nat) (s : string) : string :=
  match n, s with
  | O, _ => EmptyString
  | S n', String c s' => String c (str_take n' s')
  | S _, EmptyString => EmptyString
  end.

(** [bytes.Cut(s, c)] for a one-byte separator: the text before the first
    [c] and the text after it. *)
Fixpoint str_cut (c : ascii) (s : string) : option (string * string) :=
  match s with
  | EmptyString => None
  | String a s' =>
      if byte_eqb a c then Some (EmptyString, s')
      else match str_cut c s' with
           | Some (l, r) => Some (String a l, r)
           | None => None
           end
  end.

(** ** Package strings *)

Module strings.

(** [strings.HasPrefix(s, prefix)]. *)
Definition HasPrefix (s prefix : string) : bool := String.prefix prefix s.

(** [strings.HasSuffix(s, suffix)]. *)
Definition HasSuffix (s suffix : string) : bool :=
  String.prefix (str_rev suffix) (str_rev s).

(** [strings.NewReplacer("\n", " ", "\r", " ").Replace]: both patterns are
    one byte long, so the replacer works byte by byte. *)
Definition newlineToSpace_byte (c : ascii) : ascii :=
  if byte_eqb c LF then SP else if byte_eqb c CR then SP else c.

(** [strings.SplitN(s, sep, n)] for a one-byte separator and [n >= 0]: at
    most [n] pieces, the last one being the unsplit remainder. *)
Fixpoint SplitN_go (sep : ascii) (n : nat) (s : string) : list string :=
  match n with
  | O => [s]
  | S n' =>
      match str_cut sep s with
      | Some (l, r) => l :: SplitN_go sep n' r
      | None => [s]
      end
  end.

Definition SplitN (s : string) (sep : ascii) (n : nat) : list string :=
  match n with
  | O => []
  | S n' => SplitN_go sep n' s
  end.

(** [unicode.IsSpace] on the UTF-8 encodings of the White_Space code points:
    one byte for U+0009..U+000D and U+0020, two bytes for U+0085 and U+00A0,
    three bytes for U+1680, U+2000..U+200A, U+2028, U+2029, U+202F, U+205F
    and U+3000. *)
Definition is_space1 (c : ascii) : bool :=
  ((9 <=? byte_val c)%Z && (byte_val c <=? 13)%Z) || (byte_val c =? 32)%Z.

Definition is_space2 (c1 c2 : ascii) : bool :=
  (byte_val c1 =? 194)%Z && ((byte_val c2 =? 133)%Z || (byte_val c2 =? 160)%Z).

Definition is_space3 (c1 c2 c3 : ascii) : bool :=
  let b1 := byte_val c1 in let b2 := byte_val c2 in let b3 := byte_val c3 in
  ((b1 =? 225) && (b2 =? 154) && (b3 =? 128))%Z
  || ((b1 =? 226) && (b2 =? 128)
      && (((128 <=? b3) && (b3 <=? 138)) || (b3 =? 168) || (b3 =? 169)
          || (b3 =? 175)))%Z
  || ((b1 =? 226) && (b2 =? 129) && (b3 =? 159))%Z
  || ((b1 =? 227) && (b2 =? 128) && (b3 =? 128))%Z.

(** Drop leading white space runes; [rv] tells that the string is held in
    reverse, so that the bytes of a rune come last byte first. *)
Fixpoint trim_left_space (rv : bool) (s : string) : string :=
  match s with
  | EmptyString => s
  | String c1 s1 =>
      if is_space1 c1 then trim_left_space rv s1
      else
        match s1 with
        | EmptyString => s
        | String c2 s2 =>
            if (if rv then is_space2 c2 c1 else is_space2 c1 c2)
            then trim_left_space rv s2
            else
              match s2 with
              | EmptyString => s
              | String c3 s3 =>
                  if (if rv then is_space3 c3 c2 c1 else is_space3 c1 c2 c3)
                  then trim_left_space rv s3
                  else s
              end
        end
  end.

(** [strings.TrimSpace(s)]: [s] without leading and trailing white space. *)
Definition TrimSpace (s : string) : string :=
  str_rev (trim_left_space true (str_rev (trim_left_space false s))).

(** [bytes.TrimLeft(s, " \t")]. *)
Fixpoint TrimLeft_sp_ht (s : string) : string :=
  match s with
  | String c s' =>
      if byte_eqb c SP || byte_eqb c HT then TrimLeft_sp_ht s' else s
  | EmptyString => s
  end.

End strings.

(** ** Package strconv *)

Module strconv.

(** [strconv.Itoa(i)]: the decimal text of [i]. *)
Definition Itoa (i : Z) : string := NilZero.string_of_int (Z.to_int i).

(** The two failures of [*NumError]. *)
Inductive NumError := ErrSyntax | ErrRange.

(** [strconv.ParseUint(s, 10, 64)]: the loop over the digits, with its two
    overflow tests. *)
Definition maxUint64 : Z := 2 ^ 64 - 1.
Definition cutoff10 : Z := maxUint64 / 10 + 1.

Fixpoint ParseUint_loop (s : string) (n : Z) : Z * option NumError :=
  match s with
  | EmptyString => (n, None)
  | String c s' =>
      if is_digit c then
        let d := (byte_val c - 48)%Z in
        if (cutoff10 <=? n)%Z then (maxUint64, Some ErrRange)
        else
          let n1 := (n * 10 + d)%Z in
          if (maxUint64 <? n1)%Z then (maxUint64, Some ErrRange)
          else ParseUint_loop s' n1
      else (0%Z, Some ErrSyntax)
  end.

Definition ParseUint (s : string) : Z * option NumError :=
  match s with
  | EmptyString => (0%Z, Some ErrSyntax)
  | _ => ParseUint_loop s 0
  end.

(** [strconv.ParseInt(s, 10, 64)]. *)
Definition ParseInt (s : string) : Z * option NumError :=
  match s with
  | EmptyString => (0%Z, Some ErrSyntax)
  | String c s' =>
      let neg := byte_eqb c "-" in
      let digits := if byte_eqb c "+" || neg then s' else s in
      let cutoff := (2 ^ 63)%Z in
      match ParseUint digits with
      | (_, Some ErrSyntax) => (0%Z, Some ErrSyntax)
      | (un, _) =>
          if negb neg && (cutoff <=? un)%Z then ((cutoff - 1)%Z, Some ErrRange)
          else if neg && (cutoff <? un)%Z then ((- cutoff)%Z, Some ErrRange)
          else (if neg then (- un)%Z else un, None)
      end
  end.

(** [strconv.Atoi(s)] on a platform whose [int] has 64 bits. *)
Definition Atoi (s : string) : Z * option NumError := ParseInt s.

(** [strconv.ParseBool(str)]. *)
Definition ParseBool (str : string) : bool * option NumError :=
  if bool_decide (str ∈ ["1"; "t"; "T"; "TRUE"; "true"; "True"]) then (true, None)
  else if bool_decide (str ∈ ["0"; "f"; "F"; "FALSE"; "false"; "False"])
  then (false, None)
  else (false, Some ErrSyntax).

End strconv.

(** ** Errors, panics and the byte stream *)

(** [server.GntpError] (errors.go); declared here because Go's [error]
    interface, below, has it among its dynamic types. *)
Record GntpError := { Code : Z; Description : string }.

(** The values of Go's [error] interface that occur in the program, by
    dynamic type.  [nil] is [None] in an [option error].  A [GntpError]
    stored by value and one stored behind a pointer are different dynamic
    types: a type assertion tells them apart.  The messages of
    [textproto.ProtocolError] keep their fixed text and the offending line. *)
Inductive error :=
| io_EOF
| io_ErrUnexpectedEOF
| textproto_ProtocolError (msg line : string)
| os_PathError (op path : string)
| GntpError_value (g : GntpError)
| GntpError_pointer (g : GntpError).

(** A Go call either returns or panics. *)
Inductive outcome (A : Type) :=
| Return (a : A)
| Panic (msg : string).
Arguments Return {A} a.
Arguments Panic {A} msg.

#[global] Instance outcome_ret : MRet outcome := @Return.
#[global] Instance outcome_bind : MBind outcome := λ A B f x,
  match x with
  | Return a => f a
  | Panic msg => Panic msg
  end.

(** A [*bufio.Reader] on a connection: the bytes not read yet.  The peer
    closing the connection is the only read failure that is modelled. *)
Abbreviation Reader := string (only parsing).

Module bufio.

(** [bufio.Reader.ReadByte]. *)
Definition ReadByte (b : Reader) : (ascii * option error) * Reader :=
  match b with
  | EmptyString => ((byte_of 0, Some io_EOF), EmptyString)
  | String c b' => ((c, None), b')
  end.

(** [bufio.Reader.ReadLine], the pieces of an over-long line put together
    as [textproto] does: the bytes up to the next LF, without the LF and
    without one CR before it; what is left when there is no LF; [io.EOF] when
    nothing is left. *)
Definition drop_CR (l : string) : string :=
  match str_rev l with
  | String c r => if byte_eqb c CR then str_rev r else l
  | EmptyString => l
  end.

Definition ReadLine (b : Reader) : (string * option error) * Reader :=
  match b with
  | EmptyString => ((EmptyString, Some io_EOF), EmptyString)
  | _ =>
      match str_cut LF b with
      | Some (l, b') => ((drop_CR l, None), b')
      | None => ((b, None), EmptyString)
      end
  end.

End bufio.

Module io.

(** [io.ReadFull(r, buf)] with [len(buf) = n]: [n] bytes, or everything
    that is left together with [io.EOF] (nothing was left) or
    [io.ErrUnexpectedEOF]. *)
Definition ReadFull (r : Reader) (n : nat) : (string * option error) * Reader :=
  if n <=? String.length r then ((str_take n r, None), str_drop n r)
  else match r with
       | EmptyString => ((EmptyString, Some io_EOF), EmptyString)
       | _ => ((r, Some io_ErrUnexpectedEOF), EmptyString)
       end.

End io.

(** ** Package net/textproto

    After the package as it is in current Go releases: field names are
    canonicalized only when they are tokens, and [ReadMIMEHeader] refuses a
    first line that starts with white space, a line without a colon, an
    empty or invalid field name and a field value with a control byte. *)

(** [textproto.MIMEHeader], and [server.Header] whose underlying type is the
    same: Go's [map[string][]string]. *)
Abbreviation MIMEHeader := (gmap string (list string)) (only parsing).

Module textproto.

Definition bit (c : ascii) : Z := Z.shiftl 1 (byte_val c).

(** [validHeaderFieldByte]: the 128-bit bitmap of RFC 7230's [tchar]. *)
Definition fieldMask : Z :=
  foldr Z.lor 0%Z
    [ Z.shiftl (Z.shiftl 1 10 - 1) (byte_val "0");
      Z.shiftl (Z.shiftl 1 26 - 1) (byte_val "a");
      Z.shiftl (Z.shiftl 1 26 - 1) (byte_val "A");
      bit "!"; bit "#"; bit "$"; bit "%"; bit "&"; bit "'"; bit "*"; bit "+";
      bit "-"; bit "."; bit "^"; bit "_"; bit "`"; bit "|"; bit "~" ].

Definition validHeaderFieldByte (c : ascii) : bool :=
  Z.testbit fieldMask (byte_val c).

(** [validHeaderValueByte]: VCHAR, SP, HTAB and every byte from 128 on. *)
Definition valueMask : Z :=
  foldr Z.lor 0%Z
    [ Z.shiftl (Z.shiftl 1 (126 - 33 + 1) - 1) 33; bit SP; bit HT ].

Definition validHeaderValueByte (c : ascii) : bool :=
  (128 <=? byte_val c)%Z || Z.testbit valueMask (byte_val c).

(** The first loop of [canonicalMIMEHeaderKey]: does [a] look like a header
    key?  A space is tolerated but switches canonicalization off. *)
Fixpoint looks_like_key (a : string) (noCanon : bool) : option bool :=
  match a with
  | EmptyString => Some noCanon
  | String c a' =>
      if validHeaderFieldByte c then looks_like_key a' noCanon
      else if byte_eqb c SP then looks_like_key a' true
      else None
  end.

(** Its second loop: upper case for the first letter and after each dash,
    lower case elsewhere. *)
Definition toLower : Z := 32.

Fixpoint canon_loop (upper : bool) (a : string) : string :=
  match a with
  | EmptyString => EmptyString
  | String c a' =>
      let c' :=
        if upper && is_lower c then byte_of (byte_val c - toLower)
        else if negb upper && is_upper c then byte_of (byte_val c + toLower)
        else c in
      String c' (canon_loop (byte_eqb c' "-") a')
  end.

Definition canonicalMIMEHeaderKey (a : string) : string * bool :=
  match a with
  | EmptyString => (EmptyString, false)
  | _ =>
      match looks_like_key a false with
      | None => (a, false)
      | Some true => (a, true)
      | Some false => (canon_loop true a, true)
      end
  end.

(** [textproto.CanonicalMIMEHeaderKey(s)]: the quick check, which hands [s]
    over at the first letter in the wrong case and returns [s] as it is at
    the first byte that is not valid in a field name. *)
Fixpoint CanonicalMIMEHeaderKey_check (upper : bool) (rest s : string) : string :=
  match rest with
  | EmptyString => s
  | String c rest' =>
      if negb (validHeaderFieldByte c) then s
      else if upper && is_lower c then fst (canonicalMIMEHeaderKey s)
      else if negb upper && is_upper c then fst (canonicalMIMEHeaderKey s)
      else CanonicalMIMEHeaderKey_check (byte_eqb c "-") rest' s
  end.

Definition CanonicalMIMEHeaderKey (s : string) : string :=
  CanonicalMIMEHeaderKey_check true s s.

(** [MIMEHeader.Add], [Set] and [Del]. *)
Definition Add (h : MIMEHeader) (key value : string) : MIMEHeader :=
  let key := CanonicalMIMEHeaderKey key in
  <[key := default [] (h !! key) ++ [value]]> h.

Definition Set_ (h : MIMEHeader) (key value : string) : MIMEHeader :=
  <[CanonicalMIMEHeaderKey key := [value]]> h.

Definition Del (h : MIMEHeader) (key : string) : MIMEHeader :=
  delete (CanonicalMIMEHeaderKey key) h.

(** [trim]: without leading and trailing spaces and tabs. *)
Definition trim (s : string) : string :=
  str_rev (strings.TrimLeft_sp_ht (str_rev (strings.TrimLeft_sp_ht s))).

(** [Reader.ReadLine], a line as a string. *)
Definition ReadLine (b : Reader) : (string * option error) * Reader :=
  bufio.ReadLine b.

(** [Reader.skipSpace]: the number of leading spaces and tabs, which are
    consumed. *)
Fixpoint skipSpace (b : Reader) : nat * Reader :=
  match b with
  | String c b' =>
      if byte_eqb c SP || byte_eqb c HT
      then let '(n, r) := skipSpace b' in (S n, r)
      else (O, b)
  | EmptyString => (O, b)
  end.

(** The loop of [readContinuedLineSlice] over the continuation lines, each
    joined to [buf] with one space.  An iteration consumes at least one
    byte, so [length b] iterations are never used up. *)
Fixpoint continuation (fuel : nat) (buf : string) (b : Reader) : string * Reader :=
  match fuel with
  | O => (buf, b)
  | S fuel' =>
      match skipSpace b with
      | (O, b1) => (buf, b1)
      | (S _, b1) =>
          let buf := (buf +:+ " ")%string in
          match ReadLine b1 with
          | ((_, Some _), b2) => (buf, b2)
          | ((line, None), b2) => continuation fuel' (buf +:+ trim line) b2
          end
      end
  end.

(** [Reader.readContinuedLineSlice(lim, mustHaveFieldNameColon)], with the
    limit of [ReadMIMEHeader], which no connection reaches. *)
Definition readContinuedLineSlice (b : Reader) : (string * option error) * Reader :=
  match ReadLine b with
  | ((_, Some err), b1) => ((EmptyString, Some err), b1)
  | ((line, None), b1) =>
      match line with
      | EmptyString => ((EmptyString, None), b1)
      | _ =>
          match str_cut ":" line with
          | None =>
              ((EmptyString,
                Some (textproto_ProtocolError "malformed MIME header: missing colon: " line)),
               b1)
          | Some _ =>
              let '(buf, b2) := continuation (String.length b1) (trim line) b1 in
              ((buf, None), b2)
          end
      end
  end.

(** The loop of [readMIMEHeader] over the logical lines.  An iteration
    consumes at least one byte, so [length b + 1] iterations are never used
    up. *)
Fixpoint readMIMEHeader_loop (fuel : nat) (m : MIMEHeader) (b : Reader)
  : (MIMEHeader * option error) * Reader :=
  match fuel with
  | O => ((m, None), b)
  | S fuel' =>
      match readContinuedLineSlice b with
      | ((EmptyString, err), b1) => ((m, err), b1)
      | ((kv, _), b1) =>
          let malformed := Some (textproto_ProtocolError "malformed MIME header line: " kv) in
          match str_cut ":" kv with
          | None => ((m, malformed), b1)
          | Some (k, v) =>
              match canonicalMIMEHeaderKey k with
              | (_, false) => ((m, malformed), b1)
              | (key, true) =>
                  if negb (str_forallb validHeaderValueByte v)
                  then ((m, malformed), b1)
                  else
                    let value := strings.TrimLeft_sp_ht v in
                    readMIMEHeader_loop fuel'
                      (<[key := default [] (m !! key) ++ [value]]> m) b1
              end
          end
      end
  end.

(** [Reader.ReadMIMEHeader]. *)
Definition ReadMIMEHeader (b : Reader) : (MIMEHeader * option error) * Reader :=
  match b with
  | String c _ =>
      if byte_eqb c SP || byte_eqb c HT then
        match ReadLine b with
        | ((_, Some err), b1) => ((∅, Some err), b1)
        | ((line, None), b1) =>
            ((∅, Some (textproto_ProtocolError "malformed MIME header initial line: " line)), b1)
        end
      else readMIMEHeader_loop (S (String.length b)) ∅ b
  | EmptyString => readMIMEHeader_loop (S (String.length b)) ∅ b
  end.

End textproto.

Definition CRLF : string := String CR (String LF EmptyString).

(** ** Package server *)

Module server.

(** *** header.go *)

Abbreviation Header := (gmap string (list string)) (only parsing).

Definition NewHeader : Header := ∅.

Definition Add (h : Header) (key value : string) : Header :=
  textproto.Add h key value.

Definition Set_ (h : Header) (key value : string) : Header :=
  textproto.Set_ h key value.

(** [Header.Get]: [v[0]] panics on a key that is bound to an empty slice. *)
Definition Get (h : Header) (key : string) : outcome (string * bool) :=
  match h !! textproto.CanonicalMIMEHeaderKey key with
  | None => Return (EmptyString, false)
  | Some [] => Panic "index out of range"
  | Some (v0 :: _) => Return (v0, true)
  end.

Definition Del (h : Header) (key value : string) : Header :=
  textproto.Del h key.

Definition newlineToSpace (v : string) : string :=
  str_map strings.newlineToSpace_byte v.

(** The text that [fmt.Fprintf(w, "%s: %s\r\n", k, v)] writes, [v] being the
    value after [newlineToSpace.Replace] and [strings.TrimSpace]. *)
Definition Write_value (v : string) : string :=
  strings.TrimSpace (newlineToSpace v).

Definition Write_line (k v : string) : string :=
  (k +:+ ": " +:+ Write_value v +:+ CRLF)%string.

Fixpoint Write_values (k : string) (vs : list string) : string :=
  match vs with
  | [] => EmptyString
  | v :: vs' => (Write_line k v +:+ Write_values k vs')%string
  end.

Fixpoint Write_entries (entries : list (string * list string)) : string :=
  match entries with
  | [] => EmptyString
  | (k, vs) :: rest => (Write_values k vs +:+ Write_entries rest)%string
  end.

(** [Header.Write(w)] on a writer that does not fail.  Go leaves the order
    in which [range h] visits the keys open: [Write h out] holds of the
    text [out] written for any one order of the entries of [h]. *)
Inductive Write (h : Header) : string → Prop :=
| Write_range (entries : list (string * list string)) :
    entries ≡ₚ map_to_list h → Write h (Write_entries entries).

(** *** errors.go *)

Definition UnknownRequestTypeError (t : string) : GntpError :=
  {| Code := 300; Description := "Unknown or unsupported directive type: " +:+ t |}.

Definition InvalidRequestError (info : string) : GntpError :=
  {| Code := 300; Description := "The request was malformed: " +:+ info |}.

Definition UnknownProtocolError (p : string) : GntpError :=
  {| Code := 301; Description := "Unknown protocol: " +:+ p |}.

Record Version := { Major : Z; Minor : Z }.

Definition UnknownProtocolVersionError (v : Version) : GntpError :=
  {| Code := 302;
     Description := "Unknown protocol version: " +:+ strconv.Itoa (Major v)
                    +:+ "." +:+ strconv.Itoa (Minor v) |}.

Definition MissingHeaderError (header : string) : GntpError :=
  {| Code := 303; Description := "Required header " +:+ header +:+ " missing" |}.

Definition UnknownApplicationError (name : string) : GntpError :=
  {| Code := 400; Description := "Application " +:+ name +:+ " not known" |}.

Definition UnknownNotificationError (app name : string) : GntpError :=
  {| Code := 401;
     Description := "Notification " +:+ name +:+ " not known for " +:+ app |}.

Definition InternalServerError : GntpError :=
  {| Code := 500; Description := "The server encountered an internal error" |}.

(** *** binaries.go and server.go: the request and response model *)

Record Binary := { Ident : string; Length : Z; Data : string }.

Record Request := {
  Request_Version : Version;
  Request_Type : string;
  Request_Headers : list Header;
  Request_Binaries : gmap string Binary }.

Record Response := {
  Response_Version : Version;
  Response_Type : string;
  Response_Headers : list Header;
  Response_Binaries : gmap string Binary }.

(** [new(Request)]: every field at its zero value. *)
Definition new_Request : Request :=
  {| Request_Version := {| Major := 0; Minor := 0 |};
     Request_Type := EmptyString;
     Request_Headers := [];
     Request_Binaries := ∅ |}.

Definition NewResponse (major minor : Z) : Response :=
  {| Response_Version := {| Major := major; Minor := minor |};
     Response_Type := "OK";
     Response_Headers := [NewHeader];
     Response_Binaries := ∅ |}.

(** [GntpError.Response]. *)
Definition GntpError_Response (g : GntpError) : Response :=
  let header := NewHeader in
  let header := Set_ header "Error-Description" (Description g) in
  let header := Set_ header "Error-Code" (strconv.Itoa (Code g)) in
  {| Response_Version := {| Major := 1; Minor := 0 |};
     Response_Type := "ERROR";
     Response_Headers := [header];
     Response_Binaries := ∅ |}.


(** *** binaries.go: the binary resource reader *)

(** The [Binaries] interface, over the state [B] of the store behind it.
    [Add] reads from the connection and so returns what it left unread. *)
Class Binaries (B : Type) := {
  Binaries_Add : B → string → Z → Reader → outcome (option error * Reader * B);
  Binaries_Get : B → string → string * option error;
  Binaries_Exists : B → string → bool }.

(** The GNTP resource identifier that the reader looks for. *)
Definition resource_prefix : string := "x-growl-resource://".

(** The first loop of [ReadBinaries]: the number of header values, over all
    blocks, that start with the resource identifier.  The order in which the
    keys of a block are visited does not change a count. *)
Definition count_values (values : list string) : nat :=
  length (filter (λ value, strings.HasPrefix value resource_prefix = true) values).

Definition count_header (header : Header) : nat :=
  foldr (λ kv n, count_values kv.2 + n) 0 (map_to_list header).

Definition count_references (headers : list Header) : nat :=
  foldr (λ header n, count_header header + n) 0 headers.

(** One round of the loop that reads the two line ends after the data: a
    line feed, with at most one carriage return before it. *)
Definition read_line_end (ident : string) (b : Reader) : option error * Reader :=
  let not_terminated :=
    Some (GntpError_value (InvalidRequestError (ident +:+ " data not properly terminated"))) in
  match bufio.ReadByte b with
  | ((_, Some err), b1) => (Some err, b1)
  | ((crlf, None), b1) =>
      if byte_eqb crlf CR then
        match bufio.ReadByte b1 with
        | ((_, Some err), b2) => (Some err, b2)
        | ((crlf, None), b2) =>
            if byte_eqb crlf LF then (None, b2) else (not_terminated, b2)
        end
      else if byte_eqb crlf LF then (None, b1) else (not_terminated, b1)
  end.

Section ReadBinaries.
Context {B : Type} `{Binaries B}.

Definition section_result : Type :=
  outcome ((gmap string Binary * option error) * Reader * B).

(** Go returns a nil map together with an error. *)
Definition fail (err : error) (b : Reader) (binaries : B) : section_result :=
  Return ((∅, Some err), b, binaries).

(** The second loop of [ReadBinaries], [count] sections still to read. *)
Fixpoint ReadBinaries_loop (count : nat) (b : Reader) (binaries : B)
    (bs : gmap string Binary) : section_result :=
  match count with
  | O => Return ((bs, None), b, binaries)
  | S count' =>
      match textproto.ReadMIMEHeader b with
      | ((_, Some err), b1) => fail err b1 binaries
      | ((header, None), b1) =>
          match header !! "Identifier" with
          | None =>
              fail (GntpError_value (MissingHeaderError "Binary Identifier")) b1 binaries
          | Some [] => Panic "index out of range"
          | Some (ident :: _) =>
              match header !! "Length" with
              | None =>
                  fail (GntpError_value (MissingHeaderError ("Length for binary " +:+ ident)))
                       b1 binaries
              | Some [] => Panic "index out of range"
              | Some (length :: _) =>
                  match strconv.ParseInt length with
                  | (_, Some _) =>
                      fail (GntpError_value
                              (InvalidRequestError (ident +:+ " Length header invalid")))
                           b1 binaries
                  | (len, None) =>
                      '(err, b2, binaries) ← Binaries_Add binaries ident len b1;
                      match err with
                      | Some io_ErrUnexpectedEOF =>
                          fail (GntpError_value
                                  (InvalidRequestError (ident +:+ " data incomplete")))
                               b2 binaries
                      | Some err => fail err b2 binaries
                      | None =>
                          let binary := {| Ident := ident; Length := len; Data := EmptyString |} in
                          let bs := <[ident := binary]> bs in
                          match read_line_end ident b2 with
                          | (Some err, b3) => fail err b3 binaries
                          | (None, b3) =>
                              match read_line_end ident b3 with
                              | (Some err, b4) => fail err b4 binaries
                              | (None, b4) => ReadBinaries_loop count' b4 binaries bs
                              end
                          end
                      end
                  end
              end
          end
      end
  end.

(** [ReadBinaries(b, headers, binaries)]. *)
Definition ReadBinaries (b : Reader) (headers : list Header) (binaries : B)
  : section_result :=
  let count := count_references headers in
  ReadBinaries_loop count b binaries ∅.

End ReadBinaries.

(** *** server.go: handlers and the dispatch table *)

(** Go's [int] on a 64-bit platform: the value that an arithmetic result
    wraps around to. *)
Definition int (z : Z) : Z := ((z + 2 ^ 63) mod 2 ^ 64 - 2 ^ 63)%Z.

(** [atoi(s, i)]; the loop walks over [s[i:]]. *)
Definition Big : Z := 1000000.

Fixpoint atoi_loop (rest : string) (n : Z) (i : nat) : Z * nat * bool :=
  match rest with
  | EmptyString => (n, i, true)
  | String c rest' =>
      if is_digit c then
        let n := int (n * 10 + int ((byte_val c - byte_val "0") mod 256)) in
        if (Big <? n)%Z then (0%Z, O, false)
        else atoi_loop rest' n (S i)
      else (n, i, true)
  end.

Definition atoi (s : string) (i : nat) : Z * nat * bool :=
  match str_drop i s with
  | EmptyString => (0%Z, O, false)
  | String c _ as rest =>
      if is_digit c then atoi_loop rest 0 i else (0%Z, O, false)
  end.

(** [parseGntpVersion(version)]. *)
Definition parseGntpVersion (version : string) : Z * Z * bool :=
  if (String.length version <? 5) || negb (String.eqb (str_take 5 version) "GNTP/")
  then (0%Z, 0%Z, false)
  else
    let '(major, i, ok) := atoi version 5 in
    if negb ok || (String.length version <=? i)
       || negb (bool_decide (String.get i version = Some "."%char))
    then (0%Z, 0%Z, false)
    else
      let '(minor, i, ok) := atoi version (i + 1) in
      if negb ok || negb (i =? String.length version)
      then (0%Z, 0%Z, false)
      else (major, minor, ok).

Section Dispatch.
(** [St] is the state shared by the handlers of a server: whatever their
    [Parse] and [Respond] read and change besides the connection. *)
Context {St : Type}.

(** The [Handler] interface.  [*Request] and [*Response] may be nil, hence
    the options. *)
Record Handler := {
  Handler_Parse :
    Reader → option Request → St →
    outcome ((option Request * option error) * Reader * St);
  Handler_Respond :
    option Request → St → outcome ((option Response * option error) * St) }.

(** [ServeMux]; its lock orders concurrent accesses and has no part in what
    one access computes. *)
Record ServeMux := { m : gmap string Handler }.

Definition NewServeMux : ServeMux := {| m := ∅ |}.

(** [ServeMux.Register]. *)
Definition Register (mux : ServeMux) (t : string) (h : Handler) : outcome ServeMux :=
  match m mux !! t with
  | Some _ => Panic ("gntp: multiple registrations for " +:+ t)
  | None => Return {| m := <[t := h]> (m mux) |}
  end.

(** [UnhandledHandler]. *)
Definition UnhandledHandler (t : string) : Handler :=
  {| Handler_Parse := λ b req st,
       Return ((req, Some (GntpError_value (UnknownRequestTypeError t))), b, st);
     Handler_Respond := λ req st, Return ((None, None), st) |}.

(** [ServeMux.handler]. *)
Definition handler (mux : ServeMux) (t : string) : Handler :=
  match m mux !! t with
  | None => UnhandledHandler t
  | Some h => h
  end.

Definition with_version (req : Request) (major minor : Z) : Request :=
  {| Request_Version := {| Major := major; Minor := minor |};
     Request_Type := Request_Type req;
     Request_Headers := Request_Headers req;
     Request_Binaries := Request_Binaries req |}.

Definition with_type (req : Request) (t : string) : Request :=
  {| Request_Version := Request_Version req;
     Request_Type := t;
     Request_Headers := Request_Headers req;
     Request_Binaries := Request_Binaries req |}.

(** [ServeMux.Parse]. *)
Definition Parse (mux : ServeMux) (b : Reader) (req : option Request) (st : St)
  : outcome ((option Request * option error) * Reader * St) :=
  let req := default new_Request req in
  match textproto.ReadLine b with
  | ((_, Some err), b1) => Return ((Some req, Some err), b1, st)
  | ((s, None), b1) =>
      match strings.SplitN s SP 3 with
      | [f0; f1; f2] =>
          let '(major, minor, ok) := parseGntpVersion f0 in
          let req := with_version req major minor in
          if negb ok
          then Return ((Some req, Some (GntpError_value (UnknownProtocolError s))), b1, st)
          else
            let req := with_type req f1 in
            if negb (String.eqb f2 "NONE")
            then Return ((Some req,
                          Some (GntpError_value (InvalidRequestError "unsupported encryption"))),
                         b1, st)
            else Handler_Parse (handler mux (Request_Type req)) b1 (Some req) st
      | _ => Return ((Some req, Some (GntpError_value (UnknownProtocolError s))), b1, st)
      end
  end.

(** [ServeMux.Respond]; [req.Type] on a nil request panics. *)
Definition Respond (mux : ServeMux) (req : option Request) (st : St)
  : outcome ((option Response * option error) * St) :=
  match req with
  | None => Panic "invalid memory address or nil pointer dereference"
  | Some r => Handler_Respond (handler mux (Request_Type r)) req st
  end.

(** A [*ServeMux] is a [Handler]. *)
Definition ServeMux_Handler (mux : ServeMux) : Handler :=
  {| Handler_Parse := Parse mux; Handler_Respond := Respond mux |}.

(** The type assertions [err.(GntpError)] and [err.( *GntpError)]. *)
Definition assert_GntpError (err : error) : option GntpError :=
  match err with
  | GntpError_value ge => Some ge
  | _ => None
  end.

Definition assert_GntpError_pointer (err : error) : option GntpError :=
  match err with
  | GntpError_pointer ge => Some ge
  | _ => None
  end.

(** [conn.serve]: the response that is handed to [resp.write], what is left
    on the connection and the state.  [Panic] stands for a panic that the
    deferred function recovers: the connection is closed and nothing is
    written.  [srv_handler] is [c.server.handler], nil for the default. *)
Definition serve (srv_handler : option Handler) (DefaultServeMux : ServeMux)
    (reader : Reader) (st : St) : outcome (Response * Reader * St) :=
  let handler := default (ServeMux_Handler DefaultServeMux) srv_handler in
  '(req, err, b, st) ← Handler_Parse handler reader None st;
  match err with
  | Some err =>
      match assert_GntpError err with
      | Some ge => Return (GntpError_Response ge, b, st)
      | None => Return (GntpError_Response InternalServerError, b, st)
      end
  | None =>
      '(resp, err, st) ← Handler_Respond handler req st;
      match err with
      | Some err =>
          match assert_GntpError_pointer err with
          | Some ge => Return (GntpError_Response ge, b, st)
          | None => Return (GntpError_Response InternalServerError, b, st)
          end
      | None =>
          match resp with
          | Some resp => Return (resp, b, st)
          | None => Panic "invalid memory address or nil pointer dereference"
          end
      end
  end.

End Dispatch.
Arguments Handler : clear implicits.
Arguments ServeMux : clear implicits.


(** *** server.go: texts, the response writer and the accept loop *)

(** [Version.String]. *)
Definition Version_String (v : Version) : string :=
  ("GNTP/" +:+ strconv.Itoa (Major v) +:+ "." +:+ strconv.Itoa (Minor v))%string.

(** [GntpError.Error]. *)
Definition GntpError_Error (g : GntpError) : string :=
  ("GNTP " +:+ strconv.Itoa (Code g) +:+ " error: " +:+ Description g)%string.

(** [Response.write] on a writer that does not fail: the directive line,
    each header block with a blank line after it, and each binary with its
    two header lines, its data and a line end.  The binaries, like the keys
    of a header block, come in any order. *)
Definition write_directive (resp : Response) : string :=
  ("GNTP/" +:+ strconv.Itoa (Major (Response_Version resp)) +:+ "."
   +:+ strconv.Itoa (Minor (Response_Version resp))
   +:+ " -" +:+ Response_Type resp +:+ " NONE" +:+ CRLF)%string.

Inductive write_headers : list Header → string → Prop :=
| write_headers_nil : write_headers [] EmptyString
| write_headers_cons (header : Header) (headers : list Header) (out outs : string) :
    Write header out → write_headers headers outs →
    write_headers (header :: headers) (out +:+ CRLF +:+ outs).

Definition write_binary (id : string) (binary : Binary) : string :=
  ("Identifier: " +:+ id +:+ CRLF +:+ "Length: " +:+ strconv.Itoa (Length binary) +:+ CRLF
   +:+ Data binary +:+ CRLF)%string.

Fixpoint write_binaries (entries : list (string * Binary)) : string :=
  match entries with
  | [] => EmptyString
  | (id, binary) :: rest => (write_binary id binary +:+ write_binaries rest)%string
  end.

Inductive Response_write (resp : Response) : string → Prop :=
| Response_write_range (hout : string) (entries : list (string * Binary)) :
    write_headers (Response_Headers resp) hout →
    entries ≡ₚ map_to_list (Response_Binaries resp) →
    Response_write resp (write_directive resp +:+ hout +:+ write_binaries entries).

(** [Server.Start]: the address that is listened on. *)
Definition listen_addr (addr : string) : string :=
  let addr := if String.eqb addr EmptyString then ":gntp"%string else addr in
  if strings.HasSuffix addr ":gntp"
  then (str_take (String.length addr - 5) addr +:+ ":23053")%string
  else addr.

(** What one call of [listener.Accept] gives: a connection, an error that
    the network layer marks temporary, or another error, together with the
    shutdown flag as the loop reads it then. *)
Inductive accepted (Conn : Type) :=
| Accept_conn (rw : Conn)
| Accept_temporary
| Accept_error (err : error) (shutdown : bool).
Arguments Accept_conn {Conn} rw.
Arguments Accept_temporary {Conn}.
Arguments Accept_error {Conn} err shutdown.

(** How the accept loop ends: it left the loop on shutdown and waits for the
    connections, it returned the error of [Accept], or it is still in
    [Accept], the calls listed being over. *)
Inductive loop_end := Loop_shutdown | Loop_failed (err : error) | Loop_accepting.

(** [time.Duration] counts nanoseconds. *)
Definition Millisecond : Z := 1000000.
Definition Second : Z := 1000000000.

(** The next [tempDelay]. *)
Definition backoff (tempDelay : Z) : Z :=
  let tempDelay := if (tempDelay =? 0)%Z then (5 * Millisecond)%Z else int (tempDelay * 2) in
  let max := (1 * Second)%Z in
  if (max <? tempDelay)%Z then max else tempDelay.

(** The accept loop of [Server.Start] over the results of its calls of
    [Accept], from the current [tempDelay]: the durations slept, the
    connections handed to a new goroutine, both in order, and how the loop
    ends. *)
Fixpoint accept_loop {Conn : Type} (calls : list (accepted Conn)) (tempDelay : Z)
  : list Z * list Conn * loop_end :=
  match calls with
  | [] => ([], [], Loop_accepting)
  | Accept_temporary :: calls' =>
      let tempDelay := backoff tempDelay in
      let '(sleeps, conns, e) := accept_loop calls' tempDelay in
      (tempDelay :: sleeps, conns, e)
  | Accept_error err shutdown :: _ =>
      ([], [], if shutdown then Loop_shutdown else Loop_failed err)
  | Accept_conn rw :: calls' =>
      let '(sleeps, conns, e) := accept_loop calls' 0 in
      (sleeps, rw :: conns, e)
  end.
End server.

(** ** Package main *)

Module main.

(** *** application.go and notification.go *)

(** [Notification]; [App], a pointer back to the application in Go, is the
    application's name. *)
Record Notification := {
  App : string;
  Name : string;
  Display : string;
  Enabled : bool;
  Icon : string;
  Id : string;
  Title : string;
  Text : string;
  Sticky : bool;
  Priority : Z;
  Coalescing : string }.

Record Application := {
  Application_Name : string;
  Application_Icon : string;
  Count : Z;
  Notifications : gmap string Notification }.

(** [Applications]; as for [ServeMux], the lock is left out. *)
Abbreviation Applications := (gmap string Application) (only parsing).

Definition NewApplications : Applications := ∅.

Definition Applications_Add (apps : Applications) (app : Application) : Applications :=
  <[Application_Name app := app]> apps.

Definition Applications_Get (apps : Applications) (name : string) : option Application :=
  apps !! name.

Section Main.

(** What the platform and the Unicode tables decide: [filepath.Join], the
    failure, if any, of [os.Create] on a path at which [os.Stat] found
    nothing, the size [maxAlloc] above which the runtime refuses to allocate
    (2^48 bytes on a 64-bit Linux), and [strings.ToLower]. *)
Variable filepath_Join : string → string → string.
Variable os_Create_error : string → option error.
Variable maxAlloc : Z.
Variable strings_ToLower : string → string.

(** *** binaries.go *)

(** What [os.Stat] finds at a path: a regular file with its bytes, or a
    directory with the size that [Stat] reports for it. *)
Inductive node :=
| File (data : string)
| Directory (size : Z).

(** [FileCache], together with the disk, by path; a path without a node is
    one for which [os.Stat] fails. *)
Record FileCache := { dir : string; files : gmap string node }.

Definition NewFileCache (dir : string) (files : gmap string node) : FileCache :=
  {| dir := dir; files := files |}.

(** [FileCache.Add]: [make([]byte, length)] panics on a negative length and
    on one above [maxAlloc]; below it, memory is taken to be there.  Whatever
    [os.Stat] finds at the path, a file or a directory, ends the call with
    success.  A file that [os.Create] made is taken to accept the write. *)
Definition FileCache_Add (cache : FileCache) (key : string) (length : Z) (r : Reader)
  : outcome (option error * Reader * FileCache) :=
  if (length <? 0)%Z || (maxAlloc <? length)%Z
  then Panic "makeslice: len out of range"
  else
    let '((data, err), r1) := io.ReadFull r (Z.to_nat length) in
    match err with
    | Some io_EOF | Some io_ErrUnexpectedEOF =>
        Return (Some io_ErrUnexpectedEOF, r1, cache)
    | _ =>
        let path := filepath_Join (dir cache) key in
        match files cache !! path with
        | Some _ => Return (None, r1, cache)
        | None =>
            match os_Create_error path with
            | Some err => Return (Some err, r1, cache)
            | None =>
                Return (None, r1,
                        {| dir := dir cache; files := <[path := File data]> (files cache) |})
            end
        end
    end.

(** [FileCache.Get]: a file that is there is taken to open, to fit in
    memory and to be read to its end.  A directory opens as well;
    [io.ReadFull] then reads nothing and succeeds when the size is 0, and
    fails on its first read when not. *)
Definition FileCache_Get (cache : FileCache) (key : string) : string * option error :=
  let path := filepath_Join (dir cache) key in
  match files cache !! path with
  | None => (EmptyString, Some (os_PathError "stat" path))
  | Some (File data) => (data, None)
  | Some (Directory size) =>
      if (size =? 0)%Z then (EmptyString, None)
      else (EmptyString, Some (os_PathError "read" path))
  end.

Definition FileCache_Exists (cache : FileCache) (key : string) : bool :=
  bool_decide (is_Some (files cache !! filepath_Join (dir cache) key)).

#[export] Instance FileCache_Binaries : server.Binaries FileCache :=
  {| server.Binaries_Add := FileCache_Add;
     server.Binaries_Get := FileCache_Get;
     server.Binaries_Exists := FileCache_Exists |}.

(** *** handlers.go *)

(** What the handlers share: the registered applications, the cache, the
    notifications sent on the channel and the URLs for which a download was
    started, both latest first. *)
Record World := {
  apps : Applications;
  binaryCache : FileCache;
  notes : list Notification;
  downloads : list string }.

Definition is_resource (icon : string) : bool :=
  strings.HasPrefix (strings_ToLower icon) "x-growl-resource://".

Definition gntp_error (ge : GntpError)
  : outcome ((option Notification * option error) * list string) :=
  Return ((None, Some (GntpError_value ge)), []).

(** [buildNotification]: the notification or the error, and the URLs handed
    to [go download]. *)
Definition buildNotification (apps : Applications) (header : server.Header)
  : outcome ((option Notification * option error) * list string) :=
  '(appName, ok) ← server.Get header "Application-Name";
  if negb ok then gntp_error (server.MissingHeaderError "Application-Name")
  else
    match Applications_Get apps appName with
    | None => gntp_error (server.UnknownApplicationError appName)
    | Some app =>
        '(name, ok) ← server.Get header "Notification-Name";
        if negb ok then gntp_error (server.MissingHeaderError "Notification-Name")
        else
          '(title, ok) ← server.Get header "Notification-Title";
          if negb ok then gntp_error (server.MissingHeaderError "Notification-Title")
          else
            match Notifications app !! name with
            | None => gntp_error (server.UnknownNotificationError appName name)
            | Some defaults =>
                '(icon, ok) ← server.Get header "Notification-Icon";
                let note_icon := if (ok : bool) then icon else Icon defaults in
                let urls :=
                  if ok && negb (String.eqb icon EmptyString) && negb (is_resource icon)
                  then [icon] else [] in
                '(id, _) ← server.Get header "Notification-Id";
                '(text, _) ← server.Get header "Notification-Text";
                '(sticky, _) ← server.Get header "Notification-Sticky";
                '(priority, _) ← server.Get header "Notification-Priority";
                '(coalescing, _) ← server.Get header "Notification-Coalescing";
                Return
                  ((Some {| App := Application_Name app;
                            Name := name;
                            Display := EmptyString;
                            Enabled := Enabled defaults;
                            Icon := note_icon;
                            Id := id;
                            Title := title;
                            Text := text;
                            Sticky := (strconv.ParseBool sticky).1;
                            Priority := (strconv.Atoi priority).1;
                            Coalescing := coalescing |},
                    None), urls)
            end
    end.

(** [NotifyHandler.Parse]. *)
Definition NotifyHandler_Parse (b : Reader) (req : option server.Request) (w : World)
  : outcome ((option server.Request * option error) * Reader * World) :=
  match textproto.ReadMIMEHeader b with
  | ((_, Some err), b1) => Return ((None, Some err), b1, w)
  | ((header, None), b1) =>
      match req with
      | None => Panic "invalid memory address or nil pointer dereference"
      | Some req =>
          '(bs, err, b2, cache) ← server.ReadBinaries b1 [header] (binaryCache w);
          let w := {| apps := apps w; binaryCache := cache;
                      notes := notes w; downloads := downloads w |} in
          match err with
          | Some err => Return ((None, Some err), b2, w)
          | None =>
              Return ((Some {| server.Request_Version := server.Request_Version req;
                               server.Request_Type := server.Request_Type req;
                               server.Request_Headers := [header];
                               server.Request_Binaries := bs |},
                       None), b2, w)
          end
      end
  end.

(** [NotifyHandler.Respond]. *)
Definition NotifyHandler_Respond (req : option server.Request) (w : World)
  : outcome ((option server.Response * option error) * World) :=
  let resp := server.NewResponse 1 0 in
  match req with
  | None => Panic "invalid memory address or nil pointer dereference"
  | Some req =>
      let v := server.Request_Version req in
      if negb (server.Major v =? 1)%Z && negb (server.Minor v =? 0)%Z
      then Return ((None, Some (GntpError_value (server.UnknownProtocolVersionError v))), w)
      else
        match server.Request_Headers req with
        | [] => Panic "index out of range"
        | header :: _ =>
            '(note, err, urls) ← buildNotification (apps w) header;
            let w := {| apps := apps w; binaryCache := binaryCache w;
                        notes := notes w; downloads := urls ++ downloads w |} in
            match err, note with
            | Some err, _ => Return ((None, Some err), w)
            | None, None => Panic "invalid memory address or nil pointer dereference"
            | None, Some note =>
                let w := {| apps := apps w; binaryCache := binaryCache w;
                            notes := note :: notes w; downloads := downloads w |} in
                let resp :=
                  {| server.Response_Version := server.Response_Version resp;
                     server.Response_Type := server.Response_Type resp;
                     server.Response_Headers :=
                       [server.Set_ server.NewHeader "Response-Action" "NOTIFY"];
                     server.Response_Binaries := server.Response_Binaries resp |} in
                Return ((Some resp, None), w)
            end
        end
  end.

Definition NotifyHandler : server.Handler World :=
  {| server.Handler_Parse := NotifyHandler_Parse;
     server.Handler_Respond := NotifyHandler_Respond |}.


(** [RegisterHandler.Parse]: the header blocks after the first. *)
Fixpoint read_blocks (n : nat) (b : Reader) : (list server.Header * option error) * Reader :=
  match n with
  | O => (([], None), b)
  | S n' =>
      match textproto.ReadMIMEHeader b with
      | ((_, Some err), b1) => (([], Some err), b1)
      | ((h, None), b1) =>
          let '((hs, err), b2) := read_blocks n' b1 in ((h :: hs, err), b2)
      end
  end.

(** [RegisterHandler.Parse].  [make([]server.Header, count+1)] panics on a
    negative length and on one whose 8-byte elements pass [maxAlloc]. *)
Definition RegisterHandler_Parse (b : Reader) (req : option server.Request) (w : World)
  : outcome ((option server.Request * option error) * Reader * World) :=
  match textproto.ReadMIMEHeader b with
  | ((_, Some err), b1) => Return ((None, Some err), b1, w)
  | ((header, None), b1) =>
      '(countHeader, ok) ← server.Get header "Notifications-Count";
      if negb ok
      then Return ((None, Some (GntpError_value
                                  (server.MissingHeaderError "Notifications-Count"))), b1, w)
      else
        match strconv.Atoi countHeader with
        | (_, Some _) =>
            Return ((None, Some (GntpError_value
                                   (server.InvalidRequestError
                                      "nofication count format invalid"))), b1, w)
        | (count, None) =>
            let len := server.int (count + 1) in
            if (len <? 0)%Z || (maxAlloc <? 8 * len)%Z
            then Panic "makeslice: len out of range"
            else
              match req with
              | None => Panic "invalid memory address or nil pointer dereference"
              | Some req =>
                  if (len =? 0)%Z then Panic "index out of range"
                  else
                    match read_blocks (Z.to_nat (len - 1)) b1 with
                    | ((_, Some err), b2) => Return ((None, Some err), b2, w)
                    | ((hs, None), b2) =>
                        let headers := header :: hs in
                        '(bs, err, b3, cache) ←
                          server.ReadBinaries b2 headers (binaryCache w);
                        let w := {| apps := apps w; binaryCache := cache;
                                    notes := notes w; downloads := downloads w |} in
                        match err with
                        | Some err => Return ((None, Some err), b3, w)
                        | None =>
                            Return
                              ((Some {| server.Request_Version := server.Request_Version req;
                                        server.Request_Type := server.Request_Type req;
                                        server.Request_Headers := headers;
                                        server.Request_Binaries := bs |},
                                None), b3, w)
                        end
                    end
              end
        end
  end.

(** The loop of [buildApplication] over the notification blocks
    [headers[i]], [n] of them still to come: the notifications built so far
    and the URLs handed to [go download], latest first. *)
Fixpoint buildApplication_loop (app_name app_icon : string) (headers : list server.Header)
    (n i : nat) (notifications : gmap string Notification) (urls : list string)
  : outcome ((option (gmap string Notification) * option error) * list string) :=
  match n with
  | O => Return ((Some notifications, None), urls)
  | S n' =>
      match headers !! i with
      | None => Panic "index out of range"
      | Some noteHeader =>
          '(name, ok) ← server.Get noteHeader "Notification-Name";
          if negb ok || String.eqb name EmptyString
          then Return ((None, Some (GntpError_value
                                      (server.MissingHeaderError "Notification-Name"))), urls)
          else
            match notifications !! name with
            | Some _ =>
                Return ((None, Some (GntpError_value
                                       (server.InvalidRequestError
                                          ("Duplicate notification registered: " +:+ name)))),
                        urls)
            | None =>
                '(display, ok) ← server.Get noteHeader "Notification-Display";
                let display :=
                  if negb ok || String.eqb display EmptyString then name else display in
                '(enabled, _) ← server.Get noteHeader "Notification-Enabled";
                '(icon, ok) ← server.Get noteHeader "Notification-Icon";
                let note_icon := if (ok : bool) then icon else app_icon in
                let urls :=
                  if ok && negb (String.eqb icon EmptyString) && negb (is_resource icon)
                  then icon :: urls else urls in
                let note :=
                  {| App := app_name; Name := name; Display := display;
                     Enabled := (strconv.ParseBool enabled).1; Icon := note_icon;
                     Id := EmptyString; Title := EmptyString; Text := EmptyString;
                     Sticky := false; Priority := 0; Coalescing := EmptyString |} in
                buildApplication_loop app_name app_icon headers n' (S i)
                  (<[name := note]> notifications) urls
            end
      end
  end.

(** [buildApplication].  The loop runs while [i < app.Count+1]; the sum is
    an [int] and wraps around for the largest count, for which the loop does
    not run at all. *)
Definition buildApplication (headers : list server.Header)
  : outcome ((option Application * option error) * list string) :=
  match headers with
  | [] => Panic "index out of range"
  | appHeader :: _ =>
      '(name, ok) ← server.Get appHeader "Application-Name";
      if negb ok || String.eqb name EmptyString
      then Return ((None, Some (GntpError_value
                                  (server.MissingHeaderError "Application-Name"))), [])
      else
        '(count, ok) ← server.Get appHeader "Notifications-Count";
        if negb ok || String.eqb count EmptyString
        then Return ((None, Some (GntpError_value
                                    (server.MissingHeaderError "Notifications-Count"))), [])
        else
          match strconv.Atoi count with
          | (app_count, err) =>
              if bool_decide (is_Some err) || (app_count <? 0)%Z
              then Return ((None, Some (GntpError_value
                                          (server.InvalidRequestError
                                             "notification count must be a non-negative integer"))),
                           [])
              else
                '(icon, _) ← server.Get appHeader "Application-Icon";
                let urls :=
                  if negb (String.eqb icon EmptyString) && negb (is_resource icon)
                  then [icon] else [] in
                '(notifications, err, urls) ←
                  buildApplication_loop name icon headers
                    (Z.to_nat (server.int (app_count + 1) - 1)) 1 ∅ urls;
                match err, notifications with
                | Some err, _ => Return ((None, Some err), urls)
                | None, None => Panic "invalid memory address or nil pointer dereference"
                | None, Some notifications =>
                    Return ((Some {| Application_Name := name;
                                     Application_Icon := icon;
                                     Count := app_count;
                                     Notifications := notifications |}, None), urls)
                end
          end
  end.

(** [RegisterHandler.Respond]. *)
Definition RegisterHandler_Respond (req : option server.Request) (w : World)
  : outcome ((option server.Response * option error) * World) :=
  let resp := server.NewResponse 1 0 in
  match req with
  | None => Panic "invalid memory address or nil pointer dereference"
  | Some req =>
      let v := server.Request_Version req in
      if negb (server.Major v =? 1)%Z && negb (server.Minor v =? 0)%Z
      then Return ((None, Some (GntpError_value (server.UnknownProtocolVersionError v))), w)
      else
        '(app, err, urls) ← buildApplication (server.Request_Headers req);
        let w := {| apps := apps w; binaryCache := binaryCache w;
                    notes := notes w; downloads := urls ++ downloads w |} in
        match err, app with
        | Some err, _ => Return ((None, Some err), w)
        | None, None => Panic "invalid memory address or nil pointer dereference"
        | None, Some app =>
            let w := {| apps := Applications_Add (apps w) app;
                        binaryCache := binaryCache w;
                        notes := notes w; downloads := downloads w |} in
            let resp :=
              {| server.Response_Version := server.Response_Version resp;
                 server.Response_Type := server.Response_Type resp;
                 server.Response_Headers :=
                   [server.Set_ server.NewHeader "Response-Action" "REGISTER"];
                 server.Response_Binaries := server.Response_Binaries resp |} in
            Return ((Some resp, None), w)
        end
  end.

Definition RegisterHandler : server.Handler World :=
  {| server.Handler_Parse := RegisterHandler_Parse;
     server.Handler_Respond := RegisterHandler_Respond |}.
End Main.

End main.

(** ** Vocabulary of the specification *)

(** A non-empty string of decimal digits, and the number it denotes when
    read after the digits of [n]. *)
Definition digits (d : string) : Prop :=
  d ≠ EmptyString ∧ str_forallb is_digit d = true.

Fixpoint decimal_from (n : Z) (d : string) : Z :=
  match d with
  | EmptyString => n
  | String c d' => decimal_from (n * 10 + (byte_val c - 48)) d'
  end.

Definition decimal (d : string) : Z := decimal_from 0 d.

(** [c] does not occur in [s]. *)
Definition absent (c : ascii) (s : string) : bool :=
  str_forallb (λ a, negb (byte_eqb a c)) s.

(** What may follow the digits that a number reads. *)
Definition stops (rest : string) : Prop :=
  match rest with
  | EmptyString => True
  | String c _ => is_digit c = false
  end.

(** The protocol token [GNTP/<int>.<int>]. *)
Definition version_token (d1 d2 : string) : string :=
  ("GNTP/" +:+ d1 +:+ "." +:+ d2)%string.

Definition version_syntax (token : string) : Prop :=
  ∃ d1 d2, digits d1 ∧ digits d2 ∧ token = version_token d1 d2.

(** No line feed and no carriage return in [s]. *)
Definition no_newline (s : string) : bool :=
  str_forallb (λ c, negb (byte_eqb c LF) && negb (byte_eqb c CR)) s.

(** The lines [Key: Value] of a header block on the wire, each with its line
    end, one after the other. *)
Fixpoint wire_lines (lines : list (string * string)) : string :=
  match lines with
  | [] => EmptyString
  | (k, v) :: rest => (k +:+ ": " +:+ v +:+ CRLF +:+ wire_lines rest)%string
  end.

(** The lines that [Write] emits for the entries, in their order. *)
Definition emitted (entries : list (string * list string)) : list (string * string) :=
  entries ≫= λ '(k, vs), (λ v, (k, server.Write_value v)) <$> vs.

(** A header field name as RFC 7230 has it: a non-empty token. *)
Definition field_name (k : string) : Prop :=
  k ≠ EmptyString ∧ str_forallb textproto.validHeaderFieldByte k = true.

(** [s] starts with a white space rune; with [rv], [s] is a string held in
    reverse and the test is for the rune that it ends with. *)
Definition leading_space (rv : bool) (s : string) : bool :=
  match s with
  | EmptyString => false
  | String c1 s1 =>
      strings.is_space1 c1
      || match s1 with
         | EmptyString => false
         | String c2 s2 =>
             (if rv then strings.is_space2 c2 c1 else strings.is_space2 c1 c2)
             || match s2 with
                | EmptyString => false
                | String c3 _ =>
                    if rv then strings.is_space3 c3 c2 c1 else strings.is_space3 c1 c2 c3
                end
         end
  end.

(** A header field value that can go on the wire as it is: bytes that are
    valid in a field value, hence no line feed, carriage return or other
    control byte but the tab, and no white space at either end. *)
Definition field_value (v : string) : Prop :=
  str_forallb textproto.validHeaderValueByte v = true
  ∧ leading_space false v = false
  ∧ leading_space true (str_rev v) = false.

(** The header block that a sequence of [Add] calls builds. *)
Definition added (adds : list (string * string)) : server.Header :=
  foldl (λ h kv, server.Add h kv.1 kv.2) server.NewHeader adds.

(** The values added under a key of the map, in the order of the calls. *)
Definition values_for (K : string) (adds : list (string * string)) : list string :=
  (filter (λ kv, textproto.CanonicalMIMEHeaderKey kv.1 = K) adds).*2.

(** One step of the canonicalization loop. *)
Definition canon_byte (upper : bool) (c : ascii) : ascii :=
  if upper && is_lower c then byte_of (byte_val c - textproto.toLower)
  else if negb upper && is_upper c then byte_of (byte_val c + textproto.toLower)
  else c.

(** A canonical field name: a field name that canonicalization leaves as it
    is. *)
Definition canonical_name (k : string) : Prop :=
  field_name k ∧ textproto.canon_loop true k = k.

(** What reading one line [key: value] does to the map read so far. *)
Definition add_line (m : server.Header) (kv : string * string) : server.Header :=
  <[kv.1 := default [] (m !! kv.1) ++ [kv.2]]> m.

(** The lines of a list of entries, key by key, as they are stored. *)
Definition stored_lines (entries : list (string * list string)) : list (string * string) :=
  entries ≫= λ '(k, vs), (λ v, (k, v)) <$> vs.

(** [s] does not start with a space or a tab: it is not a continuation
    line. *)
Definition no_lead (s : string) : bool :=
  match s with
  | EmptyString => true
  | String c _ => negb (byte_eqb c SP || byte_eqb c HT)
  end.

(** A line [key: value] as the header loop sees it, trimmed. *)
Definition trimmed_line (k v : string) : string :=
  match v with
  | EmptyString => (k +:+ ":")%string
  | _ => (k +:+ ": " +:+ v)%string
  end.

(** A value with no line feed or carriage return and no white space at
    either end. *)
Definition plain_value (v : string) : Prop :=
  no_newline v = true
  ∧ leading_space false v = false
  ∧ leading_space true (str_rev v) = false.


(** ** More vocabulary *)

From Stdlib Require Import DecimalPos.

(** [s] with its ASCII upper case letters in lower case: two field names
    that differ in case only have the same fold. *)
Definition lower_byte (c : ascii) : ascii :=
  if is_upper c then byte_of (byte_val c + 32) else c.

Definition fold_case (s : string) : string := str_map lower_byte s.

(** An end of line as the binary reader takes it: a line feed, with or
    without a carriage return before it. *)
Definition line_end (t : string) : Prop :=
  t = String LF EmptyString ∨ t = CRLF.

(** The entry of the result map for a binary section. *)
Definition binary_entry (ident : string) (len : Z) : server.Binary :=
  {| server.Ident := ident; server.Length := len; server.Data := EmptyString |}.

(** The bytes after the data of a binary section stop inside the two ends
    of line. *)
Definition cut_short (b : string) : Prop :=
  ∃ pre, (pre = EmptyString ∨ line_end pre)
         ∧ (b = pre ∨ b = (pre +:+ String CR EmptyString)%string).

(** The bytes after the data of a binary section are not two ends of line:
    after at most one end of line comes a byte that is neither a carriage
    return nor a line feed, or a carriage return and a byte that is not a
    line feed; [rest] is what follows that byte. *)
Definition garbled (b rest : string) : Prop :=
  ∃ pre c, (pre = EmptyString ∨ line_end pre)
           ∧ ((c ≠ CR ∧ c ≠ LF ∧ b = (pre +:+ String c rest)%string)
              ∨ (c ≠ LF ∧ b = (pre +:+ String CR (String c rest))%string)).

(** Every entry of a map of binaries sits under its own identifier and has
    no data. *)
Definition keyed (bs : gmap string server.Binary) : Prop :=
  ∀ id binary, bs !! id = Some binary →
    server.Ident binary = id ∧ server.Data binary = EmptyString.

(** Every key of a header block is a non-empty string with at least one
    value, and every value is made of bytes that are valid in a field value
    and does not start with a space or a tab. *)
Definition read_value (v : string) : Prop :=
  str_forallb textproto.validHeaderValueByte v = true ∧ no_lead v = true.

Definition well_read (m : server.Header) : Prop :=
  ∀ k vs, m !! k = Some vs →
    k ≠ EmptyString ∧ vs ≠ [] ∧ Forall read_value vs.

(** The notification type that a REGISTER for the application [app_name]
    with the icon [app_icon] keeps for the block [h]. *)
Definition registered_as (app_name app_icon : string) (h : server.Header)
    (note : main.Notification) : Prop :=
  main.App note = app_name
  ∧ server.Get h "Notification-Name" = Return (main.Name note, true)
  ∧ main.Name note ≠ EmptyString
  ∧ (∀ v ok, server.Get h "Notification-Display" = Return (v, ok) →
       main.Display note
       = if negb ok || String.eqb v EmptyString then main.Name note else v)
  ∧ (∀ v ok, server.Get h "Notification-Enabled" = Return (v, ok) →
       main.Enabled note = (strconv.ParseBool v).1)
  ∧ (∀ v ok, server.Get h "Notification-Icon" = Return (v, ok) →
       main.Icon note = if (ok : bool) then v else app_icon)
  ∧ main.Id note = EmptyString ∧ main.Title note = EmptyString
  ∧ main.Text note = EmptyString ∧ main.Sticky note = false
  ∧ main.Priority note = 0%Z ∧ main.Coalescing note = EmptyString.

(** The response of a handler to a request it accepts. *)
Definition OK_response (action : string) : server.Response :=
  {| server.Response_Version := {| server.Major := 1; server.Minor := 0 |};
     server.Response_Type := "OK";
     server.Response_Headers := [server.Set_ server.NewHeader "Response-Action" action];
     server.Response_Binaries := ∅ |}.

(** The pause after the [k]-th temporary error in a row, counted from 0:
    5 ms doubled [k] times, and no more than a second. *)
Definition nth_delay (k : nat) : Z :=
  Z.min (5 * server.Millisecond * 2 ^ Z.of_nat k) server.Second.

(** The connections among the results of [Accept]. *)
Definition connections {Conn : Type} (calls : list (server.accepted Conn)) : list Conn :=
  omap (λ c, match c with server.Accept_conn rw => Some rw | _ => None end) calls.

(** No result is an error that is not temporary. *)
Definition no_fatal {Conn : Type} (calls : list (server.accepted Conn)) : Prop :=
  Forall (λ c, match c with server.Accept_error _ _ => False | _ => True end) calls.

(** A stored value with every line feed and every carriage return replaced
    by one space. *)
Definition replaced (v : string) : string :=
  str_map (λ c, if bool_decide (c = LF ∨ c = CR) then SP else c) v.

(** A string made of white space only: a sequence of the UTF-8 encodings
    of White_Space code points. *)
Inductive all_space : string → Prop :=
| all_space_nil : all_space EmptyString
| all_space_1 (c1 : ascii) (s : string) :
    strings.is_space1 c1 = true → all_space s → all_space (String c1 s)
| all_space_2 (c1 c2 : ascii) (s : string) :
    strings.is_space2 c1 c2 = true → all_space s → all_space (String c1 (String c2 s))
| all_space_3 (c1 c2 c3 : ascii) (s : string) :
    strings.is_space3 c1 c2 c3 = true → all_space s →
    all_space (String c1 (String c2 (String c3 s))).

(** [t] is [s] trimmed of white space at both ends: [s] is [t] with white
    space, and nothing else, before and after it, and [t] neither starts
    nor ends with white space. *)
Definition trimmed_of (s t : string) : Prop :=
  (∃ pre post, s = (pre +:+ t +:+ post)%string ∧ all_space pre ∧ all_space post)
  ∧ leading_space false t = false
  ∧ leading_space true (str_rev t) = false.
(** ** Requests and stores used as examples *)

(** A store that panics on every use. *)
Definition no_store : server.Binaries unit :=
  {| server.Binaries_Add := λ _ _ _ _, Panic "Add called";
     server.Binaries_Get := λ _ _, (EmptyString, None);
     server.Binaries_Exists := λ _ _, false |}.

Definition line (s : string) : string := (s +:+ CRLF)%string.

(** A NOTIFY for the application Baz, which nobody registered. *)
Definition notify_Baz : string :=
  (line "GNTP/1.0 NOTIFY NONE" +:+ line "Application-Name: Baz"
   +:+ line "Notification-Name: Bar" +:+ line "Notification-Title: Hello"
   +:+ CRLF)%string.

(** The application Foo with its notification Bar, as a REGISTER leaves it. *)
Definition app_Foo : main.Application :=
  {| main.Application_Name := "Foo";
     main.Application_Icon := EmptyString;
     main.Count := 1;
     main.Notifications :=
       {[ "Bar" := {| main.App := "Foo"; main.Name := "Bar"; main.Display := "Bar";
                      main.Enabled := true; main.Icon := EmptyString;
                      main.Id := EmptyString; main.Title := EmptyString;
                      main.Text := EmptyString; main.Sticky := false;
                      main.Priority := 0; main.Coalescing := EmptyString |} ]} |}.

Definition world_Foo : main.World :=
  {| main.apps := main.Applications_Add main.NewApplications app_Foo;
     main.binaryCache := main.NewFileCache "/cache" ∅;
     main.notes := [];
     main.downloads := [] |}.

(** A header block whose icon names an embedded resource with the prefix in
    another case, and the binary section that a client sends for it. *)
Definition icon_header : server.Header :=
  {[ "Application-Name" := ["Foo"];
     "Application-Icon" := ["X-Growl-Resource://icon"] ]}.

Definition icon_section : string :=
  (line "Identifier: icon" +:+ line "Length: 3" +:+ CRLF +:+ "PNG" +:+ CRLF +:+ CRLF)%string.

(** The request that the NOTIFY for Baz parses to. *)
Definition notify_Baz_request : server.Request :=
  {| server.Request_Version := {| server.Major := 1; server.Minor := 0 |};
     server.Request_Type := "NOTIFY";
     server.Request_Headers :=
       [ {[ "Application-Name" := ["Baz"];
            "Notification-Name" := ["Bar"];
            "Notification-Title" := ["Hello"] ]} ];
     server.Request_Binaries := ∅ |}.

(** A file cache under [/cache] on an empty disk that takes every write, on
    a 64-bit Linux. *)
Definition join_slash (dir key : string) : string := (dir +:+ "/" +:+ key)%string.

Definition linux_maxAlloc : Z := 2 ^ 48.

Definition cache_store : server.Binaries main.FileCache :=
  main.FileCache_Binaries join_slash (λ _, None) linux_maxAlloc.

Definition empty_cache : main.FileCache := main.NewFileCache "/cache" ∅.

(** A binary section that announces the largest [int64] and carries three
    bytes. *)
Definition huge_section : string :=
  (line "Identifier: icon" +:+ line "Length: 9223372036854775807" +:+ CRLF +:+ "PNG")%string.

(** A binary section that announces five bytes and carries three. *)
Definition short_section : string :=
  (line "Identifier: icon" +:+ line "Length: 5" +:+ CRLF +:+ "PNG")%string.

(** A header block whose text runs over two lines. *)
Definition two_line_text : string := ("one" +:+ CRLF +:+ "two" +:+ String LF " ")%string.

Definition text_header : server.Header := {[ "Notification-Text" := [two_line_text] ]}.

(** Two values added under one key, spelled in two ways. *)
Definition name_adds : list (string * string) :=
  [("notification-name", "Bar"); ("NOTIFICATION-NAME", "Baz")].

(** A key with a colon in it, and a value with a control byte in it. *)
Definition colon_adds : list (string * string) := [("a:b", "v")].

Definition control_value : string := String "a" (String (byte_of 1) "b").

Definition control_adds : list (string * string) := [("Key", control_value)].


(** ** More examples *)

(** One reference to a resource. *)
Definition one_reference : list server.Header :=
  [ {[ "Application-Icon" := ["x-growl-resource://icon"] ]} ].

(** Binary sections with a faulty mini-header. *)
Definition section_no_identifier : string := (line "Length: 3" +:+ CRLF +:+ "PNG")%string.
Definition section_no_length : string := (line "Identifier: icon" +:+ CRLF +:+ "PNG")%string.
Definition section_bad_length : string :=
  (line "Identifier: icon" +:+ line "Length: three" +:+ CRLF +:+ "PNG")%string.

(** A binary section whose data is followed by an end of line and a
    letter. *)
Definition section_garbled : string :=
  (line "Identifier: icon" +:+ line "Length: 3" +:+ CRLF +:+ "PNG" +:+ CRLF +:+ "x-rest")%string.

(** A store that takes the announced number of bytes and keeps nothing. *)
Definition skip_store : server.Binaries unit :=
  {| server.Binaries_Add := λ _ _ len r,
       let '((_, err), r1) := io.ReadFull r (Z.to_nat len) in Return (err, r1, tt);
     server.Binaries_Get := λ _ _, (EmptyString, None);
     server.Binaries_Exists := λ _ _, false |}.

(** A cache that already holds a file for the key [icon]. *)
Definition cache_with_icon : main.FileCache :=
  main.NewFileCache "/cache" {[ "/cache/icon" := main.File "OLD" ]}.

(** The blocks of a REGISTER for the application Foo with its notification
    Bar, and the request that the multiplexer hands to the handler. *)
Definition register_Foo_blocks : string :=
  (line "Application-Name: Foo" +:+ line "Notifications-Count: 1" +:+ CRLF
   +:+ line "Notification-Name: Bar" +:+ line "Notification-Enabled: True" +:+ CRLF)%string.

Definition register_directive : server.Request :=
  {| server.Request_Version := {| server.Major := 1; server.Minor := 0 |};
     server.Request_Type := "REGISTER";
     server.Request_Headers := [];
     server.Request_Binaries := ∅ |}.

Definition empty_world : main.World :=
  {| main.apps := main.NewApplications;
     main.binaryCache := empty_cache;
     main.notes := [];
     main.downloads := [] |}.

(** A REGISTER that announces a negative number of notifications. *)
Definition register_negative_blocks : string :=
  (line "Application-Name: Foo" +:+ line "Notifications-Count: -1" +:+ CRLF)%string.

(** The request that the REGISTER for Foo parses to. *)
Definition register_Foo_request : server.Request :=
  {| server.Request_Version := {| server.Major := 1; server.Minor := 0 |};
     server.Request_Type := "REGISTER";
     server.Request_Headers :=
       [ {[ "Application-Name" := ["Foo"]; "Notifications-Count" := ["1"] ]};
         {[ "Notification-Name" := ["Bar"]; "Notification-Enabled" := ["True"] ]} ];
     server.Request_Binaries := ∅ |}.

(** The block of a NOTIFY for the notification Bar of Foo, the request that
    the multiplexer hands to the handler, the request that the block parses
    to and the notification that is handed on. *)
Definition notify_Foo_blocks : string :=
  (line "Application-Name: Foo" +:+ line "Notification-Name: Bar"
   +:+ line "Notification-Title: Hello" +:+ CRLF)%string.

Definition notify_directive : server.Request :=
  {| server.Request_Version := {| server.Major := 1; server.Minor := 0 |};
     server.Request_Type := "NOTIFY";
     server.Request_Headers := [];
     server.Request_Binaries := ∅ |}.

Definition notify_Foo_header : server.Header :=
  {[ "Application-Name" := ["Foo"];
     "Notification-Name" := ["Bar"];
     "Notification-Title" := ["Hello"] ]}.

Definition notify_Foo_request : server.Request :=
  {| server.Request_Version := {| server.Major := 1; server.Minor := 0 |};
     server.Request_Type := "NOTIFY";
     server.Request_Headers := [notify_Foo_header];
     server.Request_Binaries := ∅ |}.

Definition note_Hello : main.Notification :=
  {| main.App := "Foo"; main.Name := "Bar"; main.Display := EmptyString;
     main.Enabled := true; main.Icon := EmptyString;
     main.Id := EmptyString; main.Title := "Hello";
     main.Text := EmptyString; main.Sticky := false;
     main.Priority := 0; main.Coalescing := EmptyString |}.

(** The multiplexer with the two handlers of the program over that cache,
    with the letters of ASCII for [strings.ToLower], and the REGISTER for
    Foo as it comes over the connection. *)
Definition handlers_mux : server.ServeMux main.World :=
  {| server.m :=
       {[ "REGISTER" := main.RegisterHandler join_slash (λ _, None) linux_maxAlloc fold_case;
          "NOTIFY" := main.NotifyHandler join_slash (λ _, None) linux_maxAlloc fold_case ]} |}.

Definition register_Foo : string :=
  (line "GNTP/1.0 REGISTER NONE" +:+ register_Foo_blocks)%string.

(** A REGISTER for Foo that names the notification Bar twice, and the
    request it parses to. *)
Definition register_twice_blocks : string :=
  (line "Application-Name: Foo" +:+ line "Notifications-Count: 2" +:+ CRLF
   +:+ line "Notification-Name: Bar" +:+ CRLF
   +:+ line "Notification-Name: Bar" +:+ CRLF)%string.

Definition register_twice_request : server.Request :=
  {| server.Request_Version := {| server.Major := 1; server.Minor := 0 |};
     server.Request_Type := "REGISTER";
     server.Request_Headers :=
       [ {[ "Application-Name" := ["Foo"]; "Notifications-Count" := ["2"] ]};
         {[ "Notification-Name" := ["Bar"] ]};
         {[ "Notification-Name" := ["Bar"] ]} ];
     server.Request_Binaries := ∅ |}.

(** A cache under which the key [icons] names a directory. *)
Definition cache_with_directory : main.FileCache :=
  main.NewFileCache "/cache" {[ "/cache/icons" := main.Directory 4096 ]}.

(** A REGISTER request for Foo whose only block announces the largest
    [int] of notifications, and the application that it registers. *)
Definition register_max_request : server.Request :=
  {| server.Request_Version := {| server.Major := 1; server.Minor := 0 |};
     server.Request_Type := "REGISTER";
     server.Request_Headers :=
       [ {[ "Application-Name" := ["Foo"];
            "Notifications-Count" := ["9223372036854775807"] ]} ];
     server.Request_Binaries := ∅ |}.

Definition world_Foo_max : main.World :=
  {| main.apps :=
       main.Applications_Add main.NewApplications
         {| main.Application_Name := "Foo";
            main.Application_Icon := EmptyString;
            main.Count := 9223372036854775807;
            main.Notifications := ∅ |};
     main.binaryCache := empty_cache;
     main.notes := [];
     main.downloads := [] |}.
(** * Properties *)

(** ** Sanity checks of the library models *)

Example SplitN_directive :
  strings.SplitN "GNTP/1.0 NOTIFY NONE" SP 3 = ["GNTP/1.0"; "NOTIFY"; "NONE"].
Proof. reflexivity. Qed.

Example SplitN_keeps_remainder :
  strings.SplitN "a b c d" SP 3 = ["a"; "b"; "c d"].
Proof. reflexivity. Qed.

Example SplitN_empty : strings.SplitN "" SP 3 = [""].
Proof. reflexivity. Qed.

Example TrimSpace_ex : strings.TrimSpace "  a b   " = "a b".
Proof. reflexivity. Qed.

Example Itoa_400 : strconv.Itoa 400 = "400".
Proof. reflexivity. Qed.

Example Itoa_0 : strconv.Itoa 0 = "0".
Proof. reflexivity. Qed.

Example Itoa_neg : strconv.Itoa (-17) = "-17".
Proof. reflexivity. Qed.

Example ParseInt_ok : strconv.ParseInt "1024" = (1024%Z, None).
Proof. reflexivity. Qed.

Example ParseInt_neg : strconv.ParseInt "-5" = ((-5)%Z, None).
Proof. reflexivity. Qed.

Example ParseInt_min :
  strconv.ParseInt "-9223372036854775808" = ((- 2 ^ 63)%Z, None).
Proof. reflexivity. Qed.

Example ParseInt_range :
  strconv.ParseInt "9223372036854775808" = ((2 ^ 63 - 1)%Z, Some strconv.ErrRange).
Proof. reflexivity. Qed.

Example ParseInt_syntax : strconv.ParseInt "12a" = (0%Z, Some strconv.ErrSyntax).
Proof. reflexivity. Qed.

Example ReadLine_crlf :
  bufio.ReadLine (String "a" (String CR (String LF "rest"))) = (("a", None), "rest").
Proof. reflexivity. Qed.

Example ReadLine_last : bufio.ReadLine "tail" = (("tail", None), "").
Proof. reflexivity. Qed.

Example ReadFull_short : io.ReadFull "abc" 5 = (("abc", Some io_ErrUnexpectedEOF), "").
Proof. reflexivity. Qed.

Example ReadFull_exact : io.ReadFull "abcde" 3 = (("abc", None), "de").
Proof. reflexivity. Qed.

Example ReadFull_zero : io.ReadFull "" 0 = (("", None), "").
Proof. reflexivity. Qed.

Example CanonicalMIMEHeaderKey_ex :
  textproto.CanonicalMIMEHeaderKey "notification-NAME" = "Notification-Name".
Proof. reflexivity. Qed.

Example CanonicalMIMEHeaderKey_invalid :
  textproto.CanonicalMIMEHeaderKey "a:b" = "a:b".
Proof. reflexivity. Qed.

Example CanonicalMIMEHeaderKey_space :
  textproto.CanonicalMIMEHeaderKey "my key" = "my key".
Proof. reflexivity. Qed.

Example ReadMIMEHeader_ex :
  textproto.ReadMIMEHeader
    ("Identifier: abc" +:+ CRLF +:+ "length:  3" +:+ CRLF +:+ CRLF +:+ "xyz")
  = (({[ "Identifier" := ["abc"]; "Length" := ["3"] ]}, None), "xyz").
Proof. vm_compute. reflexivity. Qed.

Example ReadMIMEHeader_folded :
  textproto.ReadMIMEHeader
    ("A: b" +:+ CRLF +:+ "   c" +:+ CRLF +:+ "A: d" +:+ CRLF +:+ CRLF)
  = (({[ "A" := ["b c"; "d"] ]}, None), "").
Proof. vm_compute. reflexivity. Qed.

Example ReadMIMEHeader_eof : textproto.ReadMIMEHeader "" = ((∅, Some io_EOF), "").
Proof. reflexivity. Qed.


(** ** Strings *)

Lemma str_app_nil_r (s : string) : (s +:+ "")%string = s.
Proof. induction s as [|c s IH]; simpl; [done | by rewrite IH]. Qed.

Lemma str_app_assoc (a b c : string) :
  ((a +:+ b) +:+ c)%string = (a +:+ (b +:+ c))%string.
Proof. induction a as [|x a IH]; simpl; [done | by rewrite IH]. Qed.

Lemma str_length_app (a b : string) :
  String.length (a +:+ b) = String.length a + String.length b.
Proof. induction a as [|x a IH]; simpl; [done | by rewrite IH]. Qed.

Lemma str_drop_app (a b : string) : str_drop (String.length a) (a +:+ b) = b.
Proof. induction a as [|x a IH]; simpl; [by destruct b | done]. Qed.

Lemma str_drop_app_plus (n : nat) (a b : string) :
  str_drop (String.length a + n) (a +:+ b) = str_drop n b.
Proof. induction a as [|x a IH]; simpl; done. Qed.

Lemma str_take_app (a b : string) : str_take (String.length a) (a +:+ b) = a.
Proof. induction a as [|x a IH]; simpl; [by destruct b | by rewrite IH]. Qed.

Lemma str_take_drop (n : nat) (s : string) : (str_take n s +:+ str_drop n s)%string = s.
Proof.
  revert s. induction n as [|n IH]; intros [|c s]; simpl; try done.
  by rewrite IH.
Qed.

Lemma str_length_drop (n : nat) (s : string) :
  String.length (str_drop n s) = String.length s - n.
Proof. revert s. induction n as [|n IH]; intros [|c s]; simpl; try done; lia. Qed.

Lemma str_get_app_r (a b : string) (i : nat) :
  String.get (String.length a + i) (a +:+ b) = String.get i b.
Proof. induction a as [|x a IH]; simpl; done. Qed.

Lemma str_get_drop (n : nat) (s : string) : String.get n s = String.get 0 (str_drop n s).
Proof.
  revert s. induction n as [|n IH]; intros [|c s]; simpl; try done.
Qed.

Lemma str_drop_drop (n k : nat) (s : string) :
  str_drop k (str_drop n s) = str_drop (n + k) s.
Proof.
  revert s. induction n as [|n IH]; intros s; simpl; [done|].
  destruct s as [|c s]; [by destruct k | apply IH].
Qed.

Lemma str_drop_all (n : nat) (s : string) :
  String.length s ≤ n → str_drop n s = EmptyString.
Proof.
  revert s. induction n as [|n IH]; intros [|c s]; simpl; try done; try lia.
  intros. apply IH. lia.
Qed.

Lemma str_rev_app_spec (s acc : string) :
  str_rev_app s acc = (str_rev s +:+ acc)%string.
Proof.
  unfold str_rev. revert acc. induction s as [|c s IH]; intros acc; simpl; [done|].
  rewrite IH, (IH (String c "")), str_app_assoc. done.
Qed.

Lemma str_rev_cons (c : ascii) (s : string) :
  str_rev (String c s) = (str_rev s +:+ String c "")%string.
Proof. unfold str_rev at 1. simpl. apply str_rev_app_spec. Qed.

Lemma str_rev_snoc (c : ascii) (s : string) :
  str_rev (s +:+ String c "") = String c (str_rev s).
Proof.
  induction s as [|x s IH]; [done|].
  simpl. rewrite !str_rev_cons, IH. done.
Qed.

Lemma str_rev_involutive (s : string) : str_rev (str_rev s) = s.
Proof.
  induction s as [|c s IH]; [done|].
  by rewrite str_rev_cons, str_rev_snoc, IH.
Qed.

Lemma str_rev_app_distr (a b : string) :
  str_rev (a +:+ b) = (str_rev b +:+ str_rev a)%string.
Proof.
  induction a as [|x a IH]; simpl.
  - by rewrite str_app_nil_r.
  - by rewrite !str_rev_cons, IH, str_app_assoc.
Qed.

Lemma str_forallb_app (p : ascii → bool) (a b : string) :
  str_forallb p (a +:+ b) = str_forallb p a && str_forallb p b.
Proof. induction a as [|x a IH]; simpl; [done|]. by rewrite IH, andb_assoc. Qed.

Lemma str_forallb_rev (p : ascii → bool) (s : string) :
  str_forallb p (str_rev s) = str_forallb p s.
Proof.
  induction s as [|c s IH]; [done|].
  rewrite str_rev_cons, str_forallb_app, IH. simpl.
  rewrite andb_true_r. apply andb_comm.
Qed.

Lemma str_forallb_impl (p q : ascii → bool) (s : string) :
  (∀ c, p c = true → q c = true) →
  str_forallb p s = true → str_forallb q s = true.
Proof.
  intros Hpq. induction s as [|c s IH]; simpl; [done|].
  intros [Hc Hs]%andb_true_iff. rewrite Hpq, IH; done.
Qed.

Lemma byte_eqb_eq (a b : ascii) : byte_eqb a b = true ↔ a = b.
Proof. apply Ascii.eqb_eq. Qed.

Lemma byte_eqb_refl (a : ascii) : byte_eqb a a = true.
Proof. apply Ascii.eqb_refl. Qed.

Lemma str_cut_app (c : ascii) (l r : string) :
  absent c l = true → str_cut c (l +:+ String c r) = Some (l, r).
Proof.
  unfold absent. induction l as [|a l IH]; simpl.
  - by rewrite byte_eqb_refl.
  - intros [Ha Hl]%andb_true_iff. apply negb_true_iff in Ha.
    by rewrite Ha, IH.
Qed.

Lemma str_cut_absent (c : ascii) (s : string) :
  absent c s = true → str_cut c s = None.
Proof.
  unfold absent. induction s as [|a s IH]; simpl; [done|].
  intros [Ha Hs]%andb_true_iff. apply negb_true_iff in Ha.
  by rewrite Ha, IH.
Qed.

Lemma str_cut_Some (c : ascii) (s l r : string) :
  str_cut c s = Some (l, r) → s = (l +:+ String c r)%string ∧ absent c l = true.
Proof.
  unfold absent. revert l. induction s as [|a s IH]; intros l; simpl; [done|].
  destruct (byte_eqb a c) eqn:Hac.
  - intros [= <- <-]. apply byte_eqb_eq in Hac as ->. done.
  - destruct (str_cut c s) as [[l' r']|]; [|done].
    intros [= <- <-]. destruct (IH l' eq_refl) as [-> Hl].
    simpl. by rewrite Hac, Hl.
Qed.

Lemma str_cut_None (c : ascii) (s : string) :
  str_cut c s = None → absent c s = true.
Proof.
  unfold absent. induction s as [|a s IH]; simpl; [done|].
  destruct (byte_eqb a c) eqn:Hac; [done|].
  destruct (str_cut c s) as [[l' r']|]; [done|]. auto.
Qed.

(** ** The dispatch table *)

Section Register.
Context {St : Type}.
Implicit Types (mux : server.ServeMux St) (h : server.Handler St) (t : string).

Lemma Register_fresh mux t h :
  server.m mux !! t = None →
  server.Register mux t h = Return {| server.m := <[t := h]> (server.m mux) |}.
Proof. intros Hfree. unfold server.Register. by rewrite Hfree. Qed.

Lemma Register_taken mux t h :
  is_Some (server.m mux !! t) →
  server.Register mux t h = Panic ("gntp: multiple registrations for " +:+ t).
Proof. intros [h0 Hh0]. unfold server.Register. by rewrite Hh0. Qed.

Lemma handler_registered mux t h :
  server.m mux !! t = Some h → server.handler mux t = h.
Proof. intros Hh. unfold server.handler. by rewrite Hh. Qed.

(** C6: [Register(t, h)] panics exactly when a handler for [t] is already
    registered.  When it returns, a second registration for [t] panics,
    whereas a registration for another type [t'] returns a table from which
    both handlers are retrieved for dispatch, as is every handler that was
    there before. *)
Theorem Register_panics_iff_registered mux t h :
  ((∃ msg, server.Register mux t h = Panic msg) ↔ is_Some (server.m mux !! t))
  ∧ (∀ mux1, server.Register mux t h = Return mux1 →
       server.handler mux1 t = h
       ∧ (∀ h', ∃ msg, server.Register mux1 t h' = Panic msg)
       ∧ (∀ t' h', t' ≠ t →
            server.m mux !! t' = None →
            ∃ mux2, server.Register mux1 t' h' = Return mux2
                    ∧ server.handler mux2 t = h
                    ∧ server.handler mux2 t' = h'
                    ∧ ∀ t'', t'' ≠ t → t'' ≠ t' →
                        server.handler mux2 t'' = server.handler mux t'')).
Proof.
  split.
  - split.
    + intros [msg Hpanic]. unfold server.Register in Hpanic.
      destruct (server.m mux !! t) eqn:Hl; [by eexists | discriminate].
    + intros Hsome. eexists. by apply Register_taken.
  - intros mux1 Hret. unfold server.Register in Hret.
    destruct (server.m mux !! t) eqn:Hl; [discriminate|].
    injection Hret as <-. split; [|split].
    + apply handler_registered. simpl. by rewrite lookup_insert_eq.
    + intros h'. eexists. apply Register_taken. simpl.
      rewrite lookup_insert_eq. by eexists.
    + intros t' h' Hne Hfree. eexists. split.
      * apply Register_fresh. simpl. by rewrite lookup_insert_ne.
      * split; [|split].
        -- apply handler_registered. simpl.
           rewrite lookup_insert_ne by done. by rewrite lookup_insert_eq.
        -- apply handler_registered. simpl. by rewrite lookup_insert_eq.
        -- intros t'' Hne1 Hne2. unfold server.handler. simpl.
           by rewrite !lookup_insert_ne.
Qed.

End Register.

(** Two registrations on a new table, as [main] makes them. *)
Lemma Register_panics_iff_registered_witness :
  let h1 : server.Handler unit := server.UnhandledHandler "first" in
  let h2 : server.Handler unit := server.UnhandledHandler "second" in
  let mux1 := {| server.m := <["REGISTER" := h1]> ∅ |} in
  server.handler mux1 "REGISTER" = h1
  ∧ (∃ msg, server.Register mux1 "REGISTER" h2 = Panic msg)
  ∧ ∃ mux2, server.Register mux1 "NOTIFY" h2 = Return mux2
            ∧ server.handler mux2 "REGISTER" = h1
            ∧ server.handler mux2 "NOTIFY" = h2.
Proof.
  intros h1 h2 mux1.
  destruct (Register_panics_iff_registered server.NewServeMux "REGISTER" h1)
    as [_ Hret].
  destruct (Hret mux1 eq_refl) as (Hh1 & Hdup & Hother).
  split; [exact Hh1|]. split; [exact (Hdup h2)|].
  destruct (Hother "NOTIFY" h2 ltac:(discriminate) eq_refl)
    as (mux2 & Hreg & Hget1 & Hget2 & _).
  exists mux2. auto.
Defined.

(** ** The error taxonomy *)

Lemma Get_Set_eq (h : server.Header) (key value : string) :
  server.Get (server.Set_ h key value) key = Return (value, true).
Proof.
  unfold server.Get, server.Set_, textproto.Set_. by rewrite lookup_insert_eq.
Qed.

Lemma Get_Set_ne (h : server.Header) (key key' value : string) :
  textproto.CanonicalMIMEHeaderKey key ≠ textproto.CanonicalMIMEHeaderKey key' →
  server.Get (server.Set_ h key value) key' = server.Get h key'.
Proof.
  intros Hne. unfold server.Get, server.Set_, textproto.Set_.
  by rewrite lookup_insert_ne.
Qed.

(** C7: every named constructor yields the code of the table, and
    [Response] builds, from the error alone, an ERROR response for GNTP/1.0
    whose single header block holds the code as Error-Code and the
    description as Error-Description, and nothing else. *)
Theorem error_codes_and_Response :
  (∀ t, Code (server.UnknownRequestTypeError t) = 300%Z)
  ∧ (∀ info, Code (server.InvalidRequestError info) = 300%Z)
  ∧ (∀ p, Code (server.UnknownProtocolError p) = 301%Z)
  ∧ (∀ v, Code (server.UnknownProtocolVersionError v) = 302%Z)
  ∧ (∀ header, Code (server.MissingHeaderError header) = 303%Z)
  ∧ (∀ name, Code (server.UnknownApplicationError name) = 400%Z)
  ∧ (∀ app name, Code (server.UnknownNotificationError app name) = 401%Z)
  ∧ Code server.InternalServerError = 500%Z
  ∧ ∀ g : GntpError,
      ∃ header : server.Header,
        server.GntpError_Response g
        = {| server.Response_Version := {| server.Major := 1; server.Minor := 0 |};
             server.Response_Type := "ERROR";
             server.Response_Headers := [header];
             server.Response_Binaries := ∅ |}
        ∧ server.Get header "Error-Code" = Return (strconv.Itoa (Code g), true)
        ∧ server.Get header "Error-Description" = Return (Description g, true)
        ∧ header = {[ "Error-Code" := [strconv.Itoa (Code g)];
                      "Error-Description" := [Description g] ]}.
Proof.
  repeat (split; [done|]).
  intros g. eexists. split; [reflexivity|]. split; [|split].
  - apply Get_Set_eq.
  - rewrite Get_Set_ne by (vm_compute; discriminate). apply Get_Set_eq.
  - unfold server.Set_, textproto.Set_, server.NewHeader.
    change (textproto.CanonicalMIMEHeaderKey "Error-Code") with "Error-Code".
    change (textproto.CanonicalMIMEHeaderKey "Error-Description")
      with "Error-Description".
    by rewrite insert_empty.
Qed.

(** ** The binary resource reader: counting the references *)

Lemma count_values_0 (values : list string) :
  (∀ value, value ∈ values → strings.HasPrefix value server.resource_prefix = false) →
  server.count_values values = 0.
Proof.
  intros Hno. unfold server.count_values.
  induction values as [|v values IH]; [done|].
  rewrite filter_cons. destruct (decide _) as [Hv|Hv].
  - rewrite Hno in Hv by set_solver. discriminate.
  - apply IH. intros value Hin. apply Hno. set_solver.
Qed.

Lemma count_header_0 (header : server.Header) :
  (∀ k values value, header !! k = Some values → value ∈ values →
     strings.HasPrefix value server.resource_prefix = false) →
  server.count_header header = 0.
Proof.
  intros Hno. unfold server.count_header.
  assert (Hall : ∀ kv, kv ∈ map_to_list header → server.count_values kv.2 = 0).
  { intros [k values] Hin%elem_of_map_to_list. apply count_values_0. eauto. }
  induction (map_to_list header) as [|kv l IH]; [done|].
  simpl. rewrite Hall by set_solver. apply IH. intros kv' Hin. apply Hall. set_solver.
Qed.

Lemma count_references_0 (headers : list server.Header) :
  (∀ header k values value,
     header ∈ headers → header !! k = Some values → value ∈ values →
     strings.HasPrefix value server.resource_prefix = false) →
  server.count_references headers = 0.
Proof.
  intros Hno. induction headers as [|header headers IH]; [done|].
  simpl. rewrite count_header_0.
  - apply IH. intros ???? Hin. apply Hno. set_solver.
  - intros ???. apply Hno. set_solver.
Qed.

(** C9: when no header value of the request starts with the resource
    identifier, [ReadBinaries] reads no binary section: whatever bytes are
    left on the connection stay there, the store is not touched, and the
    result is an empty map with no error. *)
Theorem ReadBinaries_no_references {B : Type} `{server.Binaries B}
    (b : Reader) (headers : list server.Header) (binaries : B) :
  (∀ header k values value,
     header ∈ headers → header !! k = Some values → value ∈ values →
     strings.HasPrefix value server.resource_prefix = false) →
  server.ReadBinaries b headers binaries = Return ((∅, None), b, binaries).
Proof.
  intros Hno. unfold server.ReadBinaries.
  by rewrite count_references_0.
Qed.

Lemma ReadBinaries_no_references_witness :
  @server.ReadBinaries unit no_store "trailing bytes"
    [ {[ "Application-Name" := ["Foo"]; "Notifications-Count" := ["0"] ]} ] tt
  = Return ((∅, None), "trailing bytes", tt).
Proof.
  apply (@ReadBinaries_no_references unit no_store).
  intros header k values value ->%list_elem_of_singleton Hk Hv.
  destruct (decide (k = "Application-Name")) as [->|Hne1].
  - rewrite lookup_insert_eq in Hk. injection Hk as <-.
    apply list_elem_of_singleton in Hv as ->. reflexivity.
  - rewrite lookup_insert_ne in Hk by done.
    apply lookup_singleton_Some in Hk as [<- <-].
    apply list_elem_of_singleton in Hv as ->. reflexivity.
Defined.

(** C2: [ReadBinaries] compares the resource identifier byte for byte.  A
    value that starts with [X-Growl-Resource://] is not counted, and the
    binary section sent for it stays unread on the connection; the same
    value in lower case is counted and its section is consumed up to the
    store, which shows in the store being called. *)
Theorem ReadBinaries_prefix_case_sensitive :
  server.count_references [icon_header] = 0
  ∧ @server.ReadBinaries unit no_store icon_section [icon_header] tt
    = Return ((∅, None), icon_section, tt)
  ∧ server.count_references
      [ {[ "Application-Icon" := ["x-growl-resource://icon"] ]} ] = 1
  ∧ @server.ReadBinaries unit no_store icon_section
      [ {[ "Application-Icon" := ["x-growl-resource://icon"] ]} ] tt
    = Panic "Add called".
Proof. vm_compute. done. Qed.

(** ** The connection's serve step *)

Section serve.
Context {St : Type}.
Implicit Types (handler : server.Handler St) (mux : server.ServeMux St).

(** An error of the taxonomy out of [Parse] becomes its own response. *)
Lemma serve_Parse_GntpError handler mux reader st req ge b st' :
  server.Handler_Parse handler reader None st
  = Return ((req, Some (GntpError_value ge)), b, st') →
  server.serve (Some handler) mux reader st
  = Return (server.GntpError_Response ge, b, st').
Proof. intros HP. unfold server.serve. simpl. by rewrite HP. Qed.

(** The same error out of [Respond] does not: the assertion on the pointer
    type fails for it, and the response is the one of an internal error. *)
Lemma serve_Respond_GntpError handler mux reader st req ge b st' resp st'' :
  server.Handler_Parse handler reader None st = Return ((req, None), b, st') →
  server.Handler_Respond handler req st'
  = Return ((resp, Some (GntpError_value ge)), st'') →
  server.serve (Some handler) mux reader st
  = Return (server.GntpError_Response server.InternalServerError, b, st'').
Proof. intros HP HR. unfold server.serve. simpl. rewrite HP. simpl. by rewrite HR. Qed.

End serve.

(** C1, on the code: for the NOTIFY that names the unregistered application
    Baz, [Respond] returns [UnknownApplicationError], code 400, but the serve
    step hands the response of [InternalServerError] to the writer, whose
    Error-Code is 500. *)
Theorem serve_NOTIFY_unknown_application
    (filepath_Join : string → string → string)
    (os_Create_error : string → option error)
    (maxAlloc : Z)
    (strings_ToLower : string → string) :
  let NotifyHandler :=
    main.NotifyHandler filepath_Join os_Create_error maxAlloc strings_ToLower in
  let DefaultServeMux := {| server.m := {[ "NOTIFY" := NotifyHandler ]} |} in
  server.Parse DefaultServeMux notify_Baz None world_Foo
  = Return ((Some notify_Baz_request, None), EmptyString, world_Foo)
  ∧ server.Respond DefaultServeMux (Some notify_Baz_request) world_Foo
    = Return ((None, Some (GntpError_value (server.UnknownApplicationError "Baz"))),
              world_Foo)
  ∧ Code (server.UnknownApplicationError "Baz") = 400%Z
  ∧ server.serve None DefaultServeMux notify_Baz world_Foo
    = Return (server.GntpError_Response server.InternalServerError,
              EmptyString, world_Foo)
  ∧ ∃ header,
      server.Response_Headers (server.GntpError_Response server.InternalServerError)
      = [header]
      ∧ server.Get header "Error-Code" = Return ("500", true).
Proof.
  intros NotifyHandler DefaultServeMux.
  split; [vm_compute; reflexivity|].
  split; [vm_compute; reflexivity|].
  split; [reflexivity|].
  split; [vm_compute; reflexivity|].
  eexists. split; [reflexivity|]. vm_compute. reflexivity.
Qed.

(** ** The version token *)

Lemma int_small (z : Z) : (- 2 ^ 63 ≤ z < 2 ^ 63)%Z → server.int z = z.
Proof.
  intros Hz. unfold server.int.
  rewrite Z.mod_small by lia. lia.
Qed.

Lemma is_digit_val (c : ascii) :
  is_digit c = true → (0 ≤ byte_val c - 48 ≤ 9)%Z.
Proof. unfold is_digit. intros [?%Z.leb_le ?%Z.leb_le]%andb_true_iff. lia. Qed.

Lemma decimal_from_le (n : Z) (d : string) :
  str_forallb is_digit d = true → (0 ≤ n)%Z → (n ≤ decimal_from n d)%Z.
Proof.
  revert n. induction d as [|c d IH]; intros n; simpl; [lia|].
  intros [Hc Hd]%andb_true_iff Hn. apply is_digit_val in Hc.
  etrans; [|apply IH]; [lia | done | lia].
Qed.

Lemma atoi_loop_digits (d rest : string) (n : Z) (i : nat) :
  str_forallb is_digit d = true → stops rest → (0 ≤ n ≤ server.Big)%Z →
  server.atoi_loop (d +:+ rest) n i
  = if (decimal_from n d <=? server.Big)%Z
    then (decimal_from n d, i + String.length d, true)
    else (0%Z, 0, false).
Proof.
  revert n i. induction d as [|c d IH]; intros n i Hd Hrest Hn.
  - simpl. rewrite (proj2 (Z.leb_le _ _)) by lia.
    rewrite Nat.add_0_r. destruct rest as [|c rest]; simpl; [done|].
    simpl in Hrest. by rewrite Hrest.
  - simpl in Hd. apply andb_true_iff in Hd as [Hc Hd].
    pose proof (is_digit_val c Hc) as Hv.
    cbn [String.append server.atoi_loop decimal_from]. rewrite Hc.
    change (byte_val "0") with 48%Z.
    rewrite (Z.mod_small (byte_val c - 48) 256) by lia.
    unfold server.Big in *.
    rewrite (int_small (byte_val c - 48)) by lia.
    rewrite int_small by lia.
    destruct (1000000 <? n * 10 + (byte_val c - 48))%Z eqn:Hbig.
    + apply Z.ltb_lt in Hbig.
      pose proof (decimal_from_le (n * 10 + (byte_val c - 48)) d Hd ltac:(lia)).
      rewrite (proj2 (Z.leb_gt _ _)) by lia. done.
    + apply Z.ltb_ge in Hbig. rewrite IH by (done || lia).
      replace (S i + String.length d) with (i + S (String.length d)) by lia. done.
Qed.

Lemma atoi_digits (pre d rest : string) :
  digits d → stops rest →
  server.atoi (pre +:+ d +:+ rest) (String.length pre)
  = if (decimal d <=? server.Big)%Z
    then (decimal d, String.length pre + String.length d, true)
    else (0%Z, 0, false).
Proof.
  intros [Hne Hd] Hrest. unfold server.atoi. rewrite str_drop_app.
  destruct d as [|c d]; [done|].
  cbn [String.append]. simpl in Hd. apply andb_true_iff in Hd as [Hc Hd].
  rewrite Hc.
  change (String c (d +:+ rest)) with (String c d +:+ rest)%string.
  rewrite atoi_loop_digits; [done| |done|unfold server.Big; lia].
  simpl. by rewrite Hc, Hd.
Qed.

Lemma str_get_app_0 (a b : string) :
  String.get (String.length a) (a +:+ b) = String.get 0 b.
Proof. rewrite <- (str_get_app_r a b 0). by rewrite Nat.add_0_r. Qed.

Lemma stops_dot (s : string) : stops (String "." s).
Proof. done. Qed.

(** On the token [GNTP/<digits>.<digits>], [parseGntpVersion] returns
    the two numbers when both are at most 1,000,000 and reports failure
    otherwise. *)
Lemma parseGntpVersion_token (d1 d2 : string) :
  digits d1 → digits d2 →
  server.parseGntpVersion (version_token d1 d2)
  = if (decimal d1 <=? server.Big)%Z && (decimal d2 <=? server.Big)%Z
    then (decimal d1, decimal d2, true)
    else (0%Z, 0%Z, false).
Proof.
  intros Hd1 Hd2. unfold server.parseGntpVersion, version_token.
  change (String.length ("GNTP/" +:+ d1 +:+ "." +:+ d2) <? 5) with false.
  change (str_take 5 ("GNTP/" +:+ d1 +:+ "." +:+ d2)) with "GNTP/".
  change (false || negb ("GNTP/" =? "GNTP/")%string) with false. cbv iota.
  assert (Hpre : 5 = String.length "GNTP/") by done.
  generalize dependent "GNTP/". intros pre Hpre. rewrite Hpre.
  rewrite (atoi_digits pre d1 ("." +:+ d2)) by (done || apply stops_dot).
  destruct (decimal d1 <=? server.Big)%Z eqn:Hbig1; [|done].
  cbn [negb orb andb].
  assert (Hlen : String.length (pre +:+ d1 +:+ "." +:+ d2)
                 = String.length pre + String.length d1 + 1 + String.length d2).
  { rewrite !str_length_app. simpl. lia. }
  rewrite Hlen.
  rewrite (proj2 (Nat.leb_gt _ _)) by lia.
  rewrite <- (str_app_assoc pre d1), <- (str_length_app pre d1).
  rewrite str_get_app_0. cbn [String.append String.get].
  rewrite bool_decide_eq_true_2 by done. cbn [negb orb].
  pose proof (atoi_digits ((pre +:+ d1) +:+ ".") d2 "" Hd2 I) as Hminor.
  rewrite str_app_nil_r in Hminor.
  rewrite (str_length_app (pre +:+ d1) ".") in Hminor.
  rewrite (str_app_assoc (pre +:+ d1) "." d2) in Hminor.
  change (String.length ".") with 1 in Hminor.
  change ("." +:+ d2)%string with (String "." d2) in Hminor.
  rewrite Hminor.
  destruct (decimal d2 <=? server.Big)%Z eqn:Hbig2; [|done].
  cbn [negb orb].
  rewrite (proj2 (Nat.eqb_eq _ _)); [done|].
  rewrite !str_length_app. simpl. lia.
Qed.

Lemma atoi_loop_ok (rest : string) (n : Z) (i : nat) (n' : Z) (i' : nat) :
  server.atoi_loop rest n i = (n', i', true) →
  ∃ d rest', rest = (d +:+ rest')%string ∧ str_forallb is_digit d = true
             ∧ i' = i + String.length d ∧ stops rest'.
Proof.
  revert n i. induction rest as [|c rest IH]; intros n i; simpl.
  - intros [= <- <-]. exists "", "". simpl. auto with lia.
  - destruct (is_digit c) eqn:Hc.
    + destruct (server.Big <? _)%Z; [done|].
      intros (d & rest' & -> & Hd & -> & Hstop)%IH.
      exists (String c d), rest'. simpl. rewrite Hc, Hd. auto with lia.
    + intros [= <- <-]. exists "", (String c rest). simpl. auto with lia.
Qed.

Lemma atoi_ok (s : string) (i : nat) (n : Z) (i' : nat) :
  server.atoi s i = (n, i', true) →
  ∃ d rest', str_drop i s = (d +:+ rest')%string ∧ digits d
             ∧ i' = i + String.length d ∧ stops rest'.
Proof.
  unfold server.atoi. destruct (str_drop i s) as [|c rest] eqn:Hdrop; [done|].
  destruct (is_digit c) eqn:Hc; [|done].
  intros (d & rest' & Heq & Hd & -> & Hstop)%atoi_loop_ok.
  exists d, rest'. repeat split; try done.
  intros ->. simpl in Heq. subst rest'. simpl in Hstop. congruence.
Qed.

(** Whatever [parseGntpVersion] accepts is a token [GNTP/<int>.<int>]. *)
Lemma parseGntpVersion_ok (version : string) (major minor : Z) :
  server.parseGntpVersion version = (major, minor, true) → version_syntax version.
Proof.
  unfold server.parseGntpVersion.
  destruct (String.length version <? 5) eqn:Hlen; [done|].
  destruct (String.eqb (str_take 5 version) "GNTP/") eqn:Hpre; [|done].
  apply String.eqb_eq in Hpre. cbn [orb negb].
  destruct (server.atoi version 5) as [[n1 i1] ok1] eqn:Hatoi1.
  destruct ok1; [|done]. cbn [orb negb].
  destruct (String.length version <=? i1) eqn:Hi1; [done|].
  destruct (bool_decide _) eqn:Hdot; [|done].
  apply bool_decide_eq_true in Hdot. cbn [orb negb].
  destruct (server.atoi version (i1 + 1)) as [[n2 i2] ok2] eqn:Hatoi2.
  destruct ok2; [|done]. cbn [orb negb].
  destruct (i2 =? String.length version) eqn:Hi2; [|done].
  apply Nat.eqb_eq in Hi2. intros _.
  apply atoi_ok in Hatoi1 as (d1 & r1 & Hdrop1 & Hd1 & -> & _).
  apply atoi_ok in Hatoi2 as (d2 & r2 & Hdrop2 & Hd2 & -> & _).
  rewrite str_get_drop, <- str_drop_drop, Hdrop1, str_drop_app in Hdot.
  destruct r1 as [|c r1]; [done|]. simpl in Hdot. injection Hdot as ->.
  rewrite <- !str_drop_drop, Hdrop1, str_drop_app in Hdrop2. simpl in Hdrop2.
  subst r1.
  assert (Hv : version = ("GNTP/" +:+ d1 +:+ "." +:+ d2 +:+ r2)%string).
  { rewrite <- (str_take_drop 5 version), Hpre, Hdrop1. done. }
  assert (r2 = "") as ->.
  { rewrite Hv in Hi2. rewrite !str_length_app in Hi2. simpl in Hi2.
    destruct r2; [done|]. simpl in Hi2. lia. }
  rewrite str_app_nil_r in Hv. by exists d1, d2.
Qed.

(** ** The directive line *)

Lemma SplitN_three (f0 f1 f2 : string) :
  absent SP f0 = true → absent SP f1 = true →
  strings.SplitN (f0 +:+ " " +:+ f1 +:+ " " +:+ f2) SP 3 = [f0; f1; f2].
Proof.
  intros H0 H1. unfold strings.SplitN. cbn [strings.SplitN_go].
  change (" " +:+ f1 +:+ " " +:+ f2)%string with (String SP (f1 +:+ " " +:+ f2)).
  rewrite str_cut_app by done.
  change (" " +:+ f2)%string with (String SP f2).
  by rewrite str_cut_app.
Qed.

Section Parse.
Context {St : Type}.
Implicit Types (mux : server.ServeMux St) (req : option server.Request) (st : St).

Lemma Parse_short mux b req st s b1 :
  textproto.ReadLine b = ((s, None), b1) →
  length (strings.SplitN s SP 3) < 3 →
  server.Parse mux b req st
  = Return ((Some (default server.new_Request req),
             Some (GntpError_value (server.UnknownProtocolError s))), b1, st).
Proof.
  intros Hline Hlen. unfold server.Parse. rewrite Hline.
  destruct (strings.SplitN s SP 3) as [|f0 [|f1 [|f2 [|f3 fs]]]]; try done.
  simpl in Hlen. lia.
Qed.

Lemma Parse_version_fails mux b req st s b1 f0 f1 f2 :
  textproto.ReadLine b = ((s, None), b1) →
  strings.SplitN s SP 3 = [f0; f1; f2] →
  (server.parseGntpVersion f0).2 = false →
  server.Parse mux b req st
  = Return ((Some (server.with_version (default server.new_Request req)
                     (server.parseGntpVersion f0).1.1 (server.parseGntpVersion f0).1.2),
             Some (GntpError_value (server.UnknownProtocolError s))), b1, st).
Proof.
  intros Hline Hsplit Hfail. unfold server.Parse. rewrite Hline, Hsplit.
  destruct (server.parseGntpVersion f0) as [[major minor] ok]. simpl in *.
  by subst ok.
Qed.

Lemma Parse_version_ok mux b req st s b1 f0 f1 f2 major minor :
  textproto.ReadLine b = ((s, None), b1) →
  strings.SplitN s SP 3 = [f0; f1; f2] →
  server.parseGntpVersion f0 = (major, minor, true) →
  server.Parse mux b req st
  = let req1 :=
      server.with_type
        (server.with_version (default server.new_Request req) major minor) f1 in
    if String.eqb f2 "NONE"
    then server.Handler_Parse (server.handler mux f1) b1 (Some req1) st
    else Return ((Some req1,
                  Some (GntpError_value (server.InvalidRequestError "unsupported encryption"))),
                 b1, st).
Proof.
  intros Hline Hsplit Hok. unfold server.Parse. rewrite Hline, Hsplit, Hok.
  simpl. by destruct (String.eqb f2 "NONE").
Qed.

End Parse.

(** C3: the directive line [s] that [Parse] reads.  The well-formed
    [GNTP/1.0 NOTIFY NONE] reaches the handler registered for NOTIFY with a
    request whose version is 1.0 and whose type is NOTIFY.  A line that does
    not split into three tokens, or whose first token is not
    [GNTP/<int>.<int>], fails with the unknown-protocol error, code 301,
    whose description ends with the raw line.  A line whose version token is
    accepted and whose third token is not [NONE] fails with the
    unsupported-encryption error. *)
Theorem Parse_directive_line {St : Type} (mux : server.ServeMux St)
    (b b1 : Reader) (s : string) (req : option server.Request) (st : St) :
  textproto.ReadLine b = ((s, None), b1) →
  let req0 := default server.new_Request req in
  (s = "GNTP/1.0 NOTIFY NONE" →
     server.Parse mux b req st
     = server.Handler_Parse (server.handler mux "NOTIFY") b1
         (Some {| server.Request_Version := {| server.Major := 1; server.Minor := 0 |};
                  server.Request_Type := "NOTIFY";
                  server.Request_Headers := server.Request_Headers req0;
                  server.Request_Binaries := server.Request_Binaries req0 |}) st)
  ∧ (length (strings.SplitN s SP 3) < 3
     ∨ (∃ f0 f1 f2, strings.SplitN s SP 3 = [f0; f1; f2] ∧ ¬ version_syntax f0) →
     ∃ req',
       server.Parse mux b req st
       = Return ((Some req', Some (GntpError_value (server.UnknownProtocolError s))),
                 b1, st))
  ∧ (∀ f0 f1 f2 major minor,
       strings.SplitN s SP 3 = [f0; f1; f2] →
       server.parseGntpVersion f0 = (major, minor, true) →
       f2 ≠ "NONE" →
       server.Parse mux b req st
       = Return ((Some (server.with_type (server.with_version req0 major minor) f1),
                  Some (GntpError_value
                          (server.InvalidRequestError "unsupported encryption"))),
                 b1, st))
  ∧ Code (server.UnknownProtocolError s) = 301%Z
  ∧ Description (server.UnknownProtocolError s) = ("Unknown protocol: " +:+ s)%string.
Proof.
  intros Hline req0. split; [|split; [|split; [|done]]].
  - intros ->.
    by rewrite (Parse_version_ok mux b req st "GNTP/1.0 NOTIFY NONE" b1
                 "GNTP/1.0" "NOTIFY" "NONE" 1 0).
  - intros [Hshort | (f0 & f1 & f2 & Hsplit & Hsyntax)].
    + eexists. by apply Parse_short.
    + eexists. eapply Parse_version_fails; [done..|].
      destruct (server.parseGntpVersion f0) as [[major minor] [|]] eqn:Hparse; [|done].
      destruct Hsyntax. by eapply parseGntpVersion_ok.
  - intros f0 f1 f2 major minor Hsplit Hok Hsec.
    rewrite (Parse_version_ok mux b req st s b1 f0 f1 f2 major minor) by done.
    cbv zeta. by rewrite (proj2 (String.eqb_neq _ _) Hsec).
Qed.

(** The three kinds of line, on a table without handlers. *)
Lemma Parse_directive_line_witness :
  let mux : server.ServeMux unit := server.NewServeMux in
  server.Parse mux (line "GNTP/1.0 NOTIFY NONE" +:+ "Application-Name: Foo") None tt
  = Return ((Some {| server.Request_Version := {| server.Major := 1; server.Minor := 0 |};
                     server.Request_Type := "NOTIFY";
                     server.Request_Headers := [];
                     server.Request_Binaries := ∅ |},
             Some (GntpError_value (server.UnknownRequestTypeError "NOTIFY"))),
            "Application-Name: Foo", tt)
  ∧ (∃ req', server.Parse mux (line "HELLO WORLD") None tt
       = Return ((Some req', Some (GntpError_value (server.UnknownProtocolError "HELLO WORLD"))),
                 EmptyString, tt))
  ∧ (∃ req', server.Parse mux (line "HTTP/1.0 NOTIFY NONE") None tt
       = Return ((Some req',
                  Some (GntpError_value (server.UnknownProtocolError "HTTP/1.0 NOTIFY NONE"))),
                 EmptyString, tt))
  ∧ server.Parse mux (line "GNTP/1.0 NOTIFY AES:1234") None tt
    = Return ((Some {| server.Request_Version := {| server.Major := 1; server.Minor := 0 |};
                       server.Request_Type := "NOTIFY";
                       server.Request_Headers := [];
                       server.Request_Binaries := ∅ |},
               Some (GntpError_value (server.InvalidRequestError "unsupported encryption"))),
              EmptyString, tt).
Proof.
  intros mux. split; [|split; [|split]].
  - refine (proj1 (Parse_directive_line mux _ _ _ None tt _) eq_refl). reflexivity.
  - refine (proj1 (proj2 (Parse_directive_line mux _ _ _ None tt _)) _);
      [reflexivity|]. left. simpl. lia.
  - refine (proj1 (proj2 (Parse_directive_line mux _ _ _ None tt _)) _);
      [reflexivity|]. right. exists "HTTP/1.0", "NOTIFY", "NONE". split; [reflexivity|].
    intros (d1 & d2 & _ & _ & Heq). discriminate Heq.
  - refine (proj1 (proj2 (proj2 (Parse_directive_line mux _ _ _ None tt _)))
              "GNTP/1.0" "NOTIFY" "AES:1234" 1%Z 0%Z _ _ _);
      [reflexivity..|discriminate].
Defined.

(** C10: a directive line whose first token is [GNTP/<digits>.<digits>].
    When the major or the minor number is greater than 1,000,000,
    [parseGntpVersion] reports failure and [Parse] rejects the line with the
    unknown-protocol error, code 301.  When both are at most 1,000,000 the
    token is accepted with these numbers, and [Parse] goes on to the
    security token with them as the request's version. *)
Theorem parseGntpVersion_Big {St : Type} (mux : server.ServeMux St)
    (b b1 : Reader) (s : string) (req : option server.Request) (st : St)
    (d1 d2 : string) :
  digits d1 → digits d2 →
  textproto.ReadLine b = ((s, None), b1) →
  head (strings.SplitN s SP 3) = Some (version_token d1 d2) →
  ((1000000 < decimal d1)%Z ∨ (1000000 < decimal d2)%Z →
     server.parseGntpVersion (version_token d1 d2) = (0%Z, 0%Z, false)
     ∧ Code (server.UnknownProtocolError s) = 301%Z
     ∧ ∃ req',
         server.Parse mux b req st
         = Return ((Some req', Some (GntpError_value (server.UnknownProtocolError s))),
                   b1, st))
  ∧ ((decimal d1 ≤ 1000000)%Z ∧ (decimal d2 ≤ 1000000)%Z →
     server.parseGntpVersion (version_token d1 d2) = (decimal d1, decimal d2, true)
     ∧ ∀ f1 f2,
         strings.SplitN s SP 3 = [version_token d1 d2; f1; f2] →
         server.Parse mux b req st
         = let req1 :=
             server.with_type
               (server.with_version (default server.new_Request req)
                  (decimal d1) (decimal d2)) f1 in
           if String.eqb f2 "NONE"
           then server.Handler_Parse (server.handler mux f1) b1 (Some req1) st
           else Return ((Some req1,
                         Some (GntpError_value
                                 (server.InvalidRequestError "unsupported encryption"))),
                        b1, st)).
Proof.
  intros Hd1 Hd2 Hline Hhead.
  pose proof (parseGntpVersion_token d1 d2 Hd1 Hd2) as Htoken.
  unfold server.Big in Htoken. split.
  - intros Hbig.
    assert (Hfail : server.parseGntpVersion (version_token d1 d2) = (0%Z, 0%Z, false)).
    { rewrite Htoken. destruct Hbig.
      - by rewrite (proj2 (Z.leb_gt _ _)).
      - rewrite (proj2 (Z.leb_gt (decimal d2) _)) by done. by rewrite andb_false_r. }
    split; [done|]. split; [done|].
    destruct (strings.SplitN s SP 3) as [|f0 [|f1 [|f2 [|f3 fs]]]] eqn:Hsplit;
      try (eexists; apply Parse_short; [done | rewrite Hsplit; simpl; lia]).
    + simpl in Hhead. injection Hhead as ->.
      eexists. eapply Parse_version_fails; [done..|]. by rewrite Hfail.
    + unfold strings.SplitN in Hsplit. cbn [strings.SplitN_go] in Hsplit.
      repeat (destruct (str_cut SP _) as [[? ?]|] in Hsplit; try discriminate).
  - intros [Hle1 Hle2].
    assert (Hok : server.parseGntpVersion (version_token d1 d2)
                  = (decimal d1, decimal d2, true)).
    { rewrite Htoken. by rewrite !(proj2 (Z.leb_le _ _)). }
    split; [done|]. intros f1 f2 Hsplit.
    by apply (Parse_version_ok mux b req st s b1 (version_token d1 d2) f1 f2).
Qed.

Lemma digits_intro (d : string) :
  bool_decide (d ≠ EmptyString) && str_forallb is_digit d = true → digits d.
Proof. intros [Hne%bool_decide_eq_true Hd]%andb_true_iff. done. Qed.

(** Version 1000001.0 is rejected, version 1000000.0 goes through to the
    handler. *)
Lemma parseGntpVersion_Big_witness :
  let mux : server.ServeMux unit := server.NewServeMux in
  server.parseGntpVersion "GNTP/1000001.0" = (0%Z, 0%Z, false)
  ∧ (∃ req', server.Parse mux (line "GNTP/1000001.0 NOTIFY NONE") None tt
       = Return ((Some req',
                  Some (GntpError_value
                          (server.UnknownProtocolError "GNTP/1000001.0 NOTIFY NONE"))),
                 EmptyString, tt))
  ∧ server.parseGntpVersion "GNTP/1000000.0" = (1000000%Z, 0%Z, true)
  ∧ server.Parse mux (line "GNTP/1000000.0 NOTIFY NONE") None tt
    = Return ((Some {| server.Request_Version :=
                         {| server.Major := 1000000; server.Minor := 0 |};
                       server.Request_Type := "NOTIFY";
                       server.Request_Headers := [];
                       server.Request_Binaries := ∅ |},
               Some (GntpError_value (server.UnknownRequestTypeError "NOTIFY"))),
              EmptyString, tt).
Proof.
  intros mux.
  destruct (parseGntpVersion_Big mux (line "GNTP/1000001.0 NOTIFY NONE") EmptyString
              "GNTP/1000001.0 NOTIFY NONE" None tt "1000001" "0"
              (digits_intro "1000001" eq_refl) (digits_intro "0" eq_refl) eq_refl eq_refl)
    as [Hbig _].
  destruct (Hbig (or_introl eq_refl)) as (Hfail & _ & Hparse).
  destruct (parseGntpVersion_Big mux (line "GNTP/1000000.0 NOTIFY NONE") EmptyString
              "GNTP/1000000.0 NOTIFY NONE" None tt "1000000" "0"
              (digits_intro "1000000" eq_refl) (digits_intro "0" eq_refl) eq_refl eq_refl)
    as [_ Hsmall].
  destruct (Hsmall (conj (proj1 (Z.leb_le (decimal "1000000") 1000000) eq_refl)
                          (proj1 (Z.leb_le (decimal "0") 1000000) eq_refl))) as [Hok Hgo].
  split; [exact Hfail|]. split; [exact Hparse|]. split; [exact Hok|].
  exact (Hgo "NOTIFY" "NONE" eq_refl).
Defined.

(** ** The binary resource reader: the sections *)

Section ReadBinaries_loop.
Context {B : Type} `{server.Binaries B}.

(** Reading [k + n] sections is reading [k] of them and, when that went
    well, [n] more. *)
Lemma ReadBinaries_loop_add (k n : nat) (b : Reader) (binaries : B)
    (bs : gmap string server.Binary) :
  server.ReadBinaries_loop (k + n) b binaries bs
  = match server.ReadBinaries_loop k b binaries bs with
    | Return ((bs', None), b', binaries') => server.ReadBinaries_loop n b' binaries' bs'
    | other => other
    end.
Proof.
  revert b binaries bs. induction k as [|k IH]; intros b binaries bs; [done|].
  cbn [Nat.add server.ReadBinaries_loop].
  destruct (textproto.ReadMIMEHeader b) as [[header [err|]] b1]; [done|].
  destruct (header !! "Identifier") as [[|ident idents]|]; [done| |done].
  destruct (header !! "Length") as [[|length lengths]|]; [done| |done].
  destruct (strconv.ParseInt length) as [len [perr|]]; [done|].
  destruct (server.Binaries_Add binaries ident len b1) as [[[err b2] binaries2]|msg];
    [|done].
  cbn [mbind outcome_bind].
  destruct err as [err|]; [by destruct err|].
  destruct (server.read_line_end ident b2) as [[err|] b3]; [done|].
  destruct (server.read_line_end ident b3) as [[err|] b4]; [done|].
  apply IH.
Qed.

End ReadBinaries_loop.

Lemma ReadFull_before_end (r : Reader) (n : nat) :
  String.length r < n →
  ∃ data err, io.ReadFull r n = ((data, Some err), EmptyString)
              ∧ (err = io_EOF ∨ err = io_ErrUnexpectedEOF).
Proof.
  intros Hlt. unfold io.ReadFull.
  rewrite (proj2 (Nat.leb_gt _ _)) by done.
  destruct r; eauto.
Qed.

Section FileCache.
Variable filepath_Join : string → string → string.
Variable os_Create_error : string → option error.
Variable maxAlloc : Z.

(** [FileCache.Add] on a connection that ends before [length] bytes. *)
Lemma FileCache_Add_short (cache : main.FileCache) (key : string) (length : Z)
    (r : Reader) :
  (Z.of_nat (String.length r) < length ≤ maxAlloc)%Z →
  main.FileCache_Add filepath_Join os_Create_error maxAlloc cache key length r
  = Return (Some io_ErrUnexpectedEOF, EmptyString, cache).
Proof.
  intros Hlt. unfold main.FileCache_Add.
  rewrite (proj2 (Z.ltb_ge length 0)), (proj2 (Z.ltb_ge maxAlloc length)) by lia.
  cbn [orb].
  destruct (ReadFull_before_end r (Z.to_nat length)) as (data & err & -> & [-> | ->]);
    [lia | done | done].
Qed.

(** C4, amended: the [k] sections before it having been read, a binary
    section whose mini-header declares [Length: N], with [N] no more than
    the runtime allocates, and which is followed by fewer than [N] bytes
    makes [ReadBinaries], with the file cache as the store, return the
    data-incomplete error for the section's identifier: an invalid-request
    error, code 300, and not the error of the read. *)
Theorem ReadBinaries_data_incomplete
    (b : Reader) (headers : list server.Header) (cache : main.FileCache)
    (k : nat) (bs : gmap string server.Binary) (b_k : Reader) (cache_k : main.FileCache)
    (header : server.Header) (b1 : Reader)
    (ident : string) (idents : list string) (length : string) (lengths : list string)
    (N : Z) :
  let store := main.FileCache_Binaries filepath_Join os_Create_error maxAlloc in
  let incomplete := server.InvalidRequestError (ident +:+ " data incomplete") in
  k < server.count_references headers →
  @server.ReadBinaries_loop _ store k b cache ∅ = Return ((bs, None), b_k, cache_k) →
  textproto.ReadMIMEHeader b_k = ((header, None), b1) →
  header !! "Identifier" = Some (ident :: idents) →
  header !! "Length" = Some (length :: lengths) →
  strconv.ParseInt length = (N, None) →
  (Z.of_nat (String.length b1) < N)%Z →
  (N ≤ maxAlloc)%Z →
  @server.ReadBinaries _ store b headers cache
  = Return ((∅, Some (GntpError_value incomplete)), EmptyString, cache_k)
  ∧ Code incomplete = 300%Z
  ∧ Description incomplete
    = ("The request was malformed: " +:+ ident +:+ " data incomplete")%string.
Proof.
  intros store incomplete Hk Hread Hheader Hident Hlength HN Hshort Hmax.
  split; [|done].
  unfold server.ReadBinaries.
  replace (server.count_references headers)
    with (k + S (server.count_references headers - S k)) by lia.
  rewrite ReadBinaries_loop_add, Hread.
  cbn [server.ReadBinaries_loop]. rewrite Hheader, Hident, Hlength, HN.
  cbn [server.Binaries_Add store main.FileCache_Binaries].
  by rewrite FileCache_Add_short.
Qed.

End FileCache.

Lemma ReadBinaries_data_incomplete_witness :
  @server.ReadBinaries _ cache_store short_section
    [ {[ "Application-Icon" := ["x-growl-resource://icon"] ]} ] empty_cache
  = Return ((∅, Some (GntpError_value
                        (server.InvalidRequestError "icon data incomplete"))),
            EmptyString, empty_cache).
Proof.
  refine (proj1 (ReadBinaries_data_incomplete join_slash (λ _, None) linux_maxAlloc
                   short_section _ empty_cache 0 ∅ short_section empty_cache
                   {[ "Identifier" := ["icon"]; "Length" := ["5"] ]} "PNG"
                   "icon" [] "5" [] 5 _ _ _ _ _ _ _ _)).
  - vm_compute. lia.
  - reflexivity.
  - vm_compute. reflexivity.
  - reflexivity.
  - reflexivity.
  - reflexivity.
  - vm_compute. reflexivity.
  - vm_compute. discriminate.
Defined.

(** Without the bound on [N] this fails, for a section that declares the
    largest [int64]: its header is read, the length parses, fewer bytes
    follow, and [make] panics in [FileCache.Add], so that [ReadBinaries]
    returns nothing at all. *)
Lemma ReadBinaries_huge_length_counterexample :
  textproto.ReadMIMEHeader huge_section
  = (({[ "Identifier" := ["icon"]; "Length" := ["9223372036854775807"] ]}, None), "PNG")
  ∧ strconv.ParseInt "9223372036854775807" = ((2 ^ 63 - 1)%Z, None)
  ∧ (Z.of_nat (String.length "PNG") < 2 ^ 63 - 1)%Z
  ∧ @server.ReadBinaries _ cache_store huge_section
      [ {[ "Application-Icon" := ["x-growl-resource://icon"] ]} ] empty_cache
    = Panic "makeslice: len out of range"
  ∧ ¬ ∃ err b cache,
        @server.ReadBinaries _ cache_store huge_section
          [ {[ "Application-Icon" := ["x-growl-resource://icon"] ]} ] empty_cache
        = Return ((∅, Some err), b, cache).
Proof.
  assert (Hpanic : @server.ReadBinaries _ cache_store huge_section
            [ {[ "Application-Icon" := ["x-growl-resource://icon"] ]} ] empty_cache
          = Panic "makeslice: len out of range") by (vm_compute; reflexivity).
  split; [vm_compute; reflexivity|]. split; [vm_compute; reflexivity|].
  split; [vm_compute; reflexivity|]. split; [exact Hpanic|].
  intros (err & b & cache & Hret). rewrite Hpanic in Hret. discriminate.
Qed.

(** ** Writing a header block *)

Lemma newlineToSpace_no_newline (v : string) :
  no_newline (server.newlineToSpace v) = true.
Proof.
  unfold no_newline, server.newlineToSpace.
  induction v as [|c v IH]; [done|].
  cbn [str_map str_forallb]. rewrite IH, andb_true_r.
  unfold strings.newlineToSpace_byte.
  destruct (byte_eqb c LF) eqn:HLF; [done|].
  destruct (byte_eqb c CR) eqn:HCR; [done|].
  by rewrite HLF, HCR.
Qed.

(** Trimming on the left keeps what holds of every byte. *)
Lemma trim_left_space_forallb (p : ascii → bool) (rv : bool) (s : string) :
  str_forallb p s = true → str_forallb p (strings.trim_left_space rv s) = true.
Proof.
  remember (String.length s) as n eqn:Hn. revert s Hn.
  induction n as [n IH] using lt_wf_ind. intros s -> Hs.
  destruct s as [|c1 s1]; [done|].
  cbn [strings.trim_left_space].
  simpl in Hs. apply andb_true_iff in Hs as [Hc1 Hs1].
  destruct (strings.is_space1 c1).
  { eapply IH; [|done..]. simpl. lia. }
  destruct s1 as [|c2 s2]; [by simpl; rewrite Hc1|].
  simpl in Hs1. apply andb_true_iff in Hs1 as [Hc2 Hs2].
  destruct (if rv then _ else _).
  { eapply IH; [|done..]. simpl. lia. }
  destruct s2 as [|c3 s3]; [by simpl; rewrite Hc1, Hc2|].
  simpl in Hs2. apply andb_true_iff in Hs2 as [Hc3 Hs3].
  destruct (if rv then _ else _).
  { eapply IH; [|done..]. simpl. lia. }
  simpl. by rewrite Hc1, Hc2, Hc3, Hs3.
Qed.

Lemma TrimSpace_forallb (p : ascii → bool) (s : string) :
  str_forallb p s = true → str_forallb p (strings.TrimSpace s) = true.
Proof.
  intros Hs. unfold strings.TrimSpace.
  rewrite str_forallb_rev. apply trim_left_space_forallb.
  rewrite str_forallb_rev. by apply trim_left_space_forallb.
Qed.

Lemma Write_value_no_newline (v : string) : no_newline (server.Write_value v) = true.
Proof. apply TrimSpace_forallb, newlineToSpace_no_newline. Qed.

Lemma wire_lines_app (l1 l2 : list (string * string)) :
  wire_lines (l1 ++ l2) = (wire_lines l1 +:+ wire_lines l2)%string.
Proof.
  induction l1 as [|[k v] l1 IH]; [done|].
  cbn [app wire_lines]. rewrite IH. by rewrite !str_app_assoc.
Qed.

Lemma Write_values_wire (k : string) (vs : list string) :
  server.Write_values k vs = wire_lines ((λ v, (k, server.Write_value v)) <$> vs).
Proof.
  induction vs as [|v vs IH]; [done|].
  cbn [server.Write_values fmap list_fmap wire_lines]. rewrite IH.
  unfold server.Write_line. by rewrite !str_app_assoc.
Qed.

Lemma Write_entries_wire (entries : list (string * list string)) :
  server.Write_entries entries = wire_lines (emitted entries).
Proof.
  induction entries as [|[k vs] entries IH]; [done|].
  unfold emitted in *. cbn [server.Write_entries mbind list_bind].
  by rewrite wire_lines_app, IH, Write_values_wire.
Qed.

Lemma elem_of_emitted (entries : list (string * list string)) (k v' : string) :
  (k, v') ∈ emitted entries
  ↔ ∃ vs v, (k, vs) ∈ entries ∧ v ∈ vs ∧ v' = server.Write_value v.
Proof.
  unfold emitted. rewrite list_elem_of_bind. split.
  - intros ([k0 vs] & Hin & Hentry).
    apply list_elem_of_fmap in Hin as (v & [= -> ->] & Hv). eauto.
  - intros (vs & v & Hentry & Hv & ->). exists (k, vs). split; [|done].
    apply list_elem_of_fmap. eauto.
Qed.

Lemma all_space_app (a b : string) :
  all_space a → all_space b → all_space (a +:+ b).
Proof.
  intros Ha Hb. induction Ha as [|c1 s H1 Hs IH|c1 c2 s H2 Hs IH|c1 c2 c3 s H3 Hs IH];
    simpl; [done| | |].
  - by apply all_space_1.
  - by apply all_space_2.
  - by apply all_space_3.
Qed.

Lemma leading_space_prefix (a b : string) :
  leading_space false (a +:+ b) = false → leading_space false a = false.
Proof.
  destruct a as [|c1 [|c2 [|c3 a]]]; simpl; [done| | |done].
  - intros [-> _]%orb_false_iff. done.
  - intros [-> [-> _]%orb_false_iff]%orb_false_iff. done.
Qed.

(** What [trim_left_space] drops is white space, and what it leaves does
    not start with white space; on a string held in reverse, what it drops
    is white space once it is turned around. *)
Lemma trim_left_space_forward (n : nat) (s : string) :
  String.length s ≤ n →
  ∃ pre, s = (pre +:+ strings.trim_left_space false s)%string
         ∧ all_space pre
         ∧ leading_space false (strings.trim_left_space false s) = false.
Proof.
  revert s. induction n as [|n IH]; intros s Hn.
  { destruct s; [|simpl in Hn; lia]. exists EmptyString. by repeat constructor. }
  destruct s as [|c1 s1]; [exists EmptyString; by repeat constructor|].
  cbn [strings.trim_left_space]. simpl in Hn.
  destruct (strings.is_space1 c1) eqn:H1.
  { destruct (IH s1 ltac:(lia)) as (pre & Hs & Hpre & Hlead).
    exists (String c1 pre). split; [simpl; by rewrite <- Hs|]. split; [|done].
    by apply all_space_1. }
  destruct s1 as [|c2 s2].
  { exists EmptyString. split; [done|]. split; [constructor|]. simpl. by rewrite H1. }
  simpl in Hn. destruct (strings.is_space2 c1 c2) eqn:H2.
  { destruct (IH s2 ltac:(lia)) as (pre & Hs & Hpre & Hlead).
    exists (String c1 (String c2 pre)). split; [simpl; by rewrite <- Hs|]. split; [|done].
    by apply all_space_2. }
  destruct s2 as [|c3 s3].
  { exists EmptyString. split; [done|]. split; [constructor|]. simpl. by rewrite H1, H2. }
  simpl in Hn. destruct (strings.is_space3 c1 c2 c3) eqn:H3.
  { destruct (IH s3 ltac:(lia)) as (pre & Hs & Hpre & Hlead).
    exists (String c1 (String c2 (String c3 pre))).
    split; [simpl; by rewrite <- Hs|]. split; [|done]. by apply all_space_3. }
  exists EmptyString. split; [done|]. split; [constructor|]. simpl. by rewrite H1, H2, H3.
Qed.

Lemma trim_left_space_backward (n : nat) (s : string) :
  String.length s ≤ n →
  ∃ q, s = (q +:+ strings.trim_left_space true s)%string
       ∧ all_space (str_rev q)
       ∧ leading_space true (strings.trim_left_space true s) = false.
Proof.
  revert s. induction n as [|n IH]; intros s Hn.
  { destruct s; [|simpl in Hn; lia]. exists EmptyString. by repeat constructor. }
  destruct s as [|c1 s1]; [exists EmptyString; by repeat constructor|].
  cbn [strings.trim_left_space]. simpl in Hn.
  destruct (strings.is_space1 c1) eqn:H1.
  { destruct (IH s1 ltac:(lia)) as (q & Hs & Hq & Hlead).
    exists (String c1 q). split; [simpl; by rewrite <- Hs|]. split; [|done].
    rewrite str_rev_cons. apply all_space_app; [done|].
    apply all_space_1; [done|constructor]. }
  destruct s1 as [|c2 s2].
  { exists EmptyString. split; [done|]. split; [constructor|]. simpl. by rewrite H1. }
  simpl in Hn. destruct (strings.is_space2 c2 c1) eqn:H2.
  { destruct (IH s2 ltac:(lia)) as (q & Hs & Hq & Hlead).
    exists (String c1 (String c2 q)). split; [simpl; by rewrite <- Hs|]. split; [|done].
    rewrite !str_rev_cons, str_app_assoc. apply all_space_app; [done|].
    apply all_space_2; [done|constructor]. }
  destruct s2 as [|c3 s3].
  { exists EmptyString. split; [done|]. split; [constructor|]. simpl. by rewrite H1, H2. }
  simpl in Hn. destruct (strings.is_space3 c3 c2 c1) eqn:H3.
  { destruct (IH s3 ltac:(lia)) as (q & Hs & Hq & Hlead).
    exists (String c1 (String c2 (String c3 q))).
    split; [simpl; by rewrite <- Hs|]. split; [|done].
    rewrite !str_rev_cons, !str_app_assoc. apply all_space_app; [done|].
    apply all_space_3; [done|constructor]. }
  exists EmptyString. split; [done|]. split; [constructor|]. simpl. by rewrite H1, H2, H3.
Qed.

(** [strings.TrimSpace] trims: it takes white space, and nothing else, from
    the two ends, and leaves none at either end. *)
Lemma TrimSpace_trimmed (s : string) : trimmed_of s (strings.TrimSpace s).
Proof.
  unfold strings.TrimSpace.
  destruct (trim_left_space_forward _ s (le_n _)) as (pre & Hs & Hpre & Hlead).
  set (s1 := strings.trim_left_space false s) in *.
  destruct (trim_left_space_backward _ (str_rev s1) (le_n _)) as (q & Hr & Hq & Hlast).
  set (r := strings.trim_left_space true (str_rev s1)) in *.
  assert (s1 = (str_rev r +:+ str_rev q)%string) as Hs1.
  { rewrite <- (str_rev_involutive s1), Hr. apply str_rev_app_distr. }
  split; [|split].
  - exists pre, (str_rev q). split; [|done]. by rewrite <- Hs1.
  - apply (leading_space_prefix _ (str_rev q)). by rewrite <- Hs1.
  - by rewrite str_rev_involutive.
Qed.

Lemma newlineToSpace_replaced (v : string) : server.newlineToSpace v = replaced v.
Proof.
  unfold server.newlineToSpace, replaced.
  induction v as [|c v IH]; [done|]. cbn [str_map]. rewrite IH. f_equal.
  unfold strings.newlineToSpace_byte.
  destruct (byte_eqb c LF) eqn:HLF.
  { apply byte_eqb_eq in HLF. by rewrite bool_decide_eq_true_2 by auto. }
  destruct (byte_eqb c CR) eqn:HCR.
  { apply byte_eqb_eq in HCR. by rewrite bool_decide_eq_true_2 by auto. }
  rewrite bool_decide_eq_false_2; [done|].
  intros [->| ->]; by rewrite byte_eqb_refl in *.
Qed.

Lemma emitted_trimmed (entries : list (string * list string)) :
  Forall2 (λ value line, line.1 = value.1 ∧ trimmed_of (replaced value.2) line.2)
    (stored_lines entries) (emitted entries).
Proof.
  unfold stored_lines, emitted. induction entries as [|[k vs] entries IH]; [constructor|].
  cbn [mbind list_bind]. apply Forall2_app; [|exact IH].
  clear IH. induction vs as [|v vs IH]; [constructor|].
  cbn [fmap list_fmap]. constructor; [|exact IH]. split; [done|].
  cbn [snd]. unfold server.Write_value. rewrite newlineToSpace_replaced.
  apply TrimSpace_trimmed.
Qed.

(** C8: whatever [Write] puts on the wire for a header block is a sequence
    of lines [Key: Value] with their line ends, one for each value of each
    key, in the order of the values of a key.  The value on a line is the
    stored value with every line feed and carriage return replaced by one
    space and then trimmed of white space at both ends: the replaced value
    is the value on the line with white space, and nothing else, before and
    after it, and the value on the line neither starts nor ends with white
    space.  It holds neither a carriage return nor a line feed. *)
Theorem Write_no_newline_in_value (h : server.Header) (out : string) :
  server.Write h out →
  ∃ (entries : list (string * list string)) (lines : list (string * string)),
    entries ≡ₚ map_to_list h
    ∧ out = wire_lines lines
    ∧ Forall2 (λ value line, line.1 = value.1 ∧ trimmed_of (replaced value.2) line.2)
        (stored_lines entries) lines
    ∧ (∀ k v', (k, v') ∈ lines ↔
         ∃ vs v, h !! k = Some vs ∧ v ∈ vs
                 ∧ v' = strings.TrimSpace
                          (str_map (λ c, if bool_decide (c = LF ∨ c = CR) then SP else c) v))
    ∧ Forall (λ line, no_newline line.2 = true) lines.
Proof.
  intros [entries Hperm]. exists entries, (emitted entries).
  split; [done|]. split; [apply Write_entries_wire|]. split; [apply emitted_trimmed|].
  split.
  - intros k v'. rewrite elem_of_emitted.
    assert (Hrepl : ∀ v, server.Write_value v
      = strings.TrimSpace
          (str_map (λ c, if bool_decide (c = LF ∨ c = CR) then SP else c) v)).
    { intros v. unfold server.Write_value. by rewrite newlineToSpace_replaced. }
    split.
    + intros (vs & v & Hentry & Hv & ->). exists vs, v.
      rewrite Hperm in Hentry. apply elem_of_map_to_list in Hentry. by rewrite Hrepl.
    + intros (vs & v & Hk & Hv & ->). exists vs, v.
      rewrite Hperm. rewrite elem_of_map_to_list. by rewrite Hrepl.
  - apply Forall_forall. intros [k v'] (vs & v & _ & _ & ->)%elem_of_emitted.
    apply Write_value_no_newline.
Qed.

Lemma Write_text_header :
  server.Write text_header (line "Notification-Text: one  two").
Proof.
  apply (server.Write_range text_header [("Notification-Text", [two_line_text])]).
  unfold text_header. by rewrite map_to_list_singleton.
Defined.

Lemma Write_no_newline_in_value_witness :
  ∃ lines : list (string * string),
    line "Notification-Text: one  two" = wire_lines lines
    ∧ Forall (λ l, no_newline l.2 = true) lines.
Proof.
  destruct (Write_no_newline_in_value text_header _ Write_text_header)
    as (entries & lines & _ & Hout & _ & _ & Hall).
  exists lines. split; [exact Hout | exact Hall].
Defined.

(** ** Header blocks: [Add] and [Get] *)

Lemma Forall_bytes (P : ascii → bool) :
  (∀ b0 b1 b2 b3 b4 b5 b6 b7, P (Ascii b0 b1 b2 b3 b4 b5 b6 b7) = true) →
  ∀ c, P c = true.
Proof. intros HP [b0 b1 b2 b3 b4 b5 b6 b7]. apply HP. Qed.

Ltac all_bytes := apply Forall_bytes; intros [] [] [] [] [] [] [] []; vm_compute; reflexivity.

Lemma field_byte_plain :
  ∀ c, implb (textproto.validHeaderFieldByte c)
         (negb (byte_eqb c ":") && negb (byte_eqb c SP) && negb (byte_eqb c HT)
          && negb (byte_eqb c LF) && negb (byte_eqb c CR)) = true.
Proof. all_bytes. Qed.

Lemma value_byte_plain :
  ∀ c, implb (textproto.validHeaderValueByte c)
         (negb (byte_eqb c LF) && negb (byte_eqb c CR)) = true.
Proof. all_bytes. Qed.

Lemma space_byte_sp_ht :
  ∀ c, implb (byte_eqb c SP || byte_eqb c HT) (strings.is_space1 c) = true.
Proof. all_bytes. Qed.

Lemma canon_loop_cons (upper : bool) (c : ascii) (a : string) :
  textproto.canon_loop upper (String c a)
  = String (canon_byte upper c)
      (textproto.canon_loop (byte_eqb (canon_byte upper c) "-") a).
Proof. done. Qed.

Lemma canon_byte_idem :
  ∀ c, (Ascii.eqb (canon_byte true (canon_byte true c)) (canon_byte true c)
        && Ascii.eqb (canon_byte false (canon_byte false c)) (canon_byte false c)) = true.
Proof. all_bytes. Qed.

Lemma canon_byte_valid :
  ∀ c, implb (textproto.validHeaderFieldByte c)
         (textproto.validHeaderFieldByte (canon_byte true c)
          && textproto.validHeaderFieldByte (canon_byte false c)) = true.
Proof. all_bytes. Qed.

Lemma canon_byte_unchanged :
  ∀ c, (implb (negb (is_lower c)) (Ascii.eqb (canon_byte true c) c)
        && implb (negb (is_upper c)) (Ascii.eqb (canon_byte false c) c)) = true.
Proof. all_bytes. Qed.

Lemma canon_loop_idem (upper : bool) (a : string) :
  textproto.canon_loop upper (textproto.canon_loop upper a)
  = textproto.canon_loop upper a.
Proof.
  revert upper. induction a as [|c a IH]; intros upper; [done|].
  rewrite !canon_loop_cons.
  pose proof (canon_byte_idem c) as [Ht Hf]%andb_true_iff.
  apply Ascii.eqb_eq in Ht, Hf.
  assert (Hc : canon_byte upper (canon_byte upper c) = canon_byte upper c)
    by by destruct upper.
  by rewrite Hc, IH.
Qed.

Lemma canon_loop_valid (upper : bool) (a : string) :
  str_forallb textproto.validHeaderFieldByte a = true →
  str_forallb textproto.validHeaderFieldByte (textproto.canon_loop upper a) = true.
Proof.
  revert upper. induction a as [|c a IH]; intros upper; [done|].
  rewrite canon_loop_cons. cbn [str_forallb].
  intros [Hc Ha]%andb_true_iff.
  pose proof (canon_byte_valid c) as Hv. rewrite Hc in Hv.
  apply andb_true_iff in Hv as [Ht Hf].
  rewrite IH by done. rewrite andb_true_r. by destruct upper.
Qed.

Lemma looks_like_key_valid (a : string) (noCanon : bool) :
  str_forallb textproto.validHeaderFieldByte a = true →
  textproto.looks_like_key a noCanon = Some noCanon.
Proof.
  induction a as [|c a IH]; [done|]. cbn [str_forallb textproto.looks_like_key].
  intros [Hc Ha]%andb_true_iff. rewrite Hc. auto.
Qed.

Lemma canonicalMIMEHeaderKey_field_name (k : string) :
  field_name k →
  textproto.canonicalMIMEHeaderKey k = (textproto.canon_loop true k, true).
Proof.
  intros [Hne Hk]. unfold textproto.canonicalMIMEHeaderKey.
  destruct k as [|c k]; [done|]. by rewrite looks_like_key_valid.
Qed.

Lemma CanonicalMIMEHeaderKey_check_valid (upper : bool) (pre rest : string) :
  field_name (pre +:+ rest) →
  textproto.canon_loop true (pre +:+ rest)
  = (pre +:+ textproto.canon_loop upper rest)%string →
  textproto.CanonicalMIMEHeaderKey_check upper rest (pre +:+ rest)
  = textproto.canon_loop true (pre +:+ rest).
Proof.
  revert upper pre. induction rest as [|c rest IH]; intros upper pre Hname Hpre.
  - simpl in *. by rewrite str_app_nil_r in *.
  - cbn [textproto.CanonicalMIMEHeaderKey_check].
    pose proof Hname as [_ Hvalid]. rewrite str_forallb_app in Hvalid.
    apply andb_true_iff in Hvalid as [_ Hvalid]. cbn [str_forallb] in Hvalid.
    apply andb_true_iff in Hvalid as [Hc _]. rewrite Hc. cbn [negb].
    destruct (upper && is_lower c) eqn:Hlow.
    { by rewrite canonicalMIMEHeaderKey_field_name. }
    destruct (negb upper && is_upper c) eqn:Hup.
    { by rewrite canonicalMIMEHeaderKey_field_name. }
    assert (Hsame : canon_byte upper c = c).
    { unfold canon_byte. by rewrite Hlow, Hup. }
    replace (pre +:+ String c rest)%string with ((pre +:+ String c "") +:+ rest)%string
      in * by (by rewrite str_app_assoc).
    apply IH; [done|].
    rewrite Hpre, canon_loop_cons, Hsame. by rewrite str_app_assoc.
Qed.

(** On a field name, [CanonicalMIMEHeaderKey] is the canonicalization. *)
Lemma CanonicalMIMEHeaderKey_field_name (k : string) :
  field_name k →
  textproto.CanonicalMIMEHeaderKey k = textproto.canon_loop true k.
Proof.
  intros Hname. unfold textproto.CanonicalMIMEHeaderKey.
  by apply (CanonicalMIMEHeaderKey_check_valid true "" k).
Qed.

Lemma canon_loop_nonempty (upper : bool) (k : string) :
  k ≠ EmptyString → textproto.canon_loop upper k ≠ EmptyString.
Proof. by destruct k. Qed.

Lemma CanonicalMIMEHeaderKey_canonical (k : string) :
  field_name k → canonical_name (textproto.CanonicalMIMEHeaderKey k).
Proof.
  intros Hname. rewrite CanonicalMIMEHeaderKey_field_name by done.
  destruct Hname as [Hne Hvalid]. repeat split.
  - by apply canon_loop_nonempty.
  - by apply canon_loop_valid.
  - apply canon_loop_idem.
Qed.

(** The values under a key after a run of [add_line]. *)
Lemma foldl_add_line_lookup (lines : list (string * string)) (m : server.Header)
    (K : string) :
  foldl add_line m lines !! K
  = match (filter (λ kv, kv.1 = K) lines).*2 with
    | [] => m !! K
    | vs => Some (default [] (m !! K) ++ vs)
    end.
Proof.
  revert m. induction lines as [|[k v] lines IH]; intros m; [done|].
  cbn [foldl]. rewrite IH. rewrite filter_cons. cbn [fst].
  unfold add_line at 1 2. cbn [fst snd].
  destruct (decide (k = K)) as [->|Hne].
  - rewrite lookup_insert_eq. cbn [fmap list_fmap snd default].
    destruct ((filter (λ kv, kv.1 = K) lines).*2) as [|v' vs]; [done|].
    unfold id. by rewrite <- app_assoc.
  - by rewrite lookup_insert_ne.
Qed.

Lemma added_add_line (adds : list (string * string)) :
  added adds
  = foldl add_line ∅ ((λ kv, (textproto.CanonicalMIMEHeaderKey kv.1, kv.2)) <$> adds).
Proof.
  unfold added, server.NewHeader. generalize (∅ : server.Header).
  induction adds as [|[k v] adds IH]; intros m; [done|].
  cbn [foldl fmap list_fmap]. by rewrite IH.
Qed.

Lemma values_for_fmap (K : string) (adds : list (string * string)) :
  (filter (λ kv, kv.1 = K)
     ((λ kv, (textproto.CanonicalMIMEHeaderKey kv.1, kv.2)) <$> adds)).*2
  = values_for K adds.
Proof.
  unfold values_for. induction adds as [|[k v] adds IH]; [done|].
  cbn [fmap list_fmap]. rewrite !filter_cons. cbn [fst snd].
  destruct (decide _); cbn [fmap list_fmap]; by rewrite <- IH.
Qed.

(** [Add] keeps every value, in the order of the calls. *)
Lemma added_lookup (adds : list (string * string)) (K : string) :
  added adds !! K
  = match values_for K adds with
    | [] => None
    | vs => Some vs
    end.
Proof.
  rewrite added_add_line, foldl_add_line_lookup, values_for_fmap.
  rewrite lookup_empty. done.
Qed.

(** [Get] returns the first of them. *)
Lemma Get_added (adds : list (string * string)) (key : string) :
  server.Get (added adds) key
  = match values_for (textproto.CanonicalMIMEHeaderKey key) adds with
    | [] => Return (EmptyString, false)
    | v :: _ => Return (v, true)
    end.
Proof.
  unfold server.Get. rewrite added_lookup.
  by destruct (values_for _ adds).
Qed.

Lemma elem_of_values_for (K v : string) (adds : list (string * string)) :
  v ∈ values_for K adds →
  ∃ k, (k, v) ∈ adds ∧ textproto.CanonicalMIMEHeaderKey k = K.
Proof.
  unfold values_for. intros ([k v'] & -> & Hin)%list_elem_of_fmap.
  apply list_elem_of_filter in Hin as [HK Hin]. eauto.
Qed.

(** Every entry of a block built from field names and field values has a
    canonical name and at least one value, all of them field values. *)
Lemma added_entries (adds : list (string * string)) (K : string) (vs : list string) :
  Forall (λ kv, field_name kv.1 ∧ field_value kv.2) adds →
  added adds !! K = Some vs →
  canonical_name K ∧ vs ≠ [] ∧ Forall field_value vs.
Proof.
  intros Hadds. rewrite added_lookup.
  destruct (values_for K adds) as [|v0 vs0] eqn:Hvs; [done|].
  intros [= <-]. rewrite Forall_forall in Hadds.
  assert (Hall : ∀ v, v ∈ v0 :: vs0 →
            ∃ k, (k, v) ∈ adds ∧ textproto.CanonicalMIMEHeaderKey k = K).
  { intros v Hv. apply elem_of_values_for. by rewrite Hvs. }
  split; [|split; [done|]].
  - destruct (Hall v0) as (k & Hin & <-); [by constructor|].
    apply CanonicalMIMEHeaderKey_canonical. by apply (Hadds (k, v0)).
  - apply Forall_forall. intros v (k & Hin & _)%Hall. by apply (Hadds (k, v)).
Qed.

(** ** Reading back what [Write] wrote *)

Lemma str_app_cons (c : ascii) (a b : string) :
  (String c a +:+ b)%string = String c (a +:+ b).
Proof. done. Qed.

Lemma drop_CR_snoc (l : string) : bufio.drop_CR (l +:+ String CR "") = l.
Proof.
  unfold bufio.drop_CR. rewrite str_rev_snoc, byte_eqb_refl.
  apply str_rev_involutive.
Qed.

Lemma ReadLine_line (l rest : string) :
  absent LF l = true →
  bufio.ReadLine (l +:+ CRLF +:+ rest) = ((l, None), rest).
Proof.
  intros Hl. unfold bufio.ReadLine, CRLF.
  replace (l +:+ String CR (String LF "") +:+ rest)%string
    with ((l +:+ String CR "") +:+ String LF rest)%string
    by (by rewrite str_app_assoc).
  rewrite str_cut_app.
  - rewrite drop_CR_snoc. by destruct (l +:+ String CR "")%string eqn:E; [destruct l|].
  - unfold absent in *. by rewrite str_forallb_app, Hl.
Qed.

Lemma TrimLeft_no_lead (s : string) :
  no_lead s = true → strings.TrimLeft_sp_ht s = s.
Proof.
  destruct s as [|c s]; [done|]. simpl. intros Hc%negb_true_iff. by rewrite Hc.
Qed.

Lemma skipSpace_no_lead (b : Reader) :
  no_lead b = true → textproto.skipSpace b = (0, b).
Proof.
  destruct b as [|c b]; [done|]. simpl. intros Hc%negb_true_iff. by rewrite Hc.
Qed.

Lemma continuation_no_lead (fuel : nat) (buf : string) (b : Reader) :
  no_lead b = true → textproto.continuation fuel buf b = (buf, b).
Proof.
  intros Hb. destruct fuel; [done|]. simpl. by rewrite skipSpace_no_lead.
Qed.

Lemma field_name_no_lead (k rest : string) :
  field_name k → no_lead (k +:+ rest) = true.
Proof.
  intros [Hne Hk]. destruct k as [|c k]; [done|]. simpl in *.
  apply andb_true_iff in Hk as [Hc _].
  pose proof (field_byte_plain c) as Hp. rewrite Hc in Hp. simpl in Hp.
  apply andb_true_iff in Hp as [[[[_ Hsp]%andb_true_iff Hht]%andb_true_iff _]%andb_true_iff _].
  apply negb_true_iff in Hsp, Hht. by rewrite Hsp, Hht.
Qed.

Lemma field_name_absent (k : string) (c : ascii) :
  c = ":"%char ∨ c = SP ∨ c = HT ∨ c = LF ∨ c = CR →
  field_name k → absent c k = true.
Proof.
  intros Hc [_ Hk]. unfold absent. revert Hk. apply str_forallb_impl.
  intros a Ha. pose proof (field_byte_plain a) as Hp. rewrite Ha in Hp. simpl in Hp.
  repeat (apply andb_true_iff in Hp as [Hp ?]).
  destruct Hc as [->|[->|[->|[->| ->]]]]; done.
Qed.

Lemma field_value_absent (v : string) (c : ascii) :
  c = LF ∨ c = CR → field_value v → absent c v = true.
Proof.
  intros Hc [Hv _]. unfold absent. revert Hv. apply str_forallb_impl.
  intros a Ha. pose proof (value_byte_plain a) as Hp. rewrite Ha in Hp. simpl in Hp.
  apply andb_true_iff in Hp as [? ?]. destruct Hc as [->| ->]; done.
Qed.

Lemma leading_space_no_lead (rv : bool) (s : string) :
  leading_space rv s = false → no_lead s = true.
Proof.
  destruct s as [|c s]; [done|]. simpl. intros [Hc _]%orb_false_iff.
  pose proof (space_byte_sp_ht c) as Hp. rewrite Hc in Hp.
  by destruct (byte_eqb c SP || byte_eqb c HT).
Qed.

Lemma trim_left_space_none (rv : bool) (s : string) :
  leading_space rv s = false → strings.trim_left_space rv s = s.
Proof.
  destruct s as [|c1 [|c2 [|c3 s]]]; simpl; try done.
  - by intros [-> _]%orb_false_iff.
  - intros [-> [-> _]%orb_false_iff]%orb_false_iff. done.
  - intros [-> [-> ->]%orb_false_iff]%orb_false_iff. done.
Qed.

Lemma TrimSpace_field_value (v : string) : field_value v → strings.TrimSpace v = v.
Proof.
  intros (_ & Hl & Hr). unfold strings.TrimSpace.
  rewrite (trim_left_space_none false) by done.
  rewrite (trim_left_space_none true) by done.
  apply str_rev_involutive.
Qed.

Lemma newlineToSpace_field_value (v : string) :
  field_value v → server.newlineToSpace v = v.
Proof.
  intros Hv.
  pose proof (field_value_absent v LF (or_introl eq_refl) Hv) as HLF.
  pose proof (field_value_absent v CR (or_intror eq_refl) Hv) as HCR.
  unfold server.newlineToSpace, absent in *. clear Hv.
  induction v as [|c v IH]; [done|]. simpl in *.
  apply andb_true_iff in HLF as [Hc1 HLF], HCR as [Hc2 HCR].
  apply negb_true_iff in Hc1, Hc2.
  rewrite IH by done. unfold strings.newlineToSpace_byte. by rewrite Hc1, Hc2.
Qed.

Lemma Write_value_field_value (v : string) : field_value v → server.Write_value v = v.
Proof.
  intros Hv. unfold server.Write_value.
  rewrite newlineToSpace_field_value by done. by apply TrimSpace_field_value.
Qed.

(** [trim] on a line [key: value]. *)
Lemma trim_line (k v : string) :
  field_name k → field_value v →
  textproto.trim (k +:+ ": " +:+ v) = trimmed_line k v.
Proof.
  intros Hk Hv. unfold textproto.trim.
  rewrite (TrimLeft_no_lead (k +:+ _)) by by apply field_name_no_lead.
  destruct v as [|c v].
  - rewrite str_rev_app_distr. simpl.
    change (str_rev ": ") with (String SP (String ":" "")).
    cbn [String.append strings.TrimLeft_sp_ht].
    change (byte_eqb SP SP || byte_eqb SP HT) with true. cbv iota.
    change (byte_eqb ":" SP || byte_eqb ":" HT) with false. cbv iota.
    change (String ":" (str_rev k)) with (str_rev (String ":" "") +:+ str_rev k)%string.
    by rewrite <- str_rev_app_distr, str_rev_involutive.
  - cbn [trimmed_line].
    rewrite TrimLeft_no_lead; [apply str_rev_involutive|].
    rewrite <- str_app_assoc, str_rev_app_distr.
    destruct Hv as (_ & _ & Hr). apply leading_space_no_lead in Hr.
    destruct (str_rev (String c v)) as [|c' r] eqn:Hrev; [|done].
    apply (f_equal str_rev) in Hrev. by rewrite str_rev_involutive in Hrev.
Qed.

Lemma trimmed_line_cut (k v : string) :
  field_name k →
  str_cut ":" (trimmed_line k v)
  = Some (k, match v with EmptyString => EmptyString | _ => (" " +:+ v)%string end).
Proof.
  intros Hk. pose proof (field_name_absent k ":" (or_introl eq_refl) Hk) as Hcolon.
  destruct v as [|c v]; cbn [trimmed_line].
  - exact (str_cut_app ":" k "" Hcolon).
  - exact (str_cut_app ":" k (" " +:+ String c v) Hcolon).
Qed.

Lemma readContinuedLineSlice_line (k v rest : string) :
  field_name k → field_value v → no_lead rest = true →
  textproto.readContinuedLineSlice (k +:+ ": " +:+ v +:+ CRLF +:+ rest)
  = ((trimmed_line k v, None), rest).
Proof.
  intros Hk Hv Hrest. unfold textproto.readContinuedLineSlice, textproto.ReadLine.
  replace (k +:+ ": " +:+ v +:+ CRLF +:+ rest)%string
    with ((k +:+ ": " +:+ v) +:+ CRLF +:+ rest)%string
    by (by rewrite !str_app_assoc).
  rewrite ReadLine_line.
  2:{ unfold absent. rewrite !str_forallb_app.
      fold (absent LF k). fold (absent LF v).
      rewrite field_name_absent, field_value_absent by auto. done. }
  destruct (k +:+ ": " +:+ v)%string as [|c l] eqn:Hline.
  { destruct Hk as [Hne _]. by destruct k. }
  rewrite <- Hline.
  assert (Hcut : str_cut ":" (k +:+ ": " +:+ v) = Some (k, (" " +:+ v)%string)).
  { apply (str_cut_app ":" k (" " +:+ v)).
    apply field_name_absent; auto. }
  rewrite Hcut, continuation_no_lead by done.
  by rewrite trim_line.
Qed.

(** One round of the header loop on a line that [Write] wrote. *)
Lemma readMIMEHeader_loop_line (fuel : nat) (m : server.Header) (k v rest : string) :
  canonical_name k → field_value v → no_lead rest = true →
  textproto.readMIMEHeader_loop (S fuel) m (k +:+ ": " +:+ v +:+ CRLF +:+ rest)
  = textproto.readMIMEHeader_loop fuel (add_line m (k, v)) rest.
Proof.
  intros [Hk Hcanon] Hv Hrest. cbn [textproto.readMIMEHeader_loop].
  rewrite readContinuedLineSlice_line by done.
  destruct (trimmed_line k v) as [|c l] eqn:Hline.
  { destruct Hk as [Hne _]. by destruct k, v. }
  rewrite <- Hline, trimmed_line_cut by done.
  rewrite canonicalMIMEHeaderKey_field_name, Hcanon by done.
  assert (Hvalue : str_forallb textproto.validHeaderValueByte
                     match v with EmptyString => EmptyString | _ => (" " +:+ v)%string end
                   = true).
  { destruct Hv as [Hv _]. destruct v; [done|]. simpl in *. done. }
  rewrite Hvalue. cbn [negb].
  assert (Htrim : strings.TrimLeft_sp_ht
                    match v with EmptyString => EmptyString | _ => (" " +:+ v)%string end
                  = v).
  { destruct v as [|c' v']; [done|].
    change (strings.TrimLeft_sp_ht (" " +:+ String c' v'))
      with (strings.TrimLeft_sp_ht (String c' v')).
    apply TrimLeft_no_lead. destruct Hv as (_ & Hl & _).
    by apply leading_space_no_lead in Hl. }
  by rewrite Htrim.
Qed.

Lemma readMIMEHeader_loop_end (fuel : nat) (m : server.Header) :
  textproto.readMIMEHeader_loop (S fuel) m CRLF = ((m, None), EmptyString).
Proof. done. Qed.

Lemma wire_lines_no_lead (lines : list (string * string)) :
  Forall (λ kv, canonical_name kv.1 ∧ field_value kv.2) lines →
  no_lead (wire_lines lines +:+ CRLF) = true.
Proof.
  intros [|[k v] rest [[Hk _] _] _]; [done|].
  cbn [wire_lines]. rewrite str_app_assoc. by apply field_name_no_lead.
Qed.

(** The header loop on the lines of a block and the blank line after
    them. *)
Lemma readMIMEHeader_loop_lines (lines : list (string * string)) (fuel : nat)
    (m : server.Header) :
  Forall (λ kv, canonical_name kv.1 ∧ field_value kv.2) lines →
  length lines < fuel →
  textproto.readMIMEHeader_loop fuel m (wire_lines lines +:+ CRLF)
  = ((foldl add_line m lines, None), EmptyString).
Proof.
  revert fuel m. induction lines as [|[k v] lines IH]; intros fuel m Hall Hfuel.
  - destruct fuel; [simpl in Hfuel; lia|]. apply readMIMEHeader_loop_end.
  - destruct fuel; [simpl in Hfuel; lia|].
    apply Forall_cons in Hall as [[Hk Hv] Hall]. cbn [fst snd] in *.
    cbn [wire_lines foldl]. rewrite !str_app_assoc.
    rewrite readMIMEHeader_loop_line by (done || by apply wire_lines_no_lead).
    apply IH; [done|]. simpl in Hfuel. lia.
Qed.

Lemma wire_lines_length (lines : list (string * string)) :
  length lines ≤ String.length (wire_lines lines).
Proof.
  induction lines as [|[k v] lines IH]; [done|].
  cbn [wire_lines length]. rewrite !str_length_app. simpl. lia.
Qed.

Lemma ReadMIMEHeader_lines (lines : list (string * string)) :
  Forall (λ kv, canonical_name kv.1 ∧ field_value kv.2) lines →
  textproto.ReadMIMEHeader (wire_lines lines +:+ CRLF)
  = ((foldl add_line ∅ lines, None), EmptyString).
Proof.
  intros Hall. unfold textproto.ReadMIMEHeader.
  pose proof (wire_lines_no_lead lines Hall) as Hlead.
  assert (Hloop : textproto.readMIMEHeader_loop
                    (S (String.length (wire_lines lines +:+ CRLF))) ∅
                    (wire_lines lines +:+ CRLF)
                  = ((foldl add_line ∅ lines, None), EmptyString)).
  { apply readMIMEHeader_loop_lines; [done|].
    pose proof (wire_lines_length lines). rewrite str_length_app. lia. }
  destruct (wire_lines lines +:+ CRLF)%string as [|c b] eqn:Hb; [done|].
  simpl in Hlead. apply negb_true_iff in Hlead. by rewrite Hlead.
Qed.

Lemma stored_lines_values (entries : list (string * list string)) (K : string) :
  NoDup entries.*1 →
  (filter (λ kv, kv.1 = K) (stored_lines entries)).*2
  = default [] ((list_to_map entries : server.Header) !! K).
Proof.
  unfold stored_lines.
  induction entries as [|[k vs] entries IH]; intros Hnodup; [done|].
  apply NoDup_cons in Hnodup as [Hk Hnodup]. cbn [fmap list_fmap fst] in Hk.
  cbn [mbind list_bind list_to_map foldr]. rewrite filter_app, fmap_app, IH by done.
  destruct (decide (k = K)) as [->|Hne].
  - rewrite lookup_insert_eq. rewrite (not_elem_of_list_to_map_1 _ K) by done.
    cbn [default]. rewrite app_nil_r.
    clear. induction vs as [|v vs IH]; [done|].
    cbn [fmap list_fmap]. rewrite filter_cons_True by done.
    cbn [fmap list_fmap snd]. by rewrite IH.
  - rewrite lookup_insert_ne by done.
    assert (Hnone : filter (λ kv, kv.1 = K) ((λ v, (k, v)) <$> vs) = []).
    { clear -Hne. induction vs as [|v vs IH]; [done|].
      cbn [fmap list_fmap]. by rewrite filter_cons_False. }
    by rewrite Hnone.
Qed.

(** Reading the stored lines of the entries of a block, in any order of the
    keys, builds the block again. *)
Lemma foldl_add_line_entries (h : server.Header) (entries : list (string * list string)) :
  (∀ K vs, h !! K = Some vs → vs ≠ []) →
  entries ≡ₚ map_to_list h →
  foldl add_line ∅ (stored_lines entries) = h.
Proof.
  intros Hne Hperm.
  assert (Hnodup : NoDup entries.*1).
  { rewrite Hperm. apply NoDup_fst_map_to_list. }
  assert (Hh : (list_to_map entries : server.Header) = h).
  { rewrite <- (list_to_map_to_list h). by apply list_to_map_proper. }
  apply map_eq. intros K.
  rewrite foldl_add_line_lookup, stored_lines_values, Hh, lookup_empty by done.
  destruct (h !! K) as [vs|] eqn:HK; [|done].
  cbn [default]. specialize (Hne K vs HK). by destruct vs.
Qed.

Lemma emitted_stored (entries : list (string * list string)) :
  (∀ k vs, (k, vs) ∈ entries → Forall field_value vs) →
  emitted entries = stored_lines entries.
Proof.
  unfold emitted, stored_lines.
  induction entries as [|[k vs] entries IH]; intros Hall; [done|].
  cbn [mbind list_bind]. rewrite IH.
  - f_equal. specialize (Hall k vs ltac:(by constructor)).
    induction Hall as [|v vs Hv _ IHvs]; [done|].
    cbn [fmap list_fmap]. by rewrite Write_value_field_value, IHvs.
  - intros k' vs' Hin. apply (Hall k' vs'). by constructor.
Qed.

Lemma stored_lines_Forall (P : string * string → Prop)
    (entries : list (string * list string)) :
  (∀ k vs v, (k, vs) ∈ entries → v ∈ vs → P (k, v)) →
  Forall P (stored_lines entries).
Proof.
  intros HP. apply Forall_forall. intros [k v]. unfold stored_lines.
  intros ([k' vs] & Hin & Hentry)%list_elem_of_bind.
  apply list_elem_of_fmap in Hin as (v' & [= -> ->] & Hv). eauto.
Qed.

(** The round trip for a block whose entries have canonical names and field
    values. *)
Lemma Write_ReadMIMEHeader (h : server.Header) (out : string) :
  (∀ K vs, h !! K = Some vs → canonical_name K ∧ vs ≠ [] ∧ Forall field_value vs) →
  server.Write h out →
  textproto.ReadMIMEHeader (out +:+ CRLF) = ((h, None), EmptyString).
Proof.
  intros Hh [entries Hperm].
  assert (Hentries : ∀ k vs, (k, vs) ∈ entries →
            canonical_name k ∧ vs ≠ [] ∧ Forall field_value vs).
  { intros k vs Hin. apply Hh. apply elem_of_map_to_list. by rewrite <- Hperm. }
  rewrite Write_entries_wire, emitted_stored.
  2:{ intros k vs Hin. by apply (Hentries k vs). }
  rewrite ReadMIMEHeader_lines.
  - rewrite (foldl_add_line_entries h); [done| |done].
    intros K vs HK. by apply (Hh K vs).
  - apply stored_lines_Forall. intros k vs v Hin Hv. cbn [fst snd].
    destruct (Hentries k vs Hin) as (Hk & _ & Hvs).
    split; [done|]. rewrite Forall_forall in Hvs. auto.
Qed.

(** C5, amended: a header block built by a sequence of [Add] calls keeps,
    under each canonical key, the values added for it in the order of the
    calls, and [Get] returns the first of them, or the empty string and
    false when there is none.  When the keys are field names (non-empty
    tokens) and the values are made of bytes that are valid in a field
    value and have no white space at either end, reading back what [Write]
    wrote, in whatever order of the keys, followed by the blank line, gives
    the same block and consumes all of it. *)
Theorem Add_Get_Write_roundtrip (adds : list (string * string)) :
  let h := added adds in
  (∀ K, default [] (h !! K) = values_for K adds)
  ∧ (∀ key, server.Get h key
            = match values_for (textproto.CanonicalMIMEHeaderKey key) adds with
              | [] => Return (EmptyString, false)
              | v :: _ => Return (v, true)
              end)
  ∧ (Forall (λ kv, field_name kv.1 ∧ field_value kv.2) adds →
     ∀ out, server.Write h out →
            textproto.ReadMIMEHeader (out +:+ CRLF) = ((h, None), EmptyString)).
Proof.
  intros h. split; [|split].
  - intros K. unfold h. rewrite added_lookup. by destruct (values_for K adds).
  - apply Get_added.
  - intros Hadds out Hwrite. apply Write_ReadMIMEHeader; [|done].
    intros K vs HK. by apply (added_entries adds).
Qed.

Lemma Write_name_adds :
  server.Write (added name_adds)
    (line "Notification-Name: Bar" +:+ line "Notification-Name: Baz").
Proof.
  apply (server.Write_range (added name_adds) [("Notification-Name", ["Bar"; "Baz"])]).
  replace (added name_adds)
    with ({[ "Notification-Name" := ["Bar"; "Baz"] ]} : server.Header)
    by (vm_compute; reflexivity).
  by rewrite map_to_list_singleton.
Defined.

Lemma name_adds_fields :
  Forall (λ kv, field_name kv.1 ∧ field_value kv.2) name_adds.
Proof. repeat constructor; discriminate. Defined.

Lemma Add_Get_Write_roundtrip_witness :
  server.Get (added name_adds) "notification-NAME" = Return ("Bar", true)
  ∧ textproto.ReadMIMEHeader
      (line "Notification-Name: Bar" +:+ line "Notification-Name: Baz" +:+ CRLF)
    = ((added name_adds, None), EmptyString).
Proof.
  destruct (Add_Get_Write_roundtrip name_adds) as (_ & Hget & Hround).
  split.
  - exact (Hget "notification-NAME").
  - exact (Hround name_adds_fields _ Write_name_adds).
Defined.

(** Without a condition on the keys the round trip fails, for values with
    no line end and no white space at either end: the key [a:b] is written
    as the line [a:b: v], which reads back as the key [A] with the value
    [b: v]. *)
Lemma roundtrip_colon_key_counterexample :
  ¬ (∀ (adds : list (string * string)) (out : string),
       Forall (λ kv, plain_value kv.2) adds →
       server.Write (added adds) out →
       textproto.ReadMIMEHeader (out +:+ CRLF) = ((added adds, None), EmptyString)).
Proof.
  intros Hround.
  assert (Hwrite : server.Write (added colon_adds) (line "a:b: v")).
  { apply (server.Write_range (added colon_adds) [("a:b", ["v"])]).
    replace (added colon_adds) with ({[ "a:b" := ["v"] ]} : server.Header)
      by (vm_compute; reflexivity).
    by rewrite map_to_list_singleton. }
  specialize (Hround colon_adds _ ltac:(repeat constructor) Hwrite).
  assert (Hread : textproto.ReadMIMEHeader (line "a:b: v" +:+ CRLF)
                  = (({[ "A" := ["b: v"] ]}, None), EmptyString))
    by (vm_compute; reflexivity).
  rewrite Hread in Hround.
  apply (f_equal (λ r : server.Header * option error * string, r.1.1 !! "A")) in Hround.
  vm_compute in Hround. discriminate.
Qed.

(** So does it for a value with a control byte in it, which
    [ReadMIMEHeader] refuses. *)
Lemma roundtrip_control_byte :
  Forall (λ kv, field_name kv.1 ∧ plain_value kv.2) control_adds
  ∧ server.Write (added control_adds) (line ("Key: " +:+ control_value))
  ∧ ∃ err, (textproto.ReadMIMEHeader
              (line ("Key: " +:+ control_value) +:+ CRLF)).1.2 = Some err.
Proof.
  split; [repeat constructor; discriminate|]. split.
  - apply (server.Write_range (added control_adds) [("Key", [control_value])]).
    replace (added control_adds)
      with ({[ "Key" := [control_value] ]} : server.Header)
      by (vm_compute; reflexivity).
    by rewrite map_to_list_singleton.
  - eexists. vm_compute. reflexivity.
Qed.

(** ** The loops of [ReadMIMEHeader] never use their fuel up *)

Lemma str_cut_length (c : ascii) (s l r : string) :
  str_cut c s = Some (l, r) → String.length s = String.length l + 1 + String.length r.
Proof.
  intros [-> _]%str_cut_Some. rewrite str_length_app. simpl. lia.
Qed.

Lemma ReadLine_consumes (b : Reader) (l : string) (b1 : Reader) :
  bufio.ReadLine b = ((l, None), b1) → String.length b1 < String.length b.
Proof.
  unfold bufio.ReadLine. destruct b as [|c b]; [done|].
  destruct (str_cut LF (String c b)) as [[l0 r]|] eqn:Hcut.
  - intros [= _ <-]. apply str_cut_length in Hcut. lia.
  - intros [= _ <-]. simpl. lia.
Qed.

Lemma ReadLine_rest (b : Reader) (res : string * option error) (b1 : Reader) :
  bufio.ReadLine b = (res, b1) → String.length b1 ≤ String.length b.
Proof.
  destruct res as [l [err|]].
  - unfold bufio.ReadLine. destruct b as [|c b]; [by intros [= _ _ <-]|].
    by destruct (str_cut LF (String c b)) as [[l0 r]|].
  - intros ?%ReadLine_consumes. lia.
Qed.

Lemma skipSpace_length (b : Reader) (n : nat) (b1 : Reader) :
  textproto.skipSpace b = (n, b1) → String.length b1 + n = String.length b.
Proof.
  revert n b1. induction b as [|c b IH]; intros n b1; simpl.
  - by intros [= <- <-].
  - destruct (byte_eqb c SP || byte_eqb c HT).
    + destruct (textproto.skipSpace b) as [n' r] eqn:Hskip.
      intros [= <- <-]. specialize (IH n' r eq_refl). lia.
    + by intros [= <- <-].
Qed.

Lemma continuation_fuel (fuel fuel' : nat) (buf : string) (b : Reader) :
  String.length b ≤ fuel → String.length b ≤ fuel' →
  textproto.continuation fuel buf b = textproto.continuation fuel' buf b.
Proof.
  revert fuel' buf b. induction fuel as [|fuel IH]; intros fuel' buf b Hf Hf'.
  - destruct b; [|simpl in Hf; lia]. by destruct fuel'.
  - destruct fuel' as [|fuel'].
    { destruct b; [done|simpl in Hf'; lia]. }
    cbn [textproto.continuation].
    destruct (textproto.skipSpace b) as [[|n] b1] eqn:Hskip; [done|].
    apply skipSpace_length in Hskip.
    destruct (textproto.ReadLine b1) as [[l [err|]] b2] eqn:Hline; [done|].
    apply ReadLine_consumes in Hline. apply IH; lia.
Qed.

Lemma continuation_rest (fuel : nat) (buf : string) (b : Reader) (buf' : string)
    (b' : Reader) :
  textproto.continuation fuel buf b = (buf', b') → String.length b' ≤ String.length b.
Proof.
  revert buf b. induction fuel as [|fuel IH]; intros buf b; simpl.
  - by intros [= _ <-].
  - destruct (textproto.skipSpace b) as [[|n] b1] eqn:Hskip.
    + apply skipSpace_length in Hskip. intros [= _ <-]. lia.
    + apply skipSpace_length in Hskip.
      destruct (textproto.ReadLine b1) as [[l [err|]] b2] eqn:Hline.
      * apply ReadLine_rest in Hline. intros [= _ <-]. lia.
      * apply ReadLine_rest in Hline. intros Hc%IH. lia.
Qed.

Lemma readContinuedLineSlice_consumes (b : Reader) (c : ascii) (kv : string)
    (err : option error) (b1 : Reader) :
  textproto.readContinuedLineSlice b = ((String c kv, err), b1) →
  String.length b1 < String.length b.
Proof.
  unfold textproto.readContinuedLineSlice.
  destruct (textproto.ReadLine b) as [[l [e|]] b0] eqn:Hline; [done|].
  apply ReadLine_consumes in Hline.
  destruct l as [|c0 l]; [done|].
  destruct (str_cut ":" (String c0 l)); [|done].
  destruct (textproto.continuation _ _ b0) as [buf b2] eqn:Hcont.
  apply continuation_rest in Hcont. intros [= _ _ <-]. lia.
Qed.

(** With more fuel than there are bytes, the header loop does not depend on
    the fuel: it stops before the fuel does. *)
Lemma readMIMEHeader_loop_fuel (fuel fuel' : nat) (m : server.Header) (b : Reader) :
  String.length b < fuel → String.length b < fuel' →
  textproto.readMIMEHeader_loop fuel m b = textproto.readMIMEHeader_loop fuel' m b.
Proof.
  revert fuel' m b. induction fuel as [|fuel IH]; intros fuel' m b Hf Hf'; [lia|].
  destruct fuel' as [|fuel']; [lia|].
  cbn [textproto.readMIMEHeader_loop].
  destruct (textproto.readContinuedLineSlice b) as [[[|c kv] err] b1] eqn:Hread;
    [done|].
  apply readContinuedLineSlice_consumes in Hread.
  destruct (str_cut ":" (String c kv)) as [[k v]|]; [|done].
  destruct (textproto.canonicalMIMEHeaderKey k) as [key [|]]; [|done].
  destruct (negb _); [done|].
  apply IH; lia.
Qed.

(** * Further properties *)

(** ** Field names are looked up without regard to case *)

Lemma canon_byte_lower :
  ∀ c, (Ascii.eqb (canon_byte true (lower_byte c)) (canon_byte true c)
        && Ascii.eqb (canon_byte false (lower_byte c)) (canon_byte false c)) = true.
Proof. all_bytes. Qed.

Lemma canon_loop_fold_case (upper : bool) (k : string) :
  textproto.canon_loop upper (fold_case k) = textproto.canon_loop upper k.
Proof.
  revert upper. induction k as [|c k IH]; intros upper; [done|].
  unfold fold_case in *. cbn [str_map]. rewrite !canon_loop_cons.
  pose proof (canon_byte_lower c) as [Ht Hf]%andb_true_iff.
  apply Ascii.eqb_eq in Ht, Hf.
  assert (Hc : canon_byte upper (lower_byte c) = canon_byte upper c) by by destruct upper.
  by rewrite Hc, IH.
Qed.

Lemma CanonicalMIMEHeaderKey_fold_case (k k' : string) :
  field_name k → field_name k' → fold_case k = fold_case k' →
  textproto.CanonicalMIMEHeaderKey k = textproto.CanonicalMIMEHeaderKey k'.
Proof.
  intros Hk Hk' Hfold. rewrite !CanonicalMIMEHeaderKey_field_name by done.
  by rewrite <- (canon_loop_fold_case true k), Hfold, canon_loop_fold_case.
Qed.

(** Two field names that differ in case only are one key of a header
    block: what [Set] or [Add] stores under one spelling, [Get] finds under
    the other, what [Del] removes under one is gone under the other, and
    [Get] gives the same for both on every block. *)
Theorem Header_key_case_insensitive (k k' : string) :
  field_name k → field_name k' → fold_case k = fold_case k' →
  ∀ (h : server.Header) (v : string),
    server.Get h k = server.Get h k'
    ∧ server.Get (server.Set_ h k v) k' = Return (v, true)
    ∧ server.Get (server.Add server.NewHeader k v) k' = Return (v, true)
    ∧ server.Get (server.Del h k v) k' = Return (EmptyString, false).
Proof.
  intros Hk Hk' Hfold h v.
  pose proof (CanonicalMIMEHeaderKey_fold_case k k' Hk Hk' Hfold) as Hcanon.
  unfold server.Get, server.Set_, server.Add, server.Del, textproto.Set_,
    textproto.Add, textproto.Del, server.NewHeader.
  rewrite <- Hcanon. rewrite !lookup_insert_eq, lookup_delete_eq, lookup_empty. done.
Qed.

Lemma field_name_intro (k : string) :
  bool_decide (k ≠ EmptyString) && str_forallb textproto.validHeaderFieldByte k = true →
  field_name k.
Proof. intros [Hne%bool_decide_eq_true Hk]%andb_true_iff. done. Qed.

Lemma Header_key_case_insensitive_witness :
  server.Get (server.Set_ ∅ "notification-NAME" "Bar") "Notification-name"
  = Return ("Bar", true).
Proof.
  exact (proj1 (proj2 (Header_key_case_insensitive "notification-NAME" "Notification-name"
                         (field_name_intro "notification-NAME" eq_refl)
                         (field_name_intro "Notification-name" eq_refl) eq_refl
                         ∅ "Bar"))).
Defined.

(** ** Canonicalization is idempotent *)

Lemma looks_like_key_noCanon (a : string) :
  textproto.looks_like_key a true ≠ Some false.
Proof.
  induction a as [|c a IH]; [done|]. simpl.
  destruct (textproto.validHeaderFieldByte c); [done|].
  by destruct (byte_eqb c SP).
Qed.

Lemma looks_like_key_invalid (a : string) (noCanon : bool) :
  str_forallb textproto.validHeaderFieldByte a = false →
  textproto.looks_like_key a noCanon ≠ Some false.
Proof.
  revert noCanon. induction a as [|c a IH]; intros noCanon; [done|]. simpl.
  destruct (textproto.validHeaderFieldByte c); simpl.
  - apply IH.
  - intros _. destruct (byte_eqb c SP); [apply looks_like_key_noCanon | done].
Qed.

Lemma canonicalMIMEHeaderKey_invalid (s : string) :
  str_forallb textproto.validHeaderFieldByte s = false →
  (textproto.canonicalMIMEHeaderKey s).1 = s.
Proof.
  intros Hs. unfold textproto.canonicalMIMEHeaderKey.
  destruct s as [|c s]; [done|].
  pose proof (looks_like_key_invalid (String c s) false Hs) as Hlook.
  by destruct (textproto.looks_like_key (String c s) false) as [[|]|].
Qed.

Lemma CanonicalMIMEHeaderKey_check_invalid (upper : bool) (rest s : string) :
  str_forallb textproto.validHeaderFieldByte s = false →
  textproto.CanonicalMIMEHeaderKey_check upper rest s = s.
Proof.
  intros Hs. revert upper. induction rest as [|c rest IH]; intros upper; [done|].
  simpl. destruct (textproto.validHeaderFieldByte c); simpl; [|done].
  destruct (upper && is_lower c); [by apply canonicalMIMEHeaderKey_invalid|].
  destruct (negb upper && is_upper c); [by apply canonicalMIMEHeaderKey_invalid|].
  apply IH.
Qed.

(** [CanonicalMIMEHeaderKey] leaves its own results as they are, for every
    string: a key that was canonicalized once is found again by [Get], and
    a string that is not a field name is a key as it stands. *)
Theorem CanonicalMIMEHeaderKey_idempotent (s : string) :
  textproto.CanonicalMIMEHeaderKey (textproto.CanonicalMIMEHeaderKey s)
  = textproto.CanonicalMIMEHeaderKey s
  ∧ (∀ h : server.Header,
       server.Get h (textproto.CanonicalMIMEHeaderKey s) = server.Get h s)
  ∧ (str_forallb textproto.validHeaderFieldByte s = false →
     textproto.CanonicalMIMEHeaderKey s = s).
Proof.
  assert (Hidem : textproto.CanonicalMIMEHeaderKey (textproto.CanonicalMIMEHeaderKey s)
                  = textproto.CanonicalMIMEHeaderKey s).
  { destruct (str_forallb textproto.validHeaderFieldByte s) eqn:Hs.
    - destruct s as [|c s]; [done|].
      assert (Hname : field_name (String c s)) by (by split).
      destruct (CanonicalMIMEHeaderKey_canonical _ Hname) as [Hname' Hfix].
      rewrite (CanonicalMIMEHeaderKey_field_name _ Hname'). exact Hfix.
    - assert (Hsame : textproto.CanonicalMIMEHeaderKey s = s)
        by by apply CanonicalMIMEHeaderKey_check_invalid.
      by rewrite !Hsame. }
  split; [done|]. split.
  - intros h. unfold server.Get. by rewrite Hidem.
  - intros Hs. by apply CanonicalMIMEHeaderKey_check_invalid.
Qed.

Lemma CanonicalMIMEHeaderKey_idempotent_witness :
  textproto.CanonicalMIMEHeaderKey "not a: field name" = "not a: field name".
Proof.
  exact (proj2 (proj2 (CanonicalMIMEHeaderKey_idempotent "not a: field name")) eq_refl).
Defined.

(** ** Numbers and their decimal texts *)

Lemma decimal_from_uint_acc (d : Decimal.uint) (acc : positive) :
  decimal_from (Zpos acc) (NilEmpty.string_of_uint d) = Zpos (Pos.of_uint_acc d acc).
Proof.
  revert acc. induction d as [|d IH|d IH|d IH|d IH|d IH|d IH|d IH|d IH|d IH|d IH];
    intros acc; [done|..];
    cbn [NilEmpty.string_of_uint decimal_from Pos.of_uint_acc];
    rewrite <- IH; f_equal; vm_compute byte_val; lia.
Qed.

Lemma decimal_from_uint (d : Decimal.uint) :
  decimal (NilEmpty.string_of_uint d) = Z.of_N (Pos.of_uint d).
Proof.
  unfold decimal.
  induction d as [|d IH|d IH|d IH|d IH|d IH|d IH|d IH|d IH|d IH|d IH]; [done|exact IH|..];
    cbn [NilEmpty.string_of_uint decimal_from Pos.of_uint Z.of_N];
    rewrite <- decimal_from_uint_acc; done.
Qed.

Lemma string_of_uint_digits (d : Decimal.uint) :
  str_forallb is_digit (NilEmpty.string_of_uint d) = true.
Proof. induction d; simpl; done. Qed.

(** The text of a number that is not negative is a string of digits that
    denotes it. *)
Lemma Itoa_digits (n : Z) :
  (0 ≤ n)%Z → digits (strconv.Itoa n) ∧ decimal (strconv.Itoa n) = n.
Proof.
  intros Hn. destruct n as [|p|p]; [done| |lia].
  unfold strconv.Itoa. cbn [Z.to_int NilZero.string_of_int].
  pose proof (Unsigned.to_uint_nonnil p) as Hnil.
  assert (Hs : NilZero.string_of_uint (Pos.to_uint p)
               = NilEmpty.string_of_uint (Pos.to_uint p)).
  { by destruct (Pos.to_uint p). }
  rewrite Hs. split; [split|].
  - by destruct (Pos.to_uint p).
  - apply string_of_uint_digits.
  - by rewrite decimal_from_uint, Unsigned.of_to.
Qed.

Lemma Itoa_negative (p : positive) :
  strconv.Itoa (Zneg p) = String "-" (strconv.Itoa (Zpos p)).
Proof. done. Qed.

Lemma digit_not_sign :
  ∀ c, implb (is_digit c) (negb (byte_eqb c "+") && negb (byte_eqb c "-")) = true.
Proof. all_bytes. Qed.

Lemma minus_not_digit : is_digit "-" = false.
Proof. done. Qed.

Lemma ParseUint_loop_digits (s : string) (n : Z) :
  str_forallb is_digit s = true → (0 ≤ n)%Z →
  (decimal_from n s ≤ strconv.maxUint64)%Z →
  strconv.ParseUint_loop s n = (decimal_from n s, None).
Proof.
  revert n. induction s as [|c s IH]; intros n Hs Hn Hmax; [done|].
  simpl in Hs. apply andb_true_iff in Hs as [Hc Hs].
  pose proof (is_digit_val c Hc) as Hv.
  cbn [strconv.ParseUint_loop decimal_from] in *. rewrite Hc.
  pose proof (decimal_from_le (n * 10 + (byte_val c - 48)) s Hs ltac:(lia)) as Hle.
  unfold strconv.cutoff10, strconv.maxUint64 in *.
  rewrite (proj2 (Z.leb_gt _ n)) by (change (2 ^ 64 - 1)%Z with 18446744073709551615%Z in *;
                                     change (18446744073709551615 / 10 + 1)%Z
                                       with 1844674407370955162%Z; lia).
  rewrite (proj2 (Z.ltb_ge _ _)) by lia.
  apply IH; [done|lia|done].
Qed.

Lemma ParseUint_digits (s : string) :
  digits s → (decimal s ≤ strconv.maxUint64)%Z →
  strconv.ParseUint s = (decimal s, None).
Proof.
  intros [Hne Hs] Hmax. unfold strconv.ParseUint.
  destruct s as [|c s]; [done|]. by apply ParseUint_loop_digits.
Qed.

(** [ParseInt] reads back what [Itoa] writes, for every [int64]. *)
Lemma ParseInt_Itoa (n : Z) :
  (- 2 ^ 63 ≤ n < 2 ^ 63)%Z → strconv.ParseInt (strconv.Itoa n) = (n, None).
Proof.
  intros Hn. destruct n as [|p|p]; [done| |].
  - destruct (Itoa_digits (Zpos p) ltac:(lia)) as [Hd Hv].
    unfold strconv.ParseInt.
    destruct (strconv.Itoa (Zpos p)) as [|c s] eqn:Hs; [by destruct Hd|].
    assert (Hc : is_digit c = true).
    { destruct Hd as [_ Hd]. simpl in Hd. by apply andb_true_iff in Hd as [? _]. }
    pose proof (digit_not_sign c) as Hsign. rewrite Hc in Hsign. simpl in Hsign.
    apply andb_true_iff in Hsign as [Hplus%negb_true_iff Hminus%negb_true_iff].
    rewrite Hplus, Hminus. cbn [orb negb andb].
    rewrite ParseUint_digits by (done || (rewrite Hv; unfold strconv.maxUint64; lia)).
    rewrite Hv. rewrite (proj2 (Z.leb_gt _ _)) by lia. done.
  - rewrite Itoa_negative.
    destruct (Itoa_digits (Zpos p) ltac:(lia)) as [Hd Hv].
    unfold strconv.ParseInt.
    change (byte_eqb "-" "-") with true. change (byte_eqb "-" "+") with false.
    cbn [orb negb andb].
    rewrite ParseUint_digits by (done || (rewrite Hv; unfold strconv.maxUint64; lia)).
    rewrite Hv. rewrite (proj2 (Z.ltb_ge _ _)) by lia. done.
Qed.

Lemma parseGntpVersion_minor_sign (d1 x : string) :
  digits d1 →
  server.parseGntpVersion ("GNTP/" +:+ d1 +:+ "." +:+ String "-" x) = (0%Z, 0%Z, false).
Proof.
  intros Hd1. unfold server.parseGntpVersion.
  change (String.length ("GNTP/" +:+ d1 +:+ "." +:+ String "-" x) <? 5) with false.
  change (str_take 5 ("GNTP/" +:+ d1 +:+ "." +:+ String "-" x)) with "GNTP/".
  change (false || negb ("GNTP/" =? "GNTP/")%string) with false. cbv iota.
  assert (Hpre : 5 = String.length "GNTP/") by done.
  generalize dependent "GNTP/". intros pre Hpre. rewrite Hpre.
  rewrite (atoi_digits pre d1 ("." +:+ String "-" x)) by (done || apply stops_dot).
  destruct (decimal d1 <=? server.Big)%Z; [|done].
  cbn [negb orb andb].
  destruct (String.length _ <=? _); [done|]. cbn [orb].
  destruct (bool_decide _); [|done]. cbn [negb orb].
  unfold server.atoi.
  rewrite <- (str_app_assoc pre d1), <- (str_length_app pre d1).
  replace (String.length (pre +:+ d1) + 1)
    with (String.length ((pre +:+ d1) +:+ ".")) by (rewrite str_length_app; simpl; lia).
  replace ((pre +:+ d1) +:+ "." +:+ String "-" x)%string
    with (((pre +:+ d1) +:+ ".") +:+ String "-" x)%string by (by rewrite str_app_assoc).
  by rewrite str_drop_app.
Qed.

(** The version that [parseGntpVersion] reads from the text that
    [Version.String] writes is the version written, when both numbers are
    between 0 and 1,000,000; for every other version the text is
    refused. *)
Theorem Version_String_parseGntpVersion (v : server.Version) :
  server.parseGntpVersion (server.Version_String v)
  = if ((0 <=? server.Major v) && (server.Major v <=? 1000000)
        && (0 <=? server.Minor v) && (server.Minor v <=? 1000000))%Z
    then (server.Major v, server.Minor v, true)
    else (0%Z, 0%Z, false).
Proof.
  destruct v as [major minor]. unfold server.Version_String. cbn [server.Major server.Minor].
  destruct (0 <=? major)%Z eqn:Hmajor.
  2:{ destruct major as [|p|p]; try done. }
  apply Z.leb_le in Hmajor.
  destruct (Itoa_digits major Hmajor) as [Hd1 Hv1].
  destruct (0 <=? minor)%Z eqn:Hminor.
  2:{ rewrite andb_false_r. cbn [andb].
      destruct minor as [|q|q]; try done.
      rewrite (Itoa_negative q). by apply parseGntpVersion_minor_sign. }
  apply Z.leb_le in Hminor.
  destruct (Itoa_digits minor Hminor) as [Hd2 Hv2].
  pose proof (parseGntpVersion_token _ _ Hd1 Hd2) as Htoken.
  unfold version_token, server.Big in Htoken. rewrite Htoken, Hv1, Hv2.
  cbn [andb]. by rewrite andb_true_r.
Qed.

(** The Error-Code that an error response carries reads back, with
    [strconv.Atoi], as the code of the error. *)
Theorem GntpError_Response_code (g : GntpError) :
  (- 2 ^ 63 ≤ Code g < 2 ^ 63)%Z →
  ∃ (header : server.Header) (text : string),
    server.Response_Headers (server.GntpError_Response g) = [header]
    ∧ server.Get header "Error-Code" = Return (text, true)
    ∧ strconv.Atoi text = (Code g, None).
Proof.
  intros Hcode. eexists _, _. split; [reflexivity|]. split.
  - apply Get_Set_eq.
  - by apply ParseInt_Itoa.
Qed.

Lemma GntpError_Response_code_witness :
  ∃ (header : server.Header) (text : string),
    server.Response_Headers
      (server.GntpError_Response (server.UnknownApplicationError "Baz")) = [header]
    ∧ server.Get header "Error-Code" = Return (text, true)
    ∧ strconv.Atoi text = (400%Z, None).
Proof.
  apply (GntpError_Response_code (server.UnknownApplicationError "Baz")).
  split; [discriminate | reflexivity].
Defined.

(** ** The binary resource reader: faulty sections *)

Section ReadBinaries_errors.
Context {B : Type} `{server.Binaries B}.

(** After [k] sections that were read well, [ReadBinaries] is at the next
    one. *)
Lemma ReadBinaries_at (b : Reader) (headers : list server.Header) (binaries : B)
    (k : nat) (bs : gmap string server.Binary) (b_k : Reader) (binaries_k : B) :
  k < server.count_references headers →
  server.ReadBinaries_loop k b binaries ∅ = Return ((bs, None), b_k, binaries_k) →
  server.ReadBinaries b headers binaries
  = server.ReadBinaries_loop (S (server.count_references headers - S k)) b_k binaries_k bs.
Proof.
  intros Hk Hread. unfold server.ReadBinaries.
  replace (server.count_references headers)
    with (k + S (server.count_references headers - S k)) at 1 by lia.
  by rewrite ReadBinaries_loop_add, Hread.
Qed.

(** A binary section is refused on its mini-header, before anything is
    handed to the store: when the header block cannot be read, with the
    error of the read; when it has no Identifier, with a missing-header
    error that says so; when it has no Length, with a missing-header error
    that names the identifier; when the Length is not an [int64] in decimal,
    with an invalid-request error that names the identifier.  The map that
    comes with the error is empty. *)
Theorem ReadBinaries_mini_header_errors (b : Reader) (headers : list server.Header)
    (binaries : B) (k : nat) (bs : gmap string server.Binary) (b_k : Reader)
    (binaries_k : B) (header : server.Header) (read_err : option error) (b1 : Reader) :
  k < server.count_references headers →
  server.ReadBinaries_loop k b binaries ∅ = Return ((bs, None), b_k, binaries_k) →
  textproto.ReadMIMEHeader b_k = ((header, read_err), b1) →
  let result (err : error) := Return ((∅, Some err), b1, binaries_k) in
  (∀ err, read_err = Some err → server.ReadBinaries b headers binaries = result err)
  ∧ (read_err = None → header !! "Identifier" = None →
     server.ReadBinaries b headers binaries
     = result (GntpError_value (server.MissingHeaderError "Binary Identifier")))
  ∧ (∀ ident idents,
       read_err = None → header !! "Identifier" = Some (ident :: idents) →
       header !! "Length" = None →
       server.ReadBinaries b headers binaries
       = result (GntpError_value (server.MissingHeaderError ("Length for binary " +:+ ident))))
  ∧ (∀ ident idents length lengths n e,
       read_err = None → header !! "Identifier" = Some (ident :: idents) →
       header !! "Length" = Some (length :: lengths) →
       strconv.ParseInt length = (n, Some e) →
       server.ReadBinaries b headers binaries
       = result (GntpError_value
                   (server.InvalidRequestError (ident +:+ " Length header invalid")))).
Proof.
  intros Hk Hread Hheader result.
  rewrite (ReadBinaries_at b headers binaries k bs b_k binaries_k Hk Hread).
  cbn [server.ReadBinaries_loop]. rewrite Hheader.
  split; [|split; [|split]].
  - by intros err ->.
  - intros -> Hident. by rewrite Hident.
  - intros ident idents -> Hident Hlength. by rewrite Hident, Hlength.
  - intros ident idents length lengths n e -> Hident Hlength Hparse.
    by rewrite Hident, Hlength, Hparse.
Qed.

End ReadBinaries_errors.

Lemma ReadBinaries_mini_header_errors_witness :
  @server.ReadBinaries unit no_store EmptyString one_reference tt
  = Return ((∅, Some io_EOF), EmptyString, tt)
  ∧ @server.ReadBinaries unit no_store section_no_identifier one_reference tt
    = Return ((∅, Some (GntpError_value (server.MissingHeaderError "Binary Identifier"))),
              "PNG", tt)
  ∧ @server.ReadBinaries unit no_store section_no_length one_reference tt
    = Return ((∅, Some (GntpError_value
                          (server.MissingHeaderError "Length for binary icon"))),
              "PNG", tt)
  ∧ @server.ReadBinaries unit no_store section_bad_length one_reference tt
    = Return ((∅, Some (GntpError_value
                          (server.InvalidRequestError "icon Length header invalid"))),
              "PNG", tt).
Proof.
  assert (Hk : 0 < server.count_references one_reference) by (vm_compute; lia).
  split; [|split; [|split]].
  - refine (proj1 (@ReadBinaries_mini_header_errors unit no_store EmptyString one_reference
                     tt 0 ∅ EmptyString tt ∅ (Some io_EOF) EmptyString Hk eq_refl _)
              io_EOF eq_refl).
    reflexivity.
  - refine (proj1 (proj2 (@ReadBinaries_mini_header_errors unit no_store
                            section_no_identifier one_reference tt 0 ∅
                            section_no_identifier tt {[ "Length" := ["3"] ]} None "PNG"
                            Hk eq_refl _)) eq_refl _);
      vm_compute; reflexivity.
  - refine (proj1 (proj2 (proj2 (@ReadBinaries_mini_header_errors unit no_store
                                   section_no_length one_reference tt 0 ∅
                                   section_no_length tt {[ "Identifier" := ["icon"] ]}
                                   None "PNG" Hk eq_refl _)))
              "icon" [] eq_refl _ _);
      vm_compute; reflexivity.
  - refine (proj2 (proj2 (proj2 (@ReadBinaries_mini_header_errors unit no_store
                                   section_bad_length one_reference tt 0 ∅
                                   section_bad_length tt
                                   {[ "Identifier" := ["icon"]; "Length" := ["three"] ]}
                                   None "PNG" Hk eq_refl _)))
              "icon" [] "three" [] 0%Z strconv.ErrSyntax eq_refl _ _ _);
      vm_compute; reflexivity.
Defined.

(** ** The binary resource reader: the two ends of line after the data *)

Lemma byte_eqb_neq (a b : ascii) : a ≠ b → byte_eqb a b = false.
Proof. intros Hne. by apply Ascii.eqb_neq. Qed.

Lemma read_line_end_ok (ident t rest : string) :
  line_end t → server.read_line_end ident (t +:+ rest) = (None, rest).
Proof. by intros [-> | ->]. Qed.

Lemma read_line_end_cut (ident b : string) :
  b = EmptyString ∨ b = String CR EmptyString →
  server.read_line_end ident b = (Some io_EOF, EmptyString).
Proof. by intros [-> | ->]. Qed.

Lemma read_line_end_bad (ident : string) (c : ascii) (rest : string) :
  c ≠ CR → c ≠ LF →
  server.read_line_end ident (String c rest)
  = (Some (GntpError_value
             (server.InvalidRequestError (ident +:+ " data not properly terminated"))), rest).
Proof.
  intros HCR HLF. unfold server.read_line_end. simpl.
  by rewrite !byte_eqb_neq.
Qed.

Lemma read_line_end_cr_bad (ident : string) (c : ascii) (rest : string) :
  c ≠ LF →
  server.read_line_end ident (String CR (String c rest))
  = (Some (GntpError_value
             (server.InvalidRequestError (ident +:+ " data not properly terminated"))), rest).
Proof.
  intros HLF. unfold server.read_line_end. simpl.
  by rewrite byte_eqb_neq.
Qed.

Section ReadBinaries_terminator.
Context {B : Type} `{server.Binaries B}.

(** Once the store has taken the data of a section, two ends of line must
    follow, each a line feed with or without a carriage return before it.
    After them the reader goes on with the next section, the section being
    entered in the map under its identifier.  When the connection ends
    inside them the result is [io.EOF], not an error of the taxonomy.  When
    another byte comes the result is the invalid-request error that names
    the identifier, and that byte is consumed, also when it comes after a
    carriage return. *)
Theorem ReadBinaries_terminator (b : Reader) (headers : list server.Header)
    (binaries : B) (k : nat) (bs : gmap string server.Binary) (b_k : Reader)
    (binaries_k : B) (header : server.Header) (b1 : Reader)
    (ident : string) (idents : list string) (length : string) (lengths : list string)
    (N : Z) (b2 : Reader) (binaries' : B) :
  k < server.count_references headers →
  server.ReadBinaries_loop k b binaries ∅ = Return ((bs, None), b_k, binaries_k) →
  textproto.ReadMIMEHeader b_k = ((header, None), b1) →
  header !! "Identifier" = Some (ident :: idents) →
  header !! "Length" = Some (length :: lengths) →
  strconv.ParseInt length = (N, None) →
  server.Binaries_Add binaries_k ident N b1 = Return (None, b2, binaries') →
  (∀ t1 t2 rest,
     line_end t1 → line_end t2 → b2 = (t1 +:+ t2 +:+ rest)%string →
     server.ReadBinaries b headers binaries
     = server.ReadBinaries_loop (server.count_references headers - S k) rest binaries'
         (<[ident := binary_entry ident N]> bs))
  ∧ (cut_short b2 →
     server.ReadBinaries b headers binaries
     = Return ((∅, Some io_EOF), EmptyString, binaries'))
  ∧ (∀ rest, garbled b2 rest →
     server.ReadBinaries b headers binaries
     = Return ((∅, Some (GntpError_value
                           (server.InvalidRequestError
                              (ident +:+ " data not properly terminated")))),
               rest, binaries')).
Proof.
  intros Hk Hread Hheader Hident Hlength HN Hadd.
  rewrite (ReadBinaries_at b headers binaries k bs b_k binaries_k Hk Hread).
  cbn [server.ReadBinaries_loop]. rewrite Hheader, Hident, Hlength, HN, Hadd.
  cbn [mbind outcome_bind].
  split; [|split].
  - intros t1 t2 rest Ht1 Ht2 ->.
    by rewrite !read_line_end_ok.
  - intros (pre & [-> | Hpre] & [-> | ->]).
    + by rewrite read_line_end_cut by auto.
    + by rewrite read_line_end_cut by auto.
    + rewrite <- (str_app_nil_r pre), read_line_end_ok by done.
      by rewrite read_line_end_cut by auto.
    + rewrite read_line_end_ok by done.
      by rewrite read_line_end_cut by auto.
  - intros rest (pre & c & [-> | Hpre] & [(HCR & HLF & ->) | (HLF & ->)]).
    + cbn [String.append]. by rewrite read_line_end_bad.
    + cbn [String.append]. by rewrite read_line_end_cr_bad.
    + rewrite read_line_end_ok by done. by rewrite read_line_end_bad.
    + rewrite read_line_end_ok by done. by rewrite read_line_end_cr_bad.
Qed.

End ReadBinaries_terminator.

Lemma ReadBinaries_terminator_witness :
  @server.ReadBinaries unit skip_store section_garbled one_reference tt
  = Return ((∅, Some (GntpError_value
                        (server.InvalidRequestError "icon data not properly terminated"))),
            "-rest", tt).
Proof.
  refine (proj2 (proj2 (@ReadBinaries_terminator unit skip_store section_garbled
                          one_reference tt 0 ∅ section_garbled tt
                          {[ "Identifier" := ["icon"]; "Length" := ["3"] ]}
                          (String.append "PNG" (CRLF +:+ "x-rest")) "icon" [] "3" [] 3%Z
                          (CRLF +:+ "x-rest") tt _ eq_refl _ _ _ _ _))
            "-rest" _).
  - vm_compute. lia.
  - vm_compute. reflexivity.
  - reflexivity.
  - reflexivity.
  - reflexivity.
  - reflexivity.
  - exists CRLF, "x"%char. split; [right; by right|].
    left. split; [discriminate|]. split; [discriminate|]. reflexivity.
Defined.

(** ** The file cache *)

Lemma ReadFull_whole (data rest : string) :
  io.ReadFull (data +:+ rest) (String.length data) = ((data, None), rest).
Proof.
  unfold io.ReadFull. rewrite str_length_app.
  rewrite (proj2 (Nat.leb_le _ _)) by lia.
  by rewrite str_take_app, str_drop_app.
Qed.

Section FileCache_store.
Variable filepath_Join : string → string → string.
Variable os_Create_error : string → option error.
Variable maxAlloc : Z.

Lemma FileCache_Add_exact (cache : main.FileCache) (key : string) (N : Z)
    (data rest : string) :
  (N ≤ maxAlloc)%Z → Z.of_nat (String.length data) = N →
  main.FileCache_Add filepath_Join os_Create_error maxAlloc cache key N (data +:+ rest)
  = let path := filepath_Join (main.dir cache) key in
    match main.files cache !! path with
    | Some _ => Return (None, rest, cache)
    | None =>
        match os_Create_error path with
        | Some err => Return (Some err, rest, cache)
        | None =>
            Return (None, rest,
                    {| main.dir := main.dir cache;
                       main.files := <[path := main.File data]> (main.files cache) |})
        end
    end.
Proof.
  intros Hmax Hlen. unfold main.FileCache_Add.
  rewrite (proj2 (Z.ltb_ge N 0)), (proj2 (Z.ltb_ge maxAlloc N)) by lia.
  cbn [orb]. replace (Z.to_nat N) with (String.length data) by lia.
  by rewrite ReadFull_whole.
Qed.

(** [FileCache.Add] with as many bytes on the connection as announced takes
    exactly these bytes, and never overwrites.  When a file is at the path
    of the key, the file stays as it is, [Add] reports success and [Get]
    returns the old bytes.  When a directory is at the path, as for a key
    that the join leaves at the directory of the cache, [Add] reports
    success as well and stores nothing, and [Get] does not return the
    bytes: it fails on its first read, or returns no bytes for a directory
    of size 0.  When nothing is at the path and the file cannot be created,
    the error of the creation is returned and the disk is unchanged.  When
    the file is created (it is then taken to accept the write), [Get]
    returns the bytes taken, [Exists] holds, and every key with another
    path reads as before. *)
Theorem FileCache_Add_Get (cache : main.FileCache) (key : string) (N : Z)
    (data rest : string) :
  (N ≤ maxAlloc)%Z → Z.of_nat (String.length data) = N →
  let path := filepath_Join (main.dir cache) key in
  let Add := main.FileCache_Add filepath_Join os_Create_error maxAlloc cache key N
               (data +:+ rest) in
  let Get := main.FileCache_Get filepath_Join in
  let Exists := main.FileCache_Exists filepath_Join in
  (∀ old, main.files cache !! path = Some (main.File old) →
     Add = Return (None, rest, cache) ∧ Get cache key = (old, None))
  ∧ (∀ size, main.files cache !! path = Some (main.Directory size) →
       Add = Return (None, rest, cache)
       ∧ Exists cache key = true
       ∧ Get cache key
         = if (size =? 0)%Z then (EmptyString, None)
           else (EmptyString, Some (os_PathError "read" path)))
  ∧ (∀ err, main.files cache !! path = None → os_Create_error path = Some err →
       Add = Return (Some err, rest, cache) ∧ Exists cache key = false)
  ∧ (main.files cache !! path = None → os_Create_error path = None →
     ∃ cache', Add = Return (None, rest, cache')
               ∧ main.dir cache' = main.dir cache
               ∧ Get cache' key = (data, None)
               ∧ Exists cache' key = true
               ∧ ∀ key', filepath_Join (main.dir cache) key' ≠ path →
                   Get cache' key' = Get cache key'
                   ∧ Exists cache' key' = Exists cache key').
Proof.
  intros Hmax Hlen path Add Get Exists. subst Add Get Exists path.
  rewrite FileCache_Add_exact by done. cbv zeta.
  unfold main.FileCache_Get, main.FileCache_Exists.
  split; [|split; [|split]].
  - intros old Hold. by rewrite Hold.
  - intros size Hdir. rewrite Hdir. split; [done|]. split; [|done].
    apply bool_decide_eq_true. by eexists.
  - intros err Hnone Herr. rewrite Hnone, Herr. split; [done|].
    apply bool_decide_eq_false. by intros [? ?].
  - intros Hnone Hok. rewrite Hnone, Hok. eexists. split; [done|]. split; [done|].
    cbn [main.dir main.files]. rewrite lookup_insert_eq. split; [done|]. split.
    { apply bool_decide_eq_true. by eexists. }
    intros key' Hne. by rewrite lookup_insert_ne.
Qed.

(** The last binary section of a request, well formed and with the file
    cache as the store: [ReadBinaries] returns the map of the sections
    before it with an entry for this one under its identifier, and leaves
    on the connection exactly what follows the two ends of line, whatever
    is at the path of the identifier, provided that a file that is not
    there can be created.  What the cache then holds for the identifier
    depends on the path: the bytes of this section when nothing was there
    (a created file is taken to accept the write); the file that was there,
    unchanged, when there was one; and nothing when the path is a
    directory, so that [Get] fails for the identifier, or returns no bytes
    for a directory of size 0, although the section was accepted. *)
Theorem ReadBinaries_section_stored
    (b : Reader) (headers : list server.Header) (cache : main.FileCache)
    (k : nat) (bs : gmap string server.Binary) (b_k : Reader) (cache_k : main.FileCache)
    (header : server.Header) (b1 : Reader)
    (ident : string) (idents : list string) (length : string) (lengths : list string)
    (N : Z) (data t1 t2 rest : string) :
  let store := main.FileCache_Binaries filepath_Join os_Create_error maxAlloc in
  let path := filepath_Join (main.dir cache_k) ident in
  let accepted cache' :=
    @server.ReadBinaries _ store b headers cache
    = Return ((<[ident := binary_entry ident N]> bs, None), rest, cache') in
  server.count_references headers = S k →
  @server.ReadBinaries_loop _ store k b cache ∅ = Return ((bs, None), b_k, cache_k) →
  textproto.ReadMIMEHeader b_k = ((header, None), b1) →
  header !! "Identifier" = Some (ident :: idents) →
  header !! "Length" = Some (length :: lengths) →
  strconv.ParseInt length = (N, None) →
  (N ≤ maxAlloc)%Z → Z.of_nat (String.length data) = N →
  line_end t1 → line_end t2 →
  b1 = (data +:+ t1 +:+ t2 +:+ rest)%string →
  (main.files cache_k !! path = None → os_Create_error path = None →
   ∃ cache', accepted cache'
             ∧ main.FileCache_Get filepath_Join cache' ident = (data, None))
  ∧ (∀ old, main.files cache_k !! path = Some (main.File old) →
       accepted cache_k
       ∧ main.FileCache_Get filepath_Join cache_k ident = (old, None))
  ∧ (∀ size, main.files cache_k !! path = Some (main.Directory size) →
       accepted cache_k
       ∧ main.FileCache_Get filepath_Join cache_k ident
         = if (size =? 0)%Z then (EmptyString, None)
           else (EmptyString, Some (os_PathError "read" path))).
Proof.
  intros store path accepted Hcount Hread Hheader Hident Hlength HN Hmax Hlen Ht1 Ht2 ->.
  subst path accepted. cbv beta.
  rewrite (@ReadBinaries_at _ store b headers cache k bs b_k cache_k) by (lia || done).
  rewrite Hcount. replace (S k - S k) with 0 by lia.
  cbn [server.ReadBinaries_loop]. rewrite Hheader, Hident, Hlength, HN.
  cbn [server.Binaries_Add store main.FileCache_Binaries].
  rewrite FileCache_Add_exact by done. cbv zeta.
  unfold main.FileCache_Get.
  split; [|split].
  - intros Hnone Hok. rewrite Hnone, Hok. cbn [mbind outcome_bind].
    rewrite !read_line_end_ok by done. eexists. split; [reflexivity|].
    cbn [main.dir main.files]. by rewrite lookup_insert_eq.
  - intros old Hold. rewrite Hold. cbn [mbind outcome_bind].
    by rewrite !read_line_end_ok by done.
  - intros size Hdir. rewrite Hdir. cbn [mbind outcome_bind].
    by rewrite !read_line_end_ok by done.
Qed.

End FileCache_store.

Lemma FileCache_Add_Get_witness :
  (main.FileCache_Add join_slash (λ _, None) linux_maxAlloc cache_with_icon "icon" 3
     "PNGrest"
   = Return (None, "rest", cache_with_icon)
   ∧ main.FileCache_Get join_slash cache_with_icon "icon" = ("OLD", None))
  ∧ main.FileCache_Add join_slash (λ _, None) linux_maxAlloc cache_with_directory "icons" 3
      "PNGrest"
    = Return (None, "rest", cache_with_directory)
  ∧ main.FileCache_Get join_slash cache_with_directory "icons"
    = (EmptyString, Some (os_PathError "read" "/cache/icons")).
Proof.
  split.
  - exact (proj1 (FileCache_Add_Get join_slash (λ _, None) linux_maxAlloc cache_with_icon
                    "icon" 3 "PNG" "rest" ltac:(discriminate) eq_refl)
             "OLD" eq_refl).
  - refine ((λ H, conj (proj1 H) (proj2 (proj2 H)))
              (proj1 (proj2 (FileCache_Add_Get join_slash (λ _, None) linux_maxAlloc
                               cache_with_directory "icons" 3 "PNG" "rest"
                               ltac:(discriminate) eq_refl))
                 4096%Z eq_refl)).
Defined.

Lemma ReadBinaries_section_stored_witness :
  ∃ cache',
    @server.ReadBinaries _ cache_store icon_section one_reference empty_cache
    = Return ((<[ "icon" := binary_entry "icon" 3 ]> ∅, None), EmptyString, cache')
    ∧ main.FileCache_Get join_slash cache' "icon" = ("PNG", None).
Proof.
  refine (proj1 (ReadBinaries_section_stored join_slash (λ _, None) linux_maxAlloc
                   icon_section one_reference empty_cache 0 ∅ icon_section empty_cache
                   {[ "Identifier" := ["icon"]; "Length" := ["3"] ]}
                   (String.append "PNG" (CRLF +:+ CRLF)) "icon" [] "3" [] 3 "PNG" CRLF CRLF
                   EmptyString _ _ _ _ _ _ _ _ _ _ _) _ _).
  - vm_compute. reflexivity.
  - reflexivity.
  - vm_compute. reflexivity.
  - reflexivity.
  - reflexivity.
  - reflexivity.
  - discriminate.
  - reflexivity.
  - by right.
  - by right.
  - reflexivity.
  - reflexivity.
  - reflexivity.
Defined.
(** ** What the binary reader returns *)

Section ReadBinaries_result.
Context {B : Type} `{server.Binaries B}.

Lemma keyed_insert (bs : gmap string server.Binary) (ident : string) (len : Z) :
  keyed bs →
  keyed (<[ident := {| server.Ident := ident; server.Length := len;
                       server.Data := EmptyString |}]> bs).
Proof.
  intros Hbs id binary. destruct (decide (ident = id)) as [->|Hne].
  - rewrite lookup_insert_eq. by intros [= <-].
  - rewrite lookup_insert_ne by done. apply Hbs.
Qed.

Lemma ReadBinaries_loop_result (n : nat) (b : Reader) (binaries : B)
    (bs0 bs : gmap string server.Binary) (err : option error) (b' : Reader)
    (binaries' : B) (m : nat) :
  server.ReadBinaries_loop n b binaries bs0 = Return ((bs, err), b', binaries') →
  keyed bs0 → size bs0 ≤ m →
  keyed bs ∧ size bs ≤ m + n ∧ (is_Some err → bs = ∅).
Proof.
  revert b binaries bs0 m. induction n as [|n IH]; intros b binaries bs0 m.
  - simpl. intros [= <- <- <- <-] Hkeyed Hsize.
    split; [done|]. split; [lia|]. by intros [? ?].
  - assert (Hfail : ∀ e b1 c1,
              server.fail e b1 c1 = Return ((bs, err), b', binaries') →
              keyed bs ∧ size bs ≤ m + S n ∧ (is_Some err → bs = ∅)).
    { unfold server.fail. intros e b1 c1 [= <- <- <- <-].
      split; [by intros ?? ?%lookup_empty_Some|]. split; [|done].
      rewrite map_size_empty. lia. }
    cbn [server.ReadBinaries_loop].
    destruct (textproto.ReadMIMEHeader b) as [[header [e|]] b1]; [by eauto|].
    destruct (header !! "Identifier") as [[|ident idents]|]; [done| |by eauto].
    destruct (header !! "Length") as [[|length lengths]|]; [done| |by eauto].
    destruct (strconv.ParseInt length) as [len [perr|]]; [by eauto|].
    destruct (server.Binaries_Add binaries ident len b1) as [[[e b2] binaries2]|msg];
      [|done].
    cbn [mbind outcome_bind].
    destruct e as [e|]; [destruct e; by eauto|].
    destruct (server.read_line_end ident b2) as [[e|] b3]; [by eauto|].
    destruct (server.read_line_end ident b3) as [[e|] b4]; [by eauto|].
    intros Hloop Hkeyed Hsize.
    apply (IH _ _ _ (S m)) in Hloop.
    + destruct Hloop as (? & ? & ?). split; [done|]. split; [lia|done].
    + by apply keyed_insert.
    + rewrite map_size_insert. destruct (bs0 !! ident); simpl; lia.
Qed.

(** Whatever the store and the connection, what [ReadBinaries] returns has
    an empty map whenever it has an error; otherwise the map has at most as
    many entries as there are references in the headers, each entry sits
    under its own identifier, and no entry carries the data: the bytes went
    to the store only. *)
Theorem ReadBinaries_result (b : Reader) (headers : list server.Header) (binaries : B)
    (bs : gmap string server.Binary) (err : option error) (b' : Reader) (binaries' : B) :
  server.ReadBinaries b headers binaries = Return ((bs, err), b', binaries') →
  (is_Some err → bs = ∅)
  ∧ size bs ≤ server.count_references headers
  ∧ ∀ id binary, bs !! id = Some binary →
      server.Ident binary = id ∧ server.Data binary = EmptyString.
Proof.
  intros Hread. unfold server.ReadBinaries in Hread.
  apply (ReadBinaries_loop_result _ _ _ _ _ _ _ _ 0) in Hread.
  - destruct Hread as (Hkeyed & Hsize & Herr). auto.
  - by intros ?? ?%lookup_empty_Some.
  - by rewrite map_size_empty.
Qed.

End ReadBinaries_result.

Lemma ReadBinaries_result_witness :
  size (<[ "icon" := binary_entry "icon" 3 ]> ∅ : gmap string server.Binary)
  ≤ server.count_references one_reference.
Proof.
  refine (proj1 (proj2 (@ReadBinaries_result _ skip_store icon_section one_reference tt
                          (<[ "icon" := binary_entry "icon" 3 ]> ∅) None EmptyString tt _))).
  vm_compute. reflexivity.
Defined.

(** ** What [ReadMIMEHeader] returns *)

Lemma canonicalMIMEHeaderKey_nonempty (k key : string) :
  textproto.canonicalMIMEHeaderKey k = (key, true) → key ≠ EmptyString.
Proof.
  unfold textproto.canonicalMIMEHeaderKey. destruct k as [|c k]; [done|].
  destruct (textproto.looks_like_key (String c k) false) as [[|]|]; [| |done].
  - by intros [= <-].
  - by intros [= <-].
Qed.

Lemma TrimLeft_read_value (v : string) :
  str_forallb textproto.validHeaderValueByte v = true →
  read_value (strings.TrimLeft_sp_ht v).
Proof.
  induction v as [|c v IH]; [done|]. simpl.
  intros [Hc Hv]%andb_true_iff.
  destruct (byte_eqb c SP || byte_eqb c HT) eqn:Hsp; [auto|].
  split; simpl; [by rewrite Hc, Hv | by rewrite Hsp].
Qed.

Lemma well_read_insert (m : server.Header) (key value : string) :
  well_read m → key ≠ EmptyString → read_value value →
  well_read (<[key := default [] (m !! key) ++ [value]]> m).
Proof.
  intros Hm Hkey Hvalue k vs. destruct (decide (key = k)) as [->|Hne].
  - rewrite lookup_insert_eq. intros [= <-]. split; [done|]. split.
    + by destruct (default [] (m !! k)).
    + apply Forall_app. split; [|by constructor].
      destruct (m !! k) as [vs0|] eqn:Hk; [|done]. by apply (Hm k vs0).
  - rewrite lookup_insert_ne by done. apply Hm.
Qed.

Lemma readMIMEHeader_loop_well_read (fuel : nat) (m : server.Header) (b : Reader)
    (m' : server.Header) (err : option error) (b' : Reader) :
  textproto.readMIMEHeader_loop fuel m b = ((m', err), b') →
  well_read m → well_read m'.
Proof.
  revert m b. induction fuel as [|fuel IH]; intros m b; [by intros [= <- _ _]|].
  cbn [textproto.readMIMEHeader_loop].
  destruct (textproto.readContinuedLineSlice b) as [[[|c kv] e] b1];
    [by intros [= <- _ _]|].
  destruct (str_cut ":" (String c kv)) as [[k v]|]; [|by intros [= <- _ _]].
  destruct (textproto.canonicalMIMEHeaderKey k) as [key [|]] eqn:Hkey;
    [|by intros [= <- _ _]].
  destruct (str_forallb textproto.validHeaderValueByte v) eqn:Hv;
    [|by intros [= <- _ _]].
  cbn [negb]. intros Hloop Hm. apply IH in Hloop; [done|].
  apply well_read_insert; [done| |by apply TrimLeft_read_value].
  by eapply canonicalMIMEHeaderKey_nonempty.
Qed.

(** A header block that was read from the connection, with or without an
    error, has no empty key, no key without a value and no value with a
    line feed, a carriage return or another control byte but the tab; [Get]
    on it never panics. *)
Theorem ReadMIMEHeader_result (b : Reader) (m : server.Header) (err : option error)
    (b' : Reader) :
  textproto.ReadMIMEHeader b = ((m, err), b') →
  (∀ k vs, m !! k = Some vs →
     k ≠ EmptyString ∧ vs ≠ []
     ∧ Forall (λ v, str_forallb textproto.validHeaderValueByte v = true
                    ∧ no_newline v = true ∧ no_lead v = true) vs)
  ∧ ∀ key, ∃ value found, server.Get m key = Return (value, found).
Proof.
  intros Hread.
  assert (Hm : well_read m).
  { unfold textproto.ReadMIMEHeader in Hread.
    assert (Hempty : well_read ∅) by (by intros ?? ?%lookup_empty_Some).
    destruct b as [|c b0].
    - by apply readMIMEHeader_loop_well_read in Hread.
    - destruct (byte_eqb c SP || byte_eqb c HT).
      + destruct (textproto.ReadLine (String c b0)) as [[l [e|]] b1];
          by injection Hread as <- _ _.
      + by apply readMIMEHeader_loop_well_read in Hread. }
  split.
  - intros k vs Hk. destruct (Hm k vs Hk) as (Hne & Hvs & Hall).
    split; [done|]. split; [done|].
    eapply Forall_impl; [exact Hall|]. intros v [Hv Hlead]. split; [done|]. split; [|done].
    unfold no_newline. revert Hv. apply str_forallb_impl. intros a Ha.
    pose proof (value_byte_plain a) as Hp. by rewrite Ha in Hp.
  - intros key. unfold server.Get.
    destruct (m !! textproto.CanonicalMIMEHeaderKey key) as [[|v vs]|] eqn:Hk; eauto.
    by destruct (Hm _ _ Hk) as (_ & ? & _).
Qed.

Lemma ReadMIMEHeader_result_witness :
  ∃ value found,
    server.Get {[ "Identifier" := ["icon"]; "Length" := ["3"] ]} "Notification-Icon"
    = Return (value, found).
Proof.
  refine (proj2 (ReadMIMEHeader_result icon_section
                   {[ "Identifier" := ["icon"]; "Length" := ["3"] ]} None
                   (String.append "PNG" (CRLF +:+ CRLF)) _) "Notification-Icon"%string).
  vm_compute. reflexivity.
Defined.

(** ** A directive line that the multiplexer refuses *)

Section serve_directive.
Context {St : Type}.
Implicit Types (mux : server.ServeMux St) (st : St).

Lemma serve_mux_Parse_error mux b st req ge b1 st1 :
  server.Parse mux b None st = Return ((req, Some (GntpError_value ge)), b1, st1) →
  server.serve None mux b st = Return (server.GntpError_Response ge, b1, st1).
Proof. intros HP. unfold server.serve. simpl. by rewrite HP. Qed.

(** When the multiplexer itself refuses the directive line, the serve step
    answers with the response of that very error, leaves the rest of the
    connection unread and the state of the handlers untouched, and calls no
    handler's [Respond]: unknown protocol (301) for a line with fewer than
    three tokens or a version token that does not parse, invalid request
    (300) for a security token other than [NONE], unknown request type
    (300) for a type without a registered handler.  On a connection that
    ends before any byte, the error of the read is not of the taxonomy and
    the answer is the internal server error (500). *)
Theorem serve_refused_directive mux st :
  (∀ b s b1,
     textproto.ReadLine b = ((s, None), b1) →
     (length (strings.SplitN s SP 3) < 3
      ∨ (∃ f0 f1 f2, strings.SplitN s SP 3 = [f0; f1; f2]
                     ∧ (server.parseGntpVersion f0).2 = false) →
      server.serve None mux b st
      = Return (server.GntpError_Response (server.UnknownProtocolError s), b1, st))
     ∧ (∀ f0 f1 f2 major minor,
          strings.SplitN s SP 3 = [f0; f1; f2] →
          server.parseGntpVersion f0 = (major, minor, true) →
          (f2 ≠ "NONE" →
           server.serve None mux b st
           = Return (server.GntpError_Response
                       (server.InvalidRequestError "unsupported encryption"), b1, st))
          ∧ (f2 = "NONE" → server.m mux !! f1 = None →
             server.serve None mux b st
             = Return (server.GntpError_Response (server.UnknownRequestTypeError f1),
                       b1, st))))
  ∧ server.serve None mux EmptyString st
    = Return (server.GntpError_Response server.InternalServerError, EmptyString, st).
Proof.
  split; [|done]. intros b s b1 Hline. split.
  - intros [Hshort | (f0 & f1 & f2 & Hsplit & Hfail)].
    + eapply serve_mux_Parse_error. by apply Parse_short.
    + eapply serve_mux_Parse_error. by eapply Parse_version_fails.
  - intros f0 f1 f2 major minor Hsplit Hok. split.
    + intros Hsec. eapply serve_mux_Parse_error.
      rewrite (Parse_version_ok mux b None st s b1 f0 f1 f2 major minor) by done.
      cbv zeta. by rewrite (proj2 (String.eqb_neq _ _) Hsec).
    + intros -> Hfree. eapply serve_mux_Parse_error.
      rewrite (Parse_version_ok mux b None st s b1 f0 f1 "NONE" major minor) by done.
      cbv zeta. cbn [String.eqb]. unfold server.handler.
      change (server.Request_Type (server.with_type _ f1)) with f1.
      rewrite Hfree. reflexivity.
Qed.

End serve_directive.

Lemma serve_refused_directive_witness :
  let mux : server.ServeMux unit := server.NewServeMux in
  server.serve None mux (line "GNTP/1.0 SUBSCRIBE NONE" +:+ "Subscriber-ID: 1") tt
  = Return (server.GntpError_Response (server.UnknownRequestTypeError "SUBSCRIBE"),
            "Subscriber-ID: 1", tt)
  ∧ server.serve None mux (line "GNTP/1.0") tt
    = Return (server.GntpError_Response (server.UnknownProtocolError "GNTP/1.0"),
              EmptyString, tt).
Proof.
  intros mux.
  destruct (serve_refused_directive mux tt) as [Hline _]. split.
  - exact (proj2 (proj2 (Hline (line "GNTP/1.0 SUBSCRIBE NONE" +:+ "Subscriber-ID: 1")%string
                           "GNTP/1.0 SUBSCRIBE NONE" "Subscriber-ID: 1" eq_refl)
                    "GNTP/1.0" "SUBSCRIBE" "NONE" 1%Z 0%Z eq_refl eq_refl)
             eq_refl eq_refl).
  - refine (proj1 (Hline (line "GNTP/1.0") "GNTP/1.0" EmptyString eq_refl) _).
    left. simpl. lia.
Defined.

(** ** The REGISTER handler *)

Lemma ParseUint_loop_nonneg (s : string) (n r : Z) (e : option strconv.NumError) :
  (0 ≤ n)%Z → strconv.ParseUint_loop s n = (r, e) → (0 ≤ r)%Z.
Proof.
  revert n. induction s as [|c s IH]; intros n Hn; simpl.
  - by intros [= <- _].
  - destruct (is_digit c) eqn:Hc; [|by intros [= <- _]].
    destruct (strconv.cutoff10 <=? n)%Z; [by intros [= <- _]|].
    destruct (strconv.maxUint64 <? n * 10 + (byte_val c - 48))%Z; [by intros [= <- _]|].
    apply IH. unfold is_digit in Hc. lia.
Qed.

Lemma Atoi_range (s : string) (n : Z) :
  strconv.Atoi s = (n, None) → (- 2 ^ 63 ≤ n < 2 ^ 63)%Z.
Proof.
  unfold strconv.Atoi, strconv.ParseInt. destruct s as [|c s]; [done|].
  cbv zeta.
  destruct (strconv.ParseUint (if byte_eqb c "+" || byte_eqb c "-" then s else String c s))
    as [un e] eqn:Hun.
  assert (0 ≤ un)%Z as Hpos.
  { unfold strconv.ParseUint in Hun.
    destruct (if byte_eqb c "+" || byte_eqb c "-" then s else String c s);
      [by injection Hun as <- _|].
    by eapply (ParseUint_loop_nonneg _ 0). }
  assert ((if negb (byte_eqb c "-") && (2 ^ 63 <=? un)%Z
           then ((2 ^ 63 - 1)%Z, Some strconv.ErrRange)
           else if byte_eqb c "-" && (2 ^ 63 <? un)%Z
                then ((- 2 ^ 63)%Z, Some strconv.ErrRange)
                else (if byte_eqb c "-" then (- un)%Z else un, None)) = (n, None) →
          (- 2 ^ 63 ≤ n < 2 ^ 63)%Z) as Hcase.
  { destruct (byte_eqb c "-"); cbn [negb andb].
    - destruct (2 ^ 63 <? un)%Z eqn:Hlt; [done|]. intros [= <-]. lia.
    - destruct (2 ^ 63 <=? un)%Z eqn:Hle; [done|]. intros [= <-]. lia. }
  destruct e as [[|]|]; [done|exact Hcase|exact Hcase].
Qed.

Lemma ReadMIMEHeader_well_read (b : Reader) (m : server.Header) (err : option error)
    (b' : Reader) :
  textproto.ReadMIMEHeader b = ((m, err), b') → well_read m.
Proof.
  unfold textproto.ReadMIMEHeader. intros Hread.
  assert (Hempty : well_read ∅) by (by intros ?? ?%lookup_empty_Some).
  destruct b as [|c b0].
  - by apply readMIMEHeader_loop_well_read in Hread.
  - destruct (byte_eqb c SP || byte_eqb c HT).
    + destruct (textproto.ReadLine (String c b0)) as [[l [e|]] b1];
        by injection Hread as <- _ _.
    + by apply readMIMEHeader_loop_well_read in Hread.
Qed.

Lemma Get_well_read (m : server.Header) (key : string) :
  well_read m → ∃ value found, server.Get m key = Return (value, found).
Proof.
  intros Hm. unfold server.Get.
  destruct (m !! textproto.CanonicalMIMEHeaderKey key) as [[|v vs]|] eqn:Hk; eauto.
  by destruct (Hm _ _ Hk) as (_ & ? & _).
Qed.

Lemma read_blocks_ok (n : nat) (b : Reader) (hs : list server.Header) (b' : Reader) :
  main.read_blocks n b = ((hs, None), b') → length hs = n ∧ Forall well_read hs.
Proof.
  revert b hs. induction n as [|n IH]; intros b hs; simpl.
  - by intros [= <- _].
  - destruct (textproto.ReadMIMEHeader b) as [[h [e|]] b1] eqn:Hread; [done|].
    destruct (main.read_blocks n b1) as [[hs1 e1] b2] eqn:Hrest.
    intros [= <- -> <-]. destruct (IH _ _ Hrest) as [Hlen Hall].
    split; [simpl; by rewrite Hlen|].
    constructor; [by eapply ReadMIMEHeader_well_read|done].
Qed.

Section Register.
Variable filepath_Join : string → string → string.
Variable os_Create_error : string → option error.
Variable maxAlloc : Z.
Variable strings_ToLower : string → string.

Let Parse := main.RegisterHandler_Parse filepath_Join os_Create_error maxAlloc.
Let Respond := main.RegisterHandler_Respond strings_ToLower.

Lemma RegisterHandler_Parse_ok (b : Reader) (req : server.Request) (w : main.World)
    (req' : option server.Request) (b' : Reader) (w' : main.World) :
  Parse b (Some req) w = Return ((req', None), b', w') →
  ∃ header hs text count bs,
    req' = Some {| server.Request_Version := server.Request_Version req;
                   server.Request_Type := server.Request_Type req;
                   server.Request_Headers := header :: hs;
                   server.Request_Binaries := bs |}
    ∧ server.Get header "Notifications-Count" = Return (text, true)
    ∧ strconv.Atoi text = (count, None)
    ∧ (0 ≤ count)%Z ∧ (count < 2 ^ 63 - 1 ∧ 8 * (count + 1) ≤ maxAlloc)%Z
    ∧ length hs = Z.to_nat count
    ∧ Forall well_read (header :: hs)
    ∧ main.apps w' = main.apps w ∧ main.notes w' = main.notes w
    ∧ main.downloads w' = main.downloads w.
Proof.
  subst Parse. unfold main.RegisterHandler_Parse.
  destruct (textproto.ReadMIMEHeader b) as [[header [e|]] b1] eqn:Hread; [done|].
  destruct (server.Get header "Notifications-Count") as [[text ok]|] eqn:Hget; [|done].
  cbn [mbind outcome_bind]. destruct ok; cbn [negb]; [|done].
  destruct (strconv.Atoi text) as [count [e|]] eqn:Hatoi; [done|].
  pose proof (Atoi_range _ _ Hatoi) as Hrange. cbv zeta.
  destruct ((server.int (count + 1) <? 0)%Z || (maxAlloc <? 8 * server.int (count + 1))%Z)
    eqn:Hmake; [done|].
  apply orb_false_iff in Hmake as [Hneg Hmax].
  destruct (server.int (count + 1) =? 0)%Z eqn:Hzero; [done|].
  assert (0 ≤ count ∧ count < 2 ^ 63 - 1 ∧ server.int (count + 1) = count + 1)%Z
    as (Hcount & Hsmall & Hint).
  { unfold server.int in *.
    destruct (decide (count = 2 ^ 63 - 1)%Z) as [->|Hne]; [done|].
    rewrite Z.mod_small in * by lia. lia. }
  rewrite Hint in *. replace (count + 1 - 1)%Z with count by lia.
  destruct (main.read_blocks (Z.to_nat count) b1) as [[hs [e|]] b2] eqn:Hblocks; [done|].
  destruct (server.ReadBinaries b2 (header :: hs) (main.binaryCache w))
    as [[[[bs e] b3] cache]|] eqn:Hbin; [|done].
  cbn [mbind outcome_bind]. destruct e as [e|]; [done|].
  intros [= <- <- <-]. exists header, hs, text, count, bs.
  destruct (read_blocks_ok _ _ _ _ Hblocks) as [Hlen Hall].
  repeat split; try done; try lia.
  constructor; [by eapply ReadMIMEHeader_well_read|done].
Qed.

(** A REGISTER request that [Parse] returns without an error has as many
    header blocks as its first block announces in [Notifications-Count],
    plus that first block; the count is not negative, no lookup in a block
    panics, version and type are those of the directive line, and the
    registered applications, the notifications sent and the downloads
    started are as before. *)
Theorem RegisterHandler_Parse_request (b : Reader) (req req' : server.Request)
    (w : main.World) (b' : Reader) (w' : main.World) :
  Parse b (Some req) w = Return ((Some req', None), b', w') →
  (∃ header hs text count,
     server.Request_Headers req' = header :: hs
     ∧ server.Get header "Notifications-Count" = Return (text, true)
     ∧ strconv.Atoi text = (count, None)
     ∧ (0 ≤ count)%Z
     ∧ length hs = Z.to_nat count)
  ∧ Forall (λ h, ∀ key, ∃ value found, server.Get h key = Return (value, found))
      (server.Request_Headers req')
  ∧ server.Request_Version req' = server.Request_Version req
  ∧ server.Request_Type req' = server.Request_Type req
  ∧ main.apps w' = main.apps w ∧ main.notes w' = main.notes w
  ∧ main.downloads w' = main.downloads w.
Proof.
  intros HP. apply RegisterHandler_Parse_ok in HP
    as (header & hs & text & count & bs & [= ->] & Hget & Hatoi & Hcount & _ & Hlen
        & Hall & Happs & Hnotes & Hdl).
  cbn [server.Request_Headers server.Request_Version server.Request_Type].
  split; [by exists header, hs, text, count|].
  split; [|done].
  eapply Forall_impl; [exact Hall|]. intros h Hh key. by apply Get_well_read.
Qed.

(** A first block whose [Notifications-Count] is a negative number makes
    [Parse] panic, whatever follows on the connection: the slice of blocks
    cannot be made, or has no place for the first block.  For the
    connection this is the end without a response. *)
Theorem RegisterHandler_Parse_negative_count (b : Reader) (req : option server.Request)
    (w : main.World) (header : server.Header) (b1 : Reader) (text : string) (count : Z) :
  textproto.ReadMIMEHeader b = ((header, None), b1) →
  server.Get header "Notifications-Count" = Return (text, true) →
  strconv.Atoi text = (count, None) →
  (count < 0)%Z →
  (∃ msg, Parse b req w = Panic msg)
  ∧ ∃ msg, server.serve
             (Some (main.RegisterHandler filepath_Join os_Create_error maxAlloc
                      strings_ToLower))
             server.NewServeMux b w = Panic msg.
Proof.
  intros Hread Hget Hatoi Hneg.
  assert (∀ req, ∃ msg, Parse b req w = Panic msg) as HP.
  { intros r. subst Parse. unfold main.RegisterHandler_Parse.
    rewrite Hread, Hget. cbn [mbind outcome_bind negb]. rewrite Hatoi. cbv zeta.
    pose proof (Atoi_range _ _ Hatoi) as Hrange.
    assert (server.int (count + 1) = count + 1)%Z as ->.
    { unfold server.int. rewrite Z.mod_small by lia. lia. }
    destruct ((count + 1 <? 0)%Z || (maxAlloc <? 8 * (count + 1))%Z) eqn:Hmake;
      [by eexists|].
    apply orb_false_iff in Hmake as [Hlen _].
    destruct r; [|by eexists].
    replace (count + 1 =? 0)%Z with true by lia. by eexists. }
  split; [apply HP|].
  destruct (HP None) as [msg Hmsg]. exists msg.
  subst Parse. unfold server.serve, main.RegisterHandler, default.
  cbn [from_option id server.Handler_Parse]. by rewrite Hmsg.
Qed.

End Register.

(** ** What a REGISTER leaves for a NOTIFY *)

(** How often the loop of [buildApplication] runs: as often as the count
    says, but for the largest [int], where the bound wraps around. *)
Lemma blocks_of_count (count : Z) :
  (0 ≤ count < 2 ^ 63)%Z →
  Z.to_nat (server.int (count + 1) - 1)
  = if decide (count = 2 ^ 63 - 1)%Z then 0 else Z.to_nat count.
Proof.
  intros Hcount. unfold server.int. destruct (decide (count = 2 ^ 63 - 1)%Z) as [->|Hne].
  - done.
  - rewrite Z.mod_small by lia. f_equal. lia.
Qed.

Section Register_Respond.
Variable strings_ToLower : string → string.

Let loop := main.buildApplication_loop strings_ToLower.

Lemma buildApplication_loop_returns (app_name app_icon : string)
    (headers : list server.Header) (n i : nat)
    (notifications : gmap string main.Notification) (urls : list string) :
  i + n ≤ length headers → Forall well_read headers →
  ∃ r urls', loop app_name app_icon headers n i notifications urls = Return (r, urls')
             ∧ ((∃ ns, r = (Some ns, None))
                ∨ ∃ ge, r = (None, Some (GntpError_value ge))).
Proof.
  intros Hlen Hall. revert i notifications urls Hlen.
  induction n as [|n IH]; intros i notifications urls Hlen; subst loop; simpl.
  - eexists _, _. split; [done|]. left. by eexists.
  - destruct (headers !! i) as [h|] eqn:Hi;
      [|apply lookup_ge_None in Hi; lia].
    assert (well_read h) as Hh
      by (by eapply Forall_lookup_1).
    destruct (Get_well_read h "Notification-Name" Hh) as (name & ok & ->).
    cbn [mbind outcome_bind].
    destruct (negb ok || String.eqb name EmptyString).
    { eexists _, _. split; [done|]. right. by eexists. }
    destruct (notifications !! name).
    { eexists _, _. split; [done|]. right. by eexists. }
    destruct (Get_well_read h "Notification-Display" Hh) as (display & ok1 & ->).
    destruct (Get_well_read h "Notification-Enabled" Hh) as (enabled & ok2 & ->).
    destruct (Get_well_read h "Notification-Icon" Hh) as (icon & ok3 & ->).
    cbn [mbind outcome_bind]. apply IH. lia.
Qed.

Lemma buildApplication_loop_ok (app_name app_icon : string)
    (headers : list server.Header) (n i : nat)
    (notifications : gmap string main.Notification) (urls : list string)
    (notifications' : gmap string main.Notification) (urls' : list string) :
  loop app_name app_icon headers n i notifications urls
  = Return ((Some notifications', None), urls') →
  (∀ k x, notifications !! k = Some x → notifications' !! k = Some x)
  ∧ size notifications' = size notifications + n
  ∧ ∀ j, i ≤ j < i + n →
      ∃ h note, headers !! j = Some h
                ∧ notifications' !! main.Name note = Some note
                ∧ registered_as app_name app_icon h note.
Proof.
  revert i notifications urls. induction n as [|n IH]; intros i notifications urls;
    subst loop; simpl.
  - intros [= <- _]. split; [done|]. split; [lia|]. intros j Hj. lia.
  - destruct (headers !! i) as [h|] eqn:Hi; [|done].
    destruct (server.Get h "Notification-Name") as [[name ok]|] eqn:Hname; [|done].
    cbn [mbind outcome_bind].
    destruct (negb ok || String.eqb name EmptyString) eqn:Hok; [done|].
    apply orb_false_iff in Hok as [Hok Hne]. destruct ok; [|done].
    apply String.eqb_neq in Hne.
    destruct (notifications !! name) eqn:Hfresh; [done|].
    destruct (server.Get h "Notification-Display") as [[display ok1]|] eqn:Hdisplay;
      [|done].
    destruct (server.Get h "Notification-Enabled") as [[enabled ok2]|] eqn:Henabled;
      [|done].
    destruct (server.Get h "Notification-Icon") as [[icon ok3]|] eqn:Hicon; [|done].
    cbn [mbind outcome_bind]. intros Hloop.
    destruct (IH _ _ _ Hloop) as (Hkeep & Hsize & Hnotes).
    split; [|split].
    + intros k x Hk. apply Hkeep. rewrite lookup_insert_ne; [done|]. congruence.
    + rewrite Hsize, map_size_insert, Hfresh. simpl. lia.
    + intros j Hj. destruct (decide (j = i)) as [->|Hji]; [|apply Hnotes; lia].
      eexists h, _. split; [done|]. split.
      * apply Hkeep. cbn [main.Name]. apply lookup_insert_eq.
      * unfold registered_as.
        cbn [main.App main.Name main.Display main.Enabled main.Icon main.Id main.Title
             main.Text main.Sticky main.Priority main.Coalescing].
        rewrite Hdisplay, Henabled, Hicon.
        repeat split; try done; by intros v ok [= <- <-].
Qed.

Lemma buildApplication_ok (headers : list server.Header) (app : main.Application)
    (urls : list string) :
  main.buildApplication strings_ToLower headers = Return ((Some app, None), urls) →
  ∃ appHeader hs text,
    headers = appHeader :: hs
    ∧ server.Get appHeader "Application-Name" = Return (main.Application_Name app, true)
    ∧ main.Application_Name app ≠ EmptyString
    ∧ server.Get appHeader "Notifications-Count" = Return (text, true)
    ∧ strconv.Atoi text = (main.Count app, None)
    ∧ (0 ≤ main.Count app)%Z
    ∧ (∀ v ok, server.Get appHeader "Application-Icon" = Return (v, ok) →
         main.Application_Icon app = v)
    ∧ size (main.Notifications app) = Z.to_nat (server.int (main.Count app + 1) - 1)
    ∧ ∀ j, 1 ≤ j ≤ Z.to_nat (server.int (main.Count app + 1) - 1) →
        ∃ h note, headers !! j = Some h
                  ∧ main.Notifications app !! main.Name note = Some note
                  ∧ registered_as (main.Application_Name app)
                      (main.Application_Icon app) h note.
Proof.
  unfold main.buildApplication. destruct headers as [|appHeader hs]; [done|].
  destruct (server.Get appHeader "Application-Name") as [[name ok]|] eqn:Hname; [|done].
  cbn [mbind outcome_bind].
  destruct (negb ok || String.eqb name EmptyString) eqn:Hok; [done|].
  apply orb_false_iff in Hok as [Hok Hne]. destruct ok; [|done].
  apply String.eqb_neq in Hne.
  destruct (server.Get appHeader "Notifications-Count") as [[text ok]|] eqn:Hcount;
    [|done].
  cbn [mbind outcome_bind].
  destruct (negb ok || String.eqb text EmptyString) eqn:Hok1; [done|].
  apply orb_false_iff in Hok1 as [Hok1 _]. destruct ok; [|done].
  destruct (strconv.Atoi text) as [count e] eqn:Hatoi.
  destruct (bool_decide (is_Some e) || (count <? 0)%Z) eqn:Hbad; [done|].
  apply orb_false_iff in Hbad as [He Hpos].
  destruct e as [e|]; [by rewrite bool_decide_eq_true_2 in He|].
  destruct (server.Get appHeader "Application-Icon") as [[icon ok]|] eqn:Hicon; [|done].
  cbn [mbind outcome_bind].
  destruct (main.buildApplication_loop strings_ToLower name icon (appHeader :: hs)
              (Z.to_nat (server.int (count + 1) - 1)) 1 ∅ _)
    as [[[ns e] us]|] eqn:Hloop; [|done].
  cbn [mbind outcome_bind]. destruct e as [e|]; [done|]. destruct ns as [ns|]; [|done].
  intros [= <- <-]. cbn [main.Application_Name main.Count main.Application_Icon
                         main.Notifications].
  apply buildApplication_loop_ok in Hloop as (_ & Hsize & Hnotes).
  rewrite map_size_empty in Hsize.
  exists appHeader, hs, text. repeat split; try done; try lia.
  - intros v ok'. rewrite Hicon. by intros [= <- _].
  - intros j Hj. apply Hnotes. lia.
Qed.

End Register_Respond.

Lemma Get_total (h : server.Header) :
  map_Forall (λ _ values, values ≠ []) h →
  ∀ key, ∃ value found, server.Get h key = Return (value, found).
Proof.
  intros Hh key. unfold server.Get.
  destruct (h !! textproto.CanonicalMIMEHeaderKey key) as [[|v vs]|] eqn:Hk; eauto.
  by destruct (Hh _ _ Hk).
Qed.

Section Handlers.
Variable filepath_Join : string → string → string.
Variable os_Create_error : string → option error.
Variable maxAlloc : Z.
Variable strings_ToLower : string → string.

Lemma RegisterHandler_Respond_ok (req : server.Request) (w : main.World)
    (resp : server.Response) (w1 : main.World) :
  main.RegisterHandler_Respond strings_ToLower (Some req) w
  = Return ((Some resp, None), w1) →
  ∃ app urls,
    main.buildApplication strings_ToLower (server.Request_Headers req)
    = Return ((Some app, None), urls)
    ∧ resp = OK_response "REGISTER"
    ∧ w1 = {| main.apps := <[main.Application_Name app := app]> (main.apps w);
              main.binaryCache := main.binaryCache w;
              main.notes := main.notes w;
              main.downloads := urls ++ main.downloads w |}.
Proof.
  unfold main.RegisterHandler_Respond. cbv zeta.
  destruct (negb (server.Major (server.Request_Version req) =? 1)%Z
            && negb (server.Minor (server.Request_Version req) =? 0)%Z); [done|].
  destruct (main.buildApplication strings_ToLower (server.Request_Headers req))
    as [[[app e] urls]|]; [|done].
  cbn [mbind outcome_bind]. destruct e as [e|]; [done|]. destruct app as [app|]; [|done].
  intros [= <- <-]. by exists app, urls.
Qed.

Lemma buildApplication_returns (headers : list server.Header) :
  headers ≠ [] → Forall well_read headers →
  (∀ appHeader text count,
     head headers = Some appHeader →
     server.Get appHeader "Notifications-Count" = Return (text, true) →
     strconv.Atoi text = (count, None) → (0 ≤ count)%Z →
     1 + Z.to_nat count ≤ length headers) →
  ∃ r urls, main.buildApplication strings_ToLower headers = Return (r, urls)
            ∧ ((∃ app, r = (Some app, None))
               ∨ ∃ ge, r = (None, Some (GntpError_value ge))).
Proof.
  intros Hne Hall Hcount. unfold main.buildApplication.
  destruct headers as [|appHeader hs]; [done|].
  assert (well_read appHeader) as Hh by (by inversion Hall).
  destruct (Get_well_read appHeader "Application-Name" Hh) as (name & ok & ->).
  cbn [mbind outcome_bind].
  destruct (negb ok || String.eqb name EmptyString).
  { eexists _, _. split; [done|]. right. by eexists. }
  destruct (Get_well_read appHeader "Notifications-Count" Hh) as (text & ok1 & Htext).
  rewrite Htext. cbn [mbind outcome_bind].
  destruct (negb ok1 || String.eqb text EmptyString) eqn:Hok1.
  { eexists _, _. split; [done|]. right. by eexists. }
  apply orb_false_iff in Hok1 as [Hok1 _]. destruct ok1; [|done].
  destruct (strconv.Atoi text) as [count e] eqn:Hatoi.
  destruct (bool_decide (is_Some e) || (count <? 0)%Z) eqn:Hbad.
  { eexists _, _. split; [done|]. right. by eexists. }
  apply orb_false_iff in Hbad as [He Hpos].
  destruct e as [e|]; [by rewrite bool_decide_eq_true_2 in He|].
  destruct (Get_well_read appHeader "Application-Icon" Hh) as (icon & ok2 & ->).
  cbn [mbind outcome_bind].
  edestruct (buildApplication_loop_returns strings_ToLower name icon (appHeader :: hs)
               (Z.to_nat (server.int (count + 1) - 1)) 1 ∅) as (r & urls' & -> & Hr);
    [|done|].
  { pose proof (Atoi_range _ _ Hatoi) as Hrange.
    assert (0 ≤ count)%Z as Hpos' by lia.
    pose proof (Hcount appHeader text count eq_refl Htext Hatoi Hpos') as Hlen.
    rewrite blocks_of_count by lia.
    destruct (decide (count = 2 ^ 63 - 1)%Z); lia. }
  cbn [mbind outcome_bind].
  destruct Hr as [[ns ->]|[ge ->]].
  - eexists _, _. split; [done|]. left. by eexists.
  - eexists _, _. split; [done|]. right. by eexists.
Qed.

(** [Respond] of the REGISTER handler on a request that its [Parse]
    returned never panics: the blocks it indexes are there.  It returns
    either the response [Response-Action: REGISTER], or no response and an
    error of the taxonomy (stored by value) with the registered
    applications as before. *)
Theorem RegisterHandler_Respond_after_Parse (b : Reader) (req req' : server.Request)
    (w : main.World) (b' : Reader) (w' : main.World) :
  main.RegisterHandler_Parse filepath_Join os_Create_error maxAlloc b (Some req) w
  = Return ((Some req', None), b', w') →
  ∃ r w'',
    main.RegisterHandler_Respond strings_ToLower (Some req') w' = Return (r, w'')
    ∧ (r = (Some (OK_response "REGISTER"), None)
       ∨ ∃ ge, r = (None, Some (GntpError_value ge)) ∧ main.apps w'' = main.apps w').
Proof.
  intros HP. apply RegisterHandler_Parse_ok in HP
    as (header & hs & text & count & bs & [= ->] & Hget & Hatoi & Hcount & _ & Hlen
        & Hall & _).
  unfold main.RegisterHandler_Respond. cbv zeta. cbn [server.Request_Version
    server.Request_Headers].
  destruct (negb (server.Major (server.Request_Version req) =? 1)%Z
            && negb (server.Minor (server.Request_Version req) =? 0)%Z).
  { eexists _, _. split; [done|]. right. by eexists. }
  destruct (buildApplication_returns (header :: hs)) as (r & urls & -> & Hr); [done..| |].
  { intros appHeader text' count' [= <-]. rewrite Hget. intros [= <-].
    rewrite Hatoi. intros [= <-] _. simpl. lia. }
  cbn [mbind outcome_bind]. destruct Hr as [[app ->]|[ge ->]].
  - eexists _, _. split; [done|]. by left.
  - eexists _, _. split; [done|]. right. by eexists.
Qed.

(** A REGISTER that [Respond] accepts puts one application into the
    registry, under the name of the first block and with the count that the
    first block announces.  For a count below the largest [int] the
    application has as many notification types as announced: for each of
    the blocks that follow, one under the name of the block, with the
    block's display name, default for [Enabled] and icon.  For the largest
    [int] the bound of the loop wraps around, no block is read, and the
    application is registered without any notification type.  The response
    is [Response-Action: REGISTER], and the notifications sent and the
    cache are as before. *)
Theorem RegisterHandler_Respond_registers (req : server.Request) (w : main.World)
    (resp : server.Response) (w1 : main.World) :
  main.RegisterHandler_Respond strings_ToLower (Some req) w
  = Return ((Some resp, None), w1) →
  resp = OK_response "REGISTER"
  ∧ main.notes w1 = main.notes w ∧ main.binaryCache w1 = main.binaryCache w
  ∧ ∃ app appHeader hs text,
      main.apps w1 = <[main.Application_Name app := app]> (main.apps w)
      ∧ server.Request_Headers req = appHeader :: hs
      ∧ server.Get appHeader "Application-Name" = Return (main.Application_Name app, true)
      ∧ main.Application_Name app ≠ EmptyString
      ∧ server.Get appHeader "Notifications-Count" = Return (text, true)
      ∧ strconv.Atoi text = (main.Count app, None)
      ∧ (0 ≤ main.Count app ≤ 2 ^ 63 - 1)%Z
      ∧ (main.Count app = 2 ^ 63 - 1 → main.Notifications app = ∅)%Z
      ∧ ((main.Count app < 2 ^ 63 - 1)%Z →
         size (main.Notifications app) = Z.to_nat (main.Count app)
         ∧ ∀ k, k < Z.to_nat (main.Count app) →
             ∃ h note, hs !! k = Some h
                       ∧ main.Notifications app !! main.Name note = Some note
                       ∧ registered_as (main.Application_Name app)
                           (main.Application_Icon app) h note).
Proof.
  intros HR. apply RegisterHandler_Respond_ok in HR as (app & urls & Hbuild & -> & ->).
  split; [done|]. split; [done|]. split; [done|].
  apply buildApplication_ok in Hbuild
    as (appHeader & hs & text & Hheaders & Hname & Hne & Htext & Hatoi & Hpos & _
        & Hsize & Hnotes).
  pose proof (Atoi_range _ _ Hatoi) as Hrange.
  rewrite blocks_of_count in Hsize, Hnotes by lia.
  exists app, appHeader, hs, text.
  split; [done|]. split; [done|]. split; [done|]. split; [done|]. split; [done|].
  split; [done|]. split; [lia|]. split.
  - intros Hmax. rewrite decide_True in Hsize by done. by apply map_size_empty_iff.
  - intros Hsmall. rewrite decide_False in Hsize, Hnotes by lia. split; [done|].
    intros k Hk. destruct (Hnotes (S k)) as (h & note & Hh & Hnote); [lia|].
    rewrite Hheaders in Hh. by exists h, note.
Qed.

Lemma NotifyHandler_Respond_known (nreq : server.Request) (w : main.World)
    (nh : server.Header) (rest : list server.Header) (app : main.Application)
    (defaults : main.Notification) (app_name name title : string) :
  (server.Major (server.Request_Version nreq) = 1
   ∨ server.Minor (server.Request_Version nreq) = 0)%Z →
  server.Request_Headers nreq = nh :: rest →
  map_Forall (λ _ values, values ≠ []) nh →
  server.Get nh "Application-Name" = Return (app_name, true) →
  server.Get nh "Notification-Name" = Return (name, true) →
  server.Get nh "Notification-Title" = Return (title, true) →
  main.apps w !! app_name = Some app →
  main.Notifications app !! name = Some defaults →
  ∃ note w2,
    main.NotifyHandler_Respond strings_ToLower (Some nreq) w
    = Return ((Some (OK_response "NOTIFY"), None), w2)
    ∧ main.notes w2 = note :: main.notes w
    ∧ main.apps w2 = main.apps w
    ∧ main.binaryCache w2 = main.binaryCache w
    ∧ main.App note = main.Application_Name app
    ∧ main.Name note = name ∧ main.Title note = title
    ∧ main.Enabled note = main.Enabled defaults
    ∧ (∀ v ok, server.Get nh "Notification-Icon" = Return (v, ok) →
         main.Icon note = if (ok : bool) then v else main.Icon defaults).
Proof.
  intros Hversion Hheaders Hfull Happ Hname Htitle Hknown Hnote.
  pose proof (Get_total nh Hfull) as Hget.
  unfold main.NotifyHandler_Respond. cbv zeta.
  replace (negb (server.Major (server.Request_Version nreq) =? 1)%Z
           && negb (server.Minor (server.Request_Version nreq) =? 0)%Z) with false
    by (destruct Hversion as [-> | ->]; [done|by rewrite andb_false_r]).
  rewrite Hheaders. unfold main.buildNotification.
  rewrite Happ. cbn [mbind outcome_bind negb]. unfold main.Applications_Get.
  rewrite Hknown, Hname. cbn [mbind outcome_bind negb].
  rewrite Htitle. cbn [mbind outcome_bind negb]. rewrite Hnote.
  destruct (Hget "Notification-Icon") as (icon & ok & Hicon). rewrite Hicon.
  destruct (Hget "Notification-Id") as (id & ok1 & ->).
  destruct (Hget "Notification-Text") as (text & ok2 & ->).
  destruct (Hget "Notification-Sticky") as (sticky & ok3 & ->).
  destruct (Hget "Notification-Priority") as (priority & ok4 & ->).
  destruct (Hget "Notification-Coalescing") as (coalescing & ok5 & ->).
  cbn [mbind outcome_bind]. eexists _, _. split; [reflexivity|].
  cbn [main.notes main.apps main.binaryCache main.App main.Name main.Title
       main.Enabled main.Icon].
  repeat split; try done. by intros v ok' [= <- <-].
Qed.

(** REGISTER, then NOTIFY: after a REGISTER that [Respond] accepted and
    whose count is below the largest [int], a NOTIFY whose block (no key of
    which is bound to an empty list) names the registered application, the
    name of one of the announced notification blocks of the REGISTER and a
    title is accepted.  The notification handed on carries these three,
    and is enabled as the REGISTER block said in [Notification-Enabled];
    the response is [Response-Action: NOTIFY] and the registry stays as it
    is. *)
Theorem Register_then_Notify (req : server.Request) (w : main.World)
    (resp : server.Response) (w1 : main.World)
    (appHeader : server.Header) (hs : list server.Header) (text : string) (count : Z)
    (k : nat) (h : server.Header)
    (nreq : server.Request) (nh : server.Header) (rest : list server.Header)
    (app_name name title : string) :
  main.RegisterHandler_Respond strings_ToLower (Some req) w
  = Return ((Some resp, None), w1) →
  server.Request_Headers req = appHeader :: hs →
  server.Get appHeader "Application-Name" = Return (app_name, true) →
  server.Get appHeader "Notifications-Count" = Return (text, true) →
  strconv.Atoi text = (count, None) →
  hs !! k = Some h → (Z.of_nat k < count < 2 ^ 63 - 1)%Z →
  server.Get h "Notification-Name" = Return (name, true) →
  (server.Major (server.Request_Version nreq) = 1
   ∨ server.Minor (server.Request_Version nreq) = 0)%Z →
  server.Request_Headers nreq = nh :: rest →
  map_Forall (λ _ values, values ≠ []) nh →
  server.Get nh "Application-Name" = Return (app_name, true) →
  server.Get nh "Notification-Name" = Return (name, true) →
  server.Get nh "Notification-Title" = Return (title, true) →
  ∃ note w2,
    main.NotifyHandler_Respond strings_ToLower (Some nreq) w1
    = Return ((Some (OK_response "NOTIFY"), None), w2)
    ∧ main.notes w2 = note :: main.notes w1
    ∧ main.apps w2 = main.apps w1
    ∧ main.App note = app_name ∧ main.Name note = name ∧ main.Title note = title
    ∧ ∀ v ok, server.Get h "Notification-Enabled" = Return (v, ok) →
        main.Enabled note = (strconv.ParseBool v).1.
Proof.
  intros HR Hheaders Happ Htext Hatoi Hk Hcount Hname Hversion Hnheaders Hget
    Hnapp Hnname Hntitle.
  apply RegisterHandler_Respond_ok in HR as (app & urls & Hbuild & -> & ->).
  apply buildApplication_ok in Hbuild
    as (appHeader' & hs' & text' & Hheaders' & Happ' & _ & Htext' & Hatoi' & _ & _ & _
        & Hnotes).
  rewrite Hheaders in Hheaders'. injection Hheaders' as <- <-.
  rewrite Happ in Happ'. injection Happ' as Heq.
  rewrite Htext in Htext'. injection Htext' as <-.
  rewrite Hatoi in Hatoi'. injection Hatoi' as Hc.
  pose proof (Atoi_range _ _ Hatoi) as Hrange.
  rewrite blocks_of_count, decide_False in Hnotes by lia.
  destruct (Hnotes (S k)) as (h' & defaults & Hh & Hdefaults & Hreg); [lia|].
  rewrite Hheaders in Hh. change ((appHeader :: hs) !! S k) with (hs !! k) in Hh.
  rewrite Hk in Hh. injection Hh as <-.
  destruct Hreg as (_ & Hname' & _ & _ & Henabled & _).
  rewrite Hname in Hname'. injection Hname' as Hn.
  edestruct (NotifyHandler_Respond_known nreq
               {| main.apps := <[main.Application_Name app := app]> (main.apps w);
                  main.binaryCache := main.binaryCache w;
                  main.notes := main.notes w;
                  main.downloads := urls ++ main.downloads w |}
               nh rest app defaults app_name name title)
    as (note & w2 & HN & Hnotes2 & Happs2 & _ & HApp & HName & HTitle & HEnabled & _);
    try done.
  { cbn [main.apps]. rewrite Heq. apply lookup_insert_eq. }
  { by rewrite Hn. }
  exists note, w2. repeat split; try done.
  - by rewrite HApp, Heq.
  - intros v ok Hv. rewrite HEnabled. by apply (Henabled v ok).
Qed.

Lemma NotifyHandler_Parse_ok (b : Reader) (req : server.Request) (w : main.World)
    (req' : option server.Request) (b' : Reader) (w' : main.World) :
  main.NotifyHandler_Parse filepath_Join os_Create_error maxAlloc b (Some req) w
  = Return ((req', None), b', w') →
  ∃ header bs,
    req' = Some {| server.Request_Version := server.Request_Version req;
                   server.Request_Type := server.Request_Type req;
                   server.Request_Headers := [header];
                   server.Request_Binaries := bs |}
    ∧ well_read header
    ∧ main.apps w' = main.apps w ∧ main.notes w' = main.notes w
    ∧ main.downloads w' = main.downloads w.
Proof.
  unfold main.NotifyHandler_Parse.
  destruct (textproto.ReadMIMEHeader b) as [[header [e|]] b1] eqn:Hread; [done|].
  destruct (server.ReadBinaries b1 [header] (main.binaryCache w))
    as [[[[bs e] b2] cache]|]; [|done].
  cbn [mbind outcome_bind]. destruct e as [e|]; [done|].
  intros [= <- <- <-]. exists header, bs.
  split; [done|]. split; [by eapply ReadMIMEHeader_well_read|done].
Qed.

Lemma buildNotification_returns (apps : gmap string main.Application)
    (header : server.Header) :
  well_read header →
  ∃ r urls, main.buildNotification strings_ToLower apps header = Return (r, urls)
            ∧ ((∃ note, r = (Some note, None))
               ∨ ∃ ge, r = (None, Some (GntpError_value ge))).
Proof.
  intros Hh. unfold main.buildNotification, main.gntp_error.
  destruct (Get_well_read header "Application-Name" Hh) as (appName & ok & ->).
  cbn [mbind outcome_bind]. destruct ok; cbn [negb];
    [|eexists _, _; split; [done|]; right; by eexists].
  destruct (main.Applications_Get apps appName) as [app|];
    [|eexists _, _; split; [done|]; right; by eexists].
  destruct (Get_well_read header "Notification-Name" Hh) as (name & ok & ->).
  cbn [mbind outcome_bind]. destruct ok; cbn [negb];
    [|eexists _, _; split; [done|]; right; by eexists].
  destruct (Get_well_read header "Notification-Title" Hh) as (title & ok & ->).
  cbn [mbind outcome_bind]. destruct ok; cbn [negb];
    [|eexists _, _; split; [done|]; right; by eexists].
  destruct (main.Notifications app !! name) as [defaults|];
    [|eexists _, _; split; [done|]; right; by eexists].
  destruct (Get_well_read header "Notification-Icon" Hh) as (icon & ok & ->).
  destruct (Get_well_read header "Notification-Id" Hh) as (id & ok1 & ->).
  destruct (Get_well_read header "Notification-Text" Hh) as (text & ok2 & ->).
  destruct (Get_well_read header "Notification-Sticky" Hh) as (sticky & ok3 & ->).
  destruct (Get_well_read header "Notification-Priority" Hh) as (priority & ok4 & ->).
  destruct (Get_well_read header "Notification-Coalescing" Hh) as (coalescing & ok5 & ->).
  cbn [mbind outcome_bind]. eexists _, _. split; [done|]. left. by eexists.
Qed.

(** [Respond] of the NOTIFY handler on a request that its [Parse] returned
    never panics.  It returns either the response [Response-Action: NOTIFY]
    and hands on exactly one notification, or no response and an error of
    the taxonomy (stored by value) and hands on none.  In both cases the
    registered applications and the cache are as before. *)
Theorem NotifyHandler_Respond_after_Parse (b : Reader) (req req' : server.Request)
    (w : main.World) (b' : Reader) (w' : main.World) :
  main.NotifyHandler_Parse filepath_Join os_Create_error maxAlloc b (Some req) w
  = Return ((Some req', None), b', w') →
  ∃ r w'',
    main.NotifyHandler_Respond strings_ToLower (Some req') w' = Return (r, w'')
    ∧ ((r = (Some (OK_response "NOTIFY"), None)
        ∧ ∃ note, main.notes w'' = note :: main.notes w')
       ∨ (∃ ge, r = (None, Some (GntpError_value ge)))
         ∧ main.notes w'' = main.notes w')
    ∧ main.apps w'' = main.apps w'
    ∧ main.binaryCache w'' = main.binaryCache w'.
Proof.
  intros HP. apply NotifyHandler_Parse_ok in HP as (header & bs & [= ->] & Hh & _).
  unfold main.NotifyHandler_Respond. cbv zeta.
  cbn [server.Request_Version server.Request_Headers].
  destruct (negb (server.Major (server.Request_Version req) =? 1)%Z
            && negb (server.Minor (server.Request_Version req) =? 0)%Z).
  { eexists _, _. split; [done|]. split; [|done]. right. split; [by eexists|done]. }
  destruct (buildNotification_returns (main.apps w') header Hh) as (r & urls & -> & Hr).
  cbn [mbind outcome_bind]. destruct Hr as [[note ->]|[ge ->]].
  - eexists _, _. split; [done|]. split; [|done]. left. split; [done|by eexists].
  - eexists _, _. split; [done|]. split; [|done]. right. split; [by eexists|done].
Qed.

(** The version test of the two handlers refuses a request only when its
    major version is not 1 and its minor version is not 0 as well: then
    [Respond] returns the unknown-protocol-version error for that version
    and changes nothing.  With major version 1 or minor version 0 (as in
    GNTP/1.5 or GNTP/2.0) the request is answered as if it said GNTP/1.0. *)
Theorem Respond_version_test (v : server.Version) (type : string)
    (headers : list server.Header) (bs : gmap string server.Binary) (w : main.World) :
  let req v := Some {| server.Request_Version := v; server.Request_Type := type;
                       server.Request_Headers := headers;
                       server.Request_Binaries := bs |} in
  let refused := Return ((None, Some (GntpError_value
                                        (server.UnknownProtocolVersionError v))), w) in
  let v1 := {| server.Major := 1; server.Minor := 0 |} in
  (server.Major v ≠ 1%Z ∧ server.Minor v ≠ 0%Z →
   main.RegisterHandler_Respond strings_ToLower (req v) w = refused
   ∧ main.NotifyHandler_Respond strings_ToLower (req v) w = refused)
  ∧ (server.Major v = 1%Z ∨ server.Minor v = 0%Z →
     main.RegisterHandler_Respond strings_ToLower (req v) w
     = main.RegisterHandler_Respond strings_ToLower (req v1) w
     ∧ main.NotifyHandler_Respond strings_ToLower (req v) w
       = main.NotifyHandler_Respond strings_ToLower (req v1) w).
Proof.
  intros req refused v1. subst req refused v1.
  unfold main.RegisterHandler_Respond, main.NotifyHandler_Respond. cbv zeta.
  cbn [server.Request_Version server.Request_Headers server.Major server.Minor].
  split.
  - intros [Hmajor Hminor].
    rewrite (proj2 (Z.eqb_neq _ _) Hmajor), (proj2 (Z.eqb_neq _ _) Hminor). done.
  - intros Hv.
    replace (negb (server.Major v =? 1)%Z && negb (server.Minor v =? 0)%Z) with false
      by (destruct Hv as [-> | ->]; [done|by rewrite andb_false_r]).
    done.
Qed.

End Handlers.

Lemma RegisterHandler_Parse_request_witness :
  Forall (λ h, ∀ key, ∃ value found, server.Get h key = Return (value, found))
    (server.Request_Headers register_Foo_request).
Proof.
  refine (proj1 (proj2 (RegisterHandler_Parse_request join_slash (λ _, None)
                          linux_maxAlloc register_Foo_blocks register_directive
                          register_Foo_request empty_world EmptyString empty_world _))).
  vm_compute. reflexivity.
Defined.

Lemma RegisterHandler_Parse_negative_count_witness :
  ∃ msg, main.RegisterHandler_Parse join_slash (λ _, None) linux_maxAlloc
           register_negative_blocks (Some register_directive) empty_world = Panic msg.
Proof.
  refine (proj1 (RegisterHandler_Parse_negative_count join_slash (λ _, None)
                   linux_maxAlloc fold_case register_negative_blocks
                   (Some register_directive) empty_world
                   {[ "Application-Name" := ["Foo"]; "Notifications-Count" := ["-1"] ]}
                   EmptyString "-1" (-1) _ _ _ _)).
  - vm_compute. reflexivity.
  - vm_compute. reflexivity.
  - vm_compute. reflexivity.
  - lia.
Defined.

Lemma RegisterHandler_Respond_after_Parse_witness :
  ∃ r w'',
    main.RegisterHandler_Respond fold_case (Some register_Foo_request) empty_world
    = Return (r, w'')
    ∧ (r = (Some (OK_response "REGISTER"), None)
       ∨ ∃ ge, r = (None, Some (GntpError_value ge))
               ∧ main.apps w'' = main.apps empty_world).
Proof.
  refine (RegisterHandler_Respond_after_Parse join_slash (λ _, None) linux_maxAlloc
            fold_case register_Foo_blocks register_directive register_Foo_request
            empty_world EmptyString empty_world _).
  vm_compute. reflexivity.
Defined.

Lemma RegisterHandler_Respond_registers_witness :
  (main.notes world_Foo = main.notes empty_world
   ∧ main.binaryCache world_Foo = main.binaryCache empty_world)
  ∧ main.notes world_Foo_max = main.notes empty_world.
Proof.
  split.
  - refine ((λ H, conj (proj1 (proj2 H)) (proj1 (proj2 (proj2 H))))
              (RegisterHandler_Respond_registers fold_case register_Foo_request
                 empty_world (OK_response "REGISTER") world_Foo _)).
    vm_compute. reflexivity.
  - refine (proj1 (proj2 (RegisterHandler_Respond_registers fold_case
                            register_max_request empty_world (OK_response "REGISTER")
                            world_Foo_max _))).
    vm_compute. reflexivity.
Defined.

Lemma Register_then_Notify_witness :
  ∃ note w2,
    main.NotifyHandler_Respond fold_case (Some notify_Foo_request) world_Foo
    = Return ((Some (OK_response "NOTIFY"), None), w2)
    ∧ main.notes w2 = note :: main.notes world_Foo
    ∧ main.apps w2 = main.apps world_Foo
    ∧ main.App note = "Foo" ∧ main.Name note = "Bar" ∧ main.Title note = "Hello"
    ∧ ∀ v ok,
        server.Get {[ "Notification-Name" := ["Bar"]; "Notification-Enabled" := ["True"] ]}
          "Notification-Enabled" = Return (v, ok) →
        main.Enabled note = (strconv.ParseBool v).1.
Proof.
  refine (Register_then_Notify fold_case register_Foo_request empty_world
            (OK_response "REGISTER") world_Foo
            {[ "Application-Name" := ["Foo"]; "Notifications-Count" := ["1"] ]}
            [ {[ "Notification-Name" := ["Bar"]; "Notification-Enabled" := ["True"] ]} ]
            "1" 1 0
            {[ "Notification-Name" := ["Bar"]; "Notification-Enabled" := ["True"] ]}
            notify_Foo_request notify_Foo_header [] "Foo" "Bar" "Hello"
            _ _ _ _ _ _ _ _ _ _ _ _ _ _).
  - vm_compute. reflexivity.
  - reflexivity.
  - vm_compute. reflexivity.
  - vm_compute. reflexivity.
  - vm_compute. reflexivity.
  - reflexivity.
  - lia.
  - vm_compute. reflexivity.
  - by left.
  - reflexivity.
  - unfold notify_Foo_header.
    repeat (apply map_Forall_insert_2; [discriminate|]).
    apply map_Forall_empty.
  - vm_compute. reflexivity.
  - vm_compute. reflexivity.
  - vm_compute. reflexivity.
Defined.

Lemma NotifyHandler_Respond_after_Parse_witness :
  ∃ r w'',
    main.NotifyHandler_Respond fold_case (Some notify_Foo_request) world_Foo
    = Return (r, w'')
    ∧ ((r = (Some (OK_response "NOTIFY"), None)
        ∧ ∃ note, main.notes w'' = note :: main.notes world_Foo)
       ∨ (∃ ge, r = (None, Some (GntpError_value ge)))
         ∧ main.notes w'' = main.notes world_Foo)
    ∧ main.apps w'' = main.apps world_Foo
    ∧ main.binaryCache w'' = main.binaryCache world_Foo.
Proof.
  refine (NotifyHandler_Respond_after_Parse join_slash (λ _, None) linux_maxAlloc
            fold_case notify_Foo_blocks notify_directive notify_Foo_request
            world_Foo EmptyString world_Foo _).
  vm_compute. reflexivity.
Defined.

Lemma Respond_version_test_witness :
  let req v := Some {| server.Request_Version := v; server.Request_Type := "NOTIFY";
                       server.Request_Headers := [notify_Foo_header];
                       server.Request_Binaries := ∅ |} in
  main.NotifyHandler_Respond fold_case (req {| server.Major := 2; server.Minor := 0 |})
    world_Foo
  = main.NotifyHandler_Respond fold_case (req {| server.Major := 1; server.Minor := 0 |})
      world_Foo
  ∧ main.NotifyHandler_Respond fold_case (req {| server.Major := 2; server.Minor := 1 |})
      world_Foo
    = Return ((None, Some (GntpError_value
                             (server.UnknownProtocolVersionError
                                {| server.Major := 2; server.Minor := 1 |}))), world_Foo).
Proof.
  intros req. split.
  - refine (proj2 (proj2 (Respond_version_test fold_case
                            {| server.Major := 2; server.Minor := 0 |} "NOTIFY"
                            [notify_Foo_header] ∅ world_Foo) _)).
    by right.
  - refine (proj2 (proj1 (Respond_version_test fold_case
                            {| server.Major := 2; server.Minor := 1 |} "NOTIFY"
                            [notify_Foo_header] ∅ world_Foo) _)).
    split; discriminate.
Defined.

(** ** The response on the wire *)

Ltac wire :=
  repeat (progress (simpl; rewrite ?str_app_nil_r, ?str_app_assoc)); reflexivity.

Lemma write_headers_one (h : server.Header) (hout : string) :
  server.write_headers [h] hout ↔ ∃ out, server.Write h out ∧ hout = (out +:+ CRLF)%string.
Proof.
  split.
  - intros H. inversion H as [|h' hs out outs Hout Hrest]; subst.
    inversion Hrest; subst. exists out. by rewrite str_app_nil_r.
  - intros (out & Hout & ->). rewrite <- (str_app_nil_r CRLF).
    apply server.write_headers_cons; [done|constructor].
Qed.

Lemma Response_write_one (resp : server.Response) (h : server.Header) (out : string) :
  server.Response_Headers resp = [h] → server.Response_Binaries resp = ∅ →
  server.Response_write resp out
  ↔ ∃ entries, entries ≡ₚ map_to_list h
               ∧ out = (server.write_directive resp +:+ server.Write_entries entries
                        +:+ CRLF)%string.
Proof.
  intros Hh Hb. split.
  - intros H. destruct H as [hout entries Hhout Hentries].
    rewrite Hh in Hhout. rewrite Hb, map_to_list_empty in Hentries.
    apply Permutation_nil_r in Hentries as ->.
    apply write_headers_one in Hhout as (o & Ho & ->). destruct Ho as [es Hes].
    exists es. split; [done|]. simpl. by rewrite str_app_nil_r.
  - intros (entries & Hentries & ->).
    replace (server.write_directive resp +:+ server.Write_entries entries +:+ CRLF)%string
      with (server.write_directive resp +:+ (server.Write_entries entries +:+ CRLF)
            +:+ server.write_binaries [])%string
      by (simpl; by rewrite str_app_nil_r).
    apply server.Response_write_range.
    + rewrite Hh. apply write_headers_one. eexists. split; [|done]. by constructor.
    + by rewrite Hb, map_to_list_empty.
Qed.

(** What goes over the wire.  For the response of a handler to an accepted
    request: the directive line [GNTP/1.0 -OK NONE], the line
    [Response-Action] and a blank line.  For the response of an error: the
    directive line [GNTP/1.0 -ERROR NONE], the lines [Error-Code] and
    [Error-Description] in one order or the other, and a blank line.
    Nothing else is ever written for them, and no binary section. *)
Theorem Response_write_text :
  (∀ action out,
     server.Response_write (OK_response action) out
     ↔ out = (line "GNTP/1.0 -OK NONE" +:+ server.Write_line "Response-Action" action
              +:+ CRLF)%string)
  ∧ ∀ g out,
      server.Response_write (server.GntpError_Response g) out
      ↔ let code := server.Write_line "Error-Code" (strconv.Itoa (Code g)) in
        let description := server.Write_line "Error-Description" (Description g) in
        out = (line "GNTP/1.0 -ERROR NONE" +:+ code +:+ description +:+ CRLF)%string
        ∨ out = (line "GNTP/1.0 -ERROR NONE" +:+ description +:+ code +:+ CRLF)%string.
Proof.
  split.
  - intros action out.
    rewrite (Response_write_one _ (server.Set_ server.NewHeader "Response-Action" action))
      by done.
    change (server.Set_ server.NewHeader "Response-Action" action)
      with ({[ "Response-Action" := [action] ]} : server.Header).
    rewrite map_to_list_singleton. split.
    + intros (entries & Hentries & ->).
      apply Permutation_singleton_r in Hentries as ->.
      simpl. by rewrite !str_app_nil_r.
    + intros ->. exists [("Response-Action"%string, [action])]. split; [done|].
      simpl. by rewrite !str_app_nil_r.
  - intros g out. cbv zeta.
    set (code := ("Error-Code"%string, [strconv.Itoa (Code g)])).
    set (description := ("Error-Description"%string, [Description g])).
    rewrite (Response_write_one _
               (<["Error-Code"%string := [strconv.Itoa (Code g)]]>
                  ({[ "Error-Description"%string := [Description g] ]} : server.Header)))
      by done.
    assert (map_to_list
              (<["Error-Code"%string := [strconv.Itoa (Code g)]]>
                 ({[ "Error-Description"%string := [Description g] ]} : server.Header))
            ≡ₚ [code; description]) as Hlist.
    { rewrite map_to_list_insert by done. by rewrite map_to_list_singleton. }
    split.
    + intros (entries & Hentries & ->). rewrite Hlist in Hentries.
      symmetry in Hentries. apply Permutation_length_2_inv in Hentries as [-> | ->].
      * left. wire.
      * right. wire.
    + intros [-> | ->].
      * exists [code; description]. split; [done|].
        wire.
      * exists [description; code]. split; [by rewrite Hlist; apply perm_swap|].
        wire.
Qed.

Lemma Response_write_text_witness :
  server.Response_write (OK_response "REGISTER")
    (line "GNTP/1.0 -OK NONE" +:+ line "Response-Action: REGISTER" +:+ CRLF).
Proof.
  exact (proj2 (proj1 Response_write_text "REGISTER"
                  (line "GNTP/1.0 -OK NONE" +:+ line "Response-Action: REGISTER" +:+ CRLF)%string)
           eq_refl).
Defined.

(** ** The accept loop and the address *)

Lemma backoff_range (tempDelay : Z) :
  (tempDelay = 0 ∨ 5 * server.Millisecond ≤ tempDelay ≤ server.Second)%Z →
  (5 * server.Millisecond ≤ server.backoff tempDelay ≤ server.Second)%Z
  ∧ (0 < tempDelay → server.backoff tempDelay = Z.min (2 * tempDelay) server.Second)%Z.
Proof.
  intros Hd. unfold server.backoff, server.int, server.Millisecond, server.Second in *.
  cbv zeta. destruct (Z.eqb_spec tempDelay 0) as [->|H0].
  - split; [done|lia].
  - rewrite Z.mod_small by lia.
    replace (tempDelay * 2 + 2 ^ 63 - 2 ^ 63)%Z with (tempDelay * 2)%Z by lia.
    destruct (Z.ltb_spec (1 * 1000000000) (tempDelay * 2)).
    + split; [lia|]. intros _. rewrite Z.min_r; lia.
    + split; [lia|]. intros _. rewrite Z.min_l; lia.
Qed.

Lemma accept_loop_sleeps {Conn : Type} (calls : list (server.accepted Conn))
    (tempDelay : Z) :
  (tempDelay = 0 ∨ 5 * server.Millisecond ≤ tempDelay ≤ server.Second)%Z →
  Forall (λ d, 5 * server.Millisecond ≤ d ≤ server.Second)%Z
    (server.accept_loop calls tempDelay).1.1.
Proof.
  revert tempDelay. induction calls as [|[rw| |err shutdown] calls IH];
    intros tempDelay Hd; simpl; [done| | |done].
  - specialize (IH 0%Z). destruct (server.accept_loop calls 0) as [[sleeps conns] e].
    apply IH. by left.
  - destruct (backoff_range tempDelay Hd) as [Hb _].
    specialize (IH (server.backoff tempDelay)).
    destruct (server.accept_loop calls (server.backoff tempDelay)) as [[sleeps conns] e].
    simpl. constructor; [done|]. apply IH. by right.
Qed.

Lemma nth_delay_S (k : nat) :
  server.backoff (nth_delay k) = nth_delay (S k).
Proof.
  assert (5 * server.Millisecond ≤ nth_delay k ≤ server.Second)%Z as Hk.
  { unfold nth_delay, server.Millisecond, server.Second.
    assert (0 < 2 ^ Z.of_nat k)%Z by (apply Z.pow_pos_nonneg; lia).
    destruct (Z.min_spec (5 * 1000000 * 2 ^ Z.of_nat k) 1000000000) as [[? ->]|[? ->]];
      lia. }
  rewrite (proj2 (backoff_range (nth_delay k) (or_intror Hk)))
    by (unfold server.Millisecond in Hk; lia).
  unfold nth_delay. rewrite Nat2Z.inj_succ, Z.pow_succ_r by lia.
  unfold server.Millisecond, server.Second.
  assert (0 < 2 ^ Z.of_nat k)%Z by (apply Z.pow_pos_nonneg; lia).
  destruct (Z.min_spec (5 * 1000000 * 2 ^ Z.of_nat k) 1000000000) as [[? ->]|[? ->]];
    destruct (Z.min_spec (5 * 1000000 * (2 * 2 ^ Z.of_nat k)) 1000000000)
      as [[? ->]|[? ->]];
    [rewrite Z.min_l by lia|rewrite Z.min_r by lia|rewrite Z.min_r by lia
    |rewrite Z.min_r by lia]; lia.
Qed.

Lemma accept_loop_temporary {Conn : Type} (n k : nat) (calls : list (server.accepted Conn)) :
  server.accept_loop (replicate n server.Accept_temporary ++ calls) (nth_delay k)
  = let '(sleeps, conns, e) := server.accept_loop calls (nth_delay (n + k)) in
    (map nth_delay (seq (S k) n) ++ sleeps, conns, e).
Proof.
  revert k. induction n as [|n IH]; intros k; simpl.
  - by destruct (server.accept_loop calls (nth_delay k)) as [[sleeps conns] e].
  - rewrite nth_delay_S, IH. replace (n + S k) with (S (n + k)) by lia.
    by destruct (server.accept_loop calls (nth_delay (S (n + k)))) as [[sleeps conns] e].
Qed.

(** The pauses of the accept loop.  From the start of the loop on, each
    pause lasts between 5 ms and a second, whatever [Accept] returns.  After a connection, and at the
    start, a run of temporary errors is paused for 5 ms, 10 ms, 20 ms and
    so on, doubled each time and held at a second; the connection after
    the run is handed on without a pause of its own and takes the next
    pause back to 5 ms. *)
Theorem accept_loop_backoff {Conn : Type} :
  (∀ calls : list (server.accepted Conn),
     Forall (λ d, 5 * server.Millisecond ≤ d ≤ server.Second)%Z
       (server.accept_loop calls 0).1.1)
  ∧ ∀ n (rw : Conn) calls tempDelay,
      server.accept_loop
        (server.Accept_conn rw :: replicate n server.Accept_temporary ++ calls) tempDelay
      = let '(sleeps, conns, e) :=
          server.accept_loop calls (if n is 0 then 0%Z else nth_delay (n - 1)) in
        (map nth_delay (seq 0 n) ++ sleeps, rw :: conns, e).
Proof.
  split; [intros calls; apply accept_loop_sleeps; by left|].
  intros n rw calls tempDelay. cbn [server.accept_loop].
  destruct n as [|n].
  - simpl. by destruct (server.accept_loop calls 0) as [[sleeps conns] e].
  - cbn [replicate app server.accept_loop].
    change (server.backoff 0) with (nth_delay 0).
    rewrite accept_loop_temporary. replace (n + 0) with n by lia.
    replace (S n - 1) with n by lia.
    by destruct (server.accept_loop calls (nth_delay n)) as [[sleeps conns] e].
Qed.

Lemma accept_loop_backoff_witness :
  Forall (λ d, 5 * server.Millisecond ≤ d ≤ server.Second)%Z
    (server.accept_loop
       [server.Accept_temporary; server.Accept_temporary; server.Accept_conn tt;
        server.Accept_temporary] 0).1.1.
Proof.
  exact (proj1 (@accept_loop_backoff unit) _).
Defined.

(** The end of the accept loop.  Up to the first error of [Accept] that is
    not temporary, every connection accepted is handed on, in order.  At
    that error the loop is over, whatever [Accept] would return later: it
    waits for the connections when the server was told to shut down, and
    returns the error when not. *)
Theorem accept_loop_ends {Conn : Type} (calls more : list (server.accepted Conn))
    (err : error) (shutdown : bool) (tempDelay : Z) :
  no_fatal calls →
  (server.accept_loop (calls ++ server.Accept_error err shutdown :: more) tempDelay).1.2
  = connections calls
  ∧ (server.accept_loop (calls ++ server.Accept_error err shutdown :: more) tempDelay).2
    = (if shutdown then server.Loop_shutdown else server.Loop_failed err)
  ∧ (server.accept_loop calls tempDelay).1.2 = connections calls
  ∧ (server.accept_loop calls tempDelay).2 = server.Loop_accepting.
Proof.
  intros Hcalls. revert tempDelay.
  induction Hcalls as [|[rw| |e s] calls Hc Hcalls IH]; intros tempDelay;
    [done| | |done].
  - cbn [app server.accept_loop]. specialize (IH 0%Z).
    destruct (server.accept_loop (calls ++ _) 0) as [[sleeps conns] e].
    destruct (server.accept_loop calls 0) as [[sleeps' conns'] e'].
    cbn [fst snd] in *. destruct IH as (-> & -> & -> & ->). done.
  - cbn [app server.accept_loop]. specialize (IH (server.backoff tempDelay)).
    destruct (server.accept_loop (calls ++ _) _) as [[sleeps conns] e].
    destruct (server.accept_loop calls _) as [[sleeps' conns'] e'].
    cbn [fst snd] in *. destruct IH as (-> & -> & -> & ->). done.
Qed.

Lemma accept_loop_ends_witness :
  (server.accept_loop
     ([server.Accept_conn 1; server.Accept_temporary; server.Accept_conn 2]
      ++ server.Accept_error io_EOF true :: [server.Accept_conn 3]) 0).1.2
  = [1; 2].
Proof.
  refine (proj1 (accept_loop_ends
                   [server.Accept_conn 1; server.Accept_temporary; server.Accept_conn 2]
                   [server.Accept_conn 3] io_EOF true 0 _)).
  repeat constructor.
Defined.

Lemma prefix_app (p rest : string) : String.prefix p (p +:+ rest) = true.
Proof.
  induction p as [|c p IH]; simpl; [by destruct rest|].
  destruct (ascii_dec c c); [apply IH|done].
Qed.

Lemma HasSuffix_app (host suffix : string) :
  strings.HasSuffix (host +:+ suffix) suffix = true.
Proof. unfold strings.HasSuffix. rewrite str_rev_app_distr. apply prefix_app. Qed.

(** The address that [Start] listens on: a server without an address
    listens on every interface at port 23053; an address that ends in
    [:gntp] keeps what is before it and gets the port 23053 for the service
    name; every other address is used as it is. *)
Theorem listen_addr_port :
  server.listen_addr EmptyString = ":23053"%string
  ∧ (∀ host, server.listen_addr (host +:+ ":gntp") = (host +:+ ":23053")%string)
  ∧ ∀ addr, addr ≠ EmptyString → strings.HasSuffix addr ":gntp" = false →
            server.listen_addr addr = addr.
Proof.
  split; [done|]. split.
  - intros host. unfold server.listen_addr.
    replace (String.eqb (host +:+ ":gntp") EmptyString) with false
      by (by destruct host).
    rewrite HasSuffix_app, str_length_app.
    replace (String.length host + String.length ":gntp" - 5) with (String.length host)
      by (simpl; lia).
    by rewrite str_take_app.
  - intros addr Hne Hsuffix. unfold server.listen_addr.
    rewrite (proj2 (String.eqb_neq _ _) Hne). by rewrite Hsuffix.
Qed.

Lemma listen_addr_port_witness :
  server.listen_addr "localhost:8080" = "localhost:8080"%string.
Proof.
  refine (proj2 (proj2 listen_addr_port) "localhost:8080"%string _ _).
  - discriminate.
  - reflexivity.
Defined.

(** ** From the directive line to the response *)

Section serve_dispatch.
Context {St : Type}.
Implicit Types (mux : server.ServeMux St) (h : server.Handler St) (st : St).

(** A connection whose directive line is well formed and names a registered
    type is served by the handler registered for that type: its [Parse]
    gets the rest of the connection and a request with the version and the
    type of the line, and its [Respond] gets the request that its [Parse]
    returned, if that still has the same type.  The response of [Respond]
    is the response of the connection, and a panic of [Respond] ends the
    connection without a response. *)
Theorem serve_dispatch mux h (b : Reader) (s : string) (b1 : Reader)
    (f0 f1 : string) (major minor : Z) st (req' : server.Request) (b2 : Reader) st1 :
  textproto.ReadLine b = ((s, None), b1) →
  strings.SplitN s SP 3 = [f0; f1; "NONE"%string] →
  server.parseGntpVersion f0 = (major, minor, true) →
  server.m mux !! f1 = Some h →
  server.Handler_Parse h b1
    (Some (server.with_type (server.with_version server.new_Request major minor) f1)) st
  = Return ((Some req', None), b2, st1) →
  server.Request_Type req' = f1 →
  (∀ resp st2,
     server.Handler_Respond h (Some req') st1 = Return ((Some resp, None), st2) →
     server.serve None mux b st = Return (resp, b2, st2))
  ∧ (∀ msg,
       server.Handler_Respond h (Some req') st1 = Panic msg →
       server.serve None mux b st = Panic msg).
Proof.
  intros Hline Hsplit Hok Hh HP Htype.
  assert (server.Parse mux b None st = Return ((Some req', None), b2, st1)) as Hparse.
  { rewrite (Parse_version_ok mux b None st s b1 f0 f1 "NONE" major minor) by done.
    cbv zeta. cbn [String.eqb]. unfold server.handler. rewrite Hh. exact HP. }
  assert (server.Respond mux (Some req') st1 = server.Handler_Respond h (Some req') st1)
    as Hrespond.
  { unfold server.Respond, server.handler. by rewrite Htype, Hh. }
  split.
  - intros resp st2 HR. unfold server.serve. cbn [default from_option id
      server.ServeMux_Handler server.Handler_Parse server.Handler_Respond].
    rewrite Hparse. cbn [mbind outcome_bind]. by rewrite Hrespond, HR.
  - intros msg HR. unfold server.serve. cbn [default from_option id
      server.ServeMux_Handler server.Handler_Parse server.Handler_Respond].
    rewrite Hparse. cbn [mbind outcome_bind]. by rewrite Hrespond, HR.
Qed.

End serve_dispatch.

Lemma serve_dispatch_witness :
  server.serve None handlers_mux register_Foo empty_world
  = Return (OK_response "REGISTER", EmptyString, world_Foo).
Proof.
  refine (proj1 (serve_dispatch handlers_mux
                   (main.RegisterHandler join_slash (λ _, None) linux_maxAlloc fold_case)
                   register_Foo "GNTP/1.0 REGISTER NONE" register_Foo_blocks
                   "GNTP/1.0" "REGISTER" 1 0 empty_world register_Foo_request
                   EmptyString empty_world _ _ _ _ _ _)
            (OK_response "REGISTER") world_Foo _).
  - vm_compute. reflexivity.
  - vm_compute. reflexivity.
  - vm_compute. reflexivity.
  - reflexivity.
  - vm_compute. reflexivity.
  - reflexivity.
  - vm_compute. reflexivity.
Defined.

(** ** Notification names in a REGISTER *)

Section Register_names.
Variable filepath_Join : string → string → string.
Variable os_Create_error : string → option error.
Variable maxAlloc : Z.
Variable strings_ToLower : string → string.

Lemma buildApplication_loop_distinct (app_name app_icon : string)
    (headers : list server.Header) (n i : nat)
    (notifications : gmap string main.Notification) (urls : list string)
    (notifications' : gmap string main.Notification) (urls' : list string) :
  main.buildApplication_loop strings_ToLower app_name app_icon headers n i
    notifications urls
  = Return ((Some notifications', None), urls') →
  (∀ j h name, i ≤ j < i + n → headers !! j = Some h →
     server.Get h "Notification-Name" = Return (name, true) →
     notifications !! name = None)
  ∧ ∀ j1 j2 h1 h2 name, i ≤ j1 → j1 < j2 → j2 < i + n →
      headers !! j1 = Some h1 → headers !! j2 = Some h2 →
      server.Get h1 "Notification-Name" = Return (name, true) →
      server.Get h2 "Notification-Name" = Return (name, true) → False.
Proof.
  revert i notifications urls. induction n as [|n IH]; intros i notifications urls; simpl.
  - intros _. split; intros; lia.
  - destruct (headers !! i) as [h|] eqn:Hi; [|done].
    destruct (server.Get h "Notification-Name") as [[name0 ok]|] eqn:Hname; [|done].
    cbn [mbind outcome_bind].
    destruct (negb ok || String.eqb name0 EmptyString) eqn:Hok; [done|].
    apply orb_false_iff in Hok as [Hok _]. destruct ok; [|done].
    destruct (notifications !! name0) eqn:Hfresh; [done|].
    destruct (server.Get h "Notification-Display") as [[display ok1]|]; [|done].
    destruct (server.Get h "Notification-Enabled") as [[enabled ok2]|]; [|done].
    destruct (server.Get h "Notification-Icon") as [[icon ok3]|]; [|done].
    cbn [mbind outcome_bind]. intros Hloop.
    destruct (IH _ _ _ Hloop) as [Hnew Hdistinct]. split.
    + intros j hj name Hj Hhj Hget. destruct (decide (j = i)) as [->|Hji].
      * rewrite Hi in Hhj. injection Hhj as <-. rewrite Hname in Hget. by injection Hget as <-.
      * specialize (Hnew j hj name ltac:(lia) Hhj Hget).
        by apply lookup_insert_None in Hnew as [? _].
    + intros j1 j2 h1 h2 name H1 H12 H2 Hh1 Hh2 Hg1 Hg2.
      destruct (decide (j1 = i)) as [->|Hji].
      * rewrite Hi in Hh1. injection Hh1 as <-. rewrite Hname in Hg1. injection Hg1 as <-.
        specialize (Hnew j2 h2 name0 ltac:(lia) Hh2 Hg2).
        by apply lookup_insert_None in Hnew as [_ ?].
      * apply (Hdistinct j1 j2 h1 h2 name); (done || lia).
Qed.

Lemma buildApplication_distinct (headers : list server.Header) (app : main.Application)
    (urls : list string) (j1 j2 : nat) (h1 h2 : server.Header) (name : string) :
  main.buildApplication strings_ToLower headers = Return ((Some app, None), urls) →
  1 ≤ j1 → j1 < j2 → j2 ≤ Z.to_nat (server.int (main.Count app + 1) - 1) →
  headers !! j1 = Some h1 → headers !! j2 = Some h2 →
  server.Get h1 "Notification-Name" = Return (name, true) →
  server.Get h2 "Notification-Name" = Return (name, true) → False.
Proof.
  unfold main.buildApplication. destruct headers as [|appHeader hs]; [done|].
  destruct (server.Get appHeader "Application-Name") as [[aname ok]|]; [|done].
  cbn [mbind outcome_bind].
  destruct (negb ok || String.eqb aname EmptyString); [done|].
  destruct (server.Get appHeader "Notifications-Count") as [[text ok1]|]; [|done].
  cbn [mbind outcome_bind].
  destruct (negb ok1 || String.eqb text EmptyString); [done|].
  destruct (strconv.Atoi text) as [count e].
  destruct (bool_decide (is_Some e) || (count <? 0)%Z); [done|].
  destruct (server.Get appHeader "Application-Icon") as [[icon ok2]|]; [|done].
  cbn [mbind outcome_bind].
  destruct (main.buildApplication_loop strings_ToLower aname icon (appHeader :: hs)
              (Z.to_nat (server.int (count + 1) - 1)) 1 ∅ _)
    as [[[ns e'] us]|] eqn:Hloop; [|done].
  cbn [mbind outcome_bind]. destruct e' as [e'|]; [done|]. destruct ns as [ns|]; [|done].
  intros [= <- <-]. cbn [main.Count].
  apply buildApplication_loop_distinct in Hloop as [_ Hdistinct].
  intros H1 H12 H2. apply Hdistinct; lia.
Qed.

(** A REGISTER that [Parse] accepted and in which two of the notification
    blocks carry the same [Notification-Name] is refused by [Respond]: it
    returns no response and an error of the taxonomy, and the registered
    applications are as before. *)
Theorem RegisterHandler_duplicate_name (b : Reader) (req0 req : server.Request)
    (w0 : main.World) (b' : Reader) (w : main.World)
    (appHeader : server.Header) (hs : list server.Header)
    (k1 k2 : nat) (h1 h2 : server.Header) (name : string) :
  main.RegisterHandler_Parse filepath_Join os_Create_error maxAlloc b (Some req0) w0
  = Return ((Some req, None), b', w) →
  server.Request_Headers req = appHeader :: hs →
  hs !! k1 = Some h1 → hs !! k2 = Some h2 → k1 < k2 →
  server.Get h1 "Notification-Name" = Return (name, true) →
  server.Get h2 "Notification-Name" = Return (name, true) →
  ∃ ge w',
    main.RegisterHandler_Respond strings_ToLower (Some req) w
    = Return ((None, Some (GntpError_value ge)), w')
    ∧ main.apps w' = main.apps w.
Proof.
  intros HP Hheaders Hk1 Hk2 Hlt Hg1 Hg2.
  apply RegisterHandler_Parse_ok in HP
    as (header & hs' & text & count & bs & [= ->] & Hget & Hatoi & Hcount & [Hsmall _]
        & Hlen & Hall & _).
  cbn [server.Request_Headers] in Hheaders. injection Hheaders as -> ->.
  unfold main.RegisterHandler_Respond. cbv zeta.
  cbn [server.Request_Version server.Request_Headers].
  destruct (negb (server.Major (server.Request_Version req0) =? 1)%Z
            && negb (server.Minor (server.Request_Version req0) =? 0)%Z).
  { by eexists _, _. }
  destruct (buildApplication_returns strings_ToLower (appHeader :: hs))
    as (r & urls & Hbuild & Hr); [done..| |].
  { intros appHeader' text' count' [= <-]. rewrite Hget. intros [= <-].
    rewrite Hatoi. intros [= <-] _. simpl. lia. }
  rewrite Hbuild. cbn [mbind outcome_bind]. destruct Hr as [[app ->]|[ge ->]].
  - exfalso.
    pose proof (buildApplication_ok strings_ToLower _ _ _ Hbuild)
      as (appHeader' & hs' & text' & [= <- <-] & _ & _ & Htext' & Hatoi' & _).
    rewrite Hget in Htext'. injection Htext' as <-.
    rewrite Hatoi in Hatoi'. injection Hatoi' as Hc.
    apply lookup_lt_Some in Hk2 as Hk2'.
    apply (buildApplication_distinct (appHeader :: hs) app urls (S k1) (S k2) h1 h2 name);
      try (done || lia).
    rewrite blocks_of_count, decide_False by lia. lia.
  - by eexists _, _.
Qed.

End Register_names.

Lemma RegisterHandler_duplicate_name_witness :
  ∃ ge w',
    main.RegisterHandler_Respond fold_case (Some register_twice_request) empty_world
    = Return ((None, Some (GntpError_value ge)), w')
    ∧ main.apps w' = main.apps empty_world.
Proof.
  refine (RegisterHandler_duplicate_name join_slash (λ _, None) linux_maxAlloc fold_case
            register_twice_blocks register_directive register_twice_request
            empty_world EmptyString empty_world
            {[ "Application-Name" := ["Foo"]; "Notifications-Count" := ["2"] ]}
            [ {[ "Notification-Name" := ["Bar"] ]}; {[ "Notification-Name" := ["Bar"] ]} ]
            0 1 {[ "Notification-Name" := ["Bar"] ]} {[ "Notification-Name" := ["Bar"] ]}
            "Bar" _ _ _ _ _ _ _).
  - vm_compute. reflexivity.
  - reflexivity.
  - reflexivity.
  - reflexivity.
  - lia.
  - vm_compute. reflexivity.
  - vm_compute. reflexivity.
Defined.

(** ** The errors of a NOTIFY *)

Section Notify_errors.
Variable strings_ToLower : string → string.

(** The order in which [Respond] of the NOTIFY handler refuses a request
    that passes the version test: a block without [Application-Name] as a
    missing header; then an application that is not registered; then a
    block without [Notification-Name] and, after that, one without
    [Notification-Title] as missing headers; then a notification name that
    the application did not register.  Each time there is no response, the
    error is stored by value, no notification is handed on and the registry
    is as before. *)
Theorem NotifyHandler_Respond_errors (nreq : server.Request) (w : main.World)
    (nh : server.Header) (rest : list server.Header) :
  (server.Major (server.Request_Version nreq) = 1
   ∨ server.Minor (server.Request_Version nreq) = 0)%Z →
  server.Request_Headers nreq = nh :: rest →
  let refused ge :=
    ∃ w', main.NotifyHandler_Respond strings_ToLower (Some nreq) w
          = Return ((None, Some (GntpError_value ge)), w')
          ∧ main.notes w' = main.notes w ∧ main.apps w' = main.apps w
          ∧ main.downloads w' = main.downloads w in
  (∀ v, server.Get nh "Application-Name" = Return (v, false) →
        refused (server.MissingHeaderError "Application-Name"))
  ∧ ∀ app_name, server.Get nh "Application-Name" = Return (app_name, true) →
      (main.apps w !! app_name = None →
       refused (server.UnknownApplicationError app_name))
      ∧ ∀ app, main.apps w !! app_name = Some app →
          (∀ v, server.Get nh "Notification-Name" = Return (v, false) →
                refused (server.MissingHeaderError "Notification-Name"))
          ∧ ∀ name, server.Get nh "Notification-Name" = Return (name, true) →
              (∀ v, server.Get nh "Notification-Title" = Return (v, false) →
                    refused (server.MissingHeaderError "Notification-Title"))
              ∧ ∀ title, server.Get nh "Notification-Title" = Return (title, true) →
                  main.Notifications app !! name = None →
                  refused (server.UnknownNotificationError app_name name).
Proof.
  intros Hversion Hheaders refused. subst refused.
  unfold main.NotifyHandler_Respond. cbv zeta.
  replace (negb (server.Major (server.Request_Version nreq) =? 1)%Z
           && negb (server.Minor (server.Request_Version nreq) =? 0)%Z) with false
    by (destruct Hversion as [-> | ->]; [done|by rewrite andb_false_r]).
  rewrite Hheaders. unfold main.buildNotification, main.gntp_error, main.Applications_Get.
  split.
  - intros v ->. cbn [mbind outcome_bind negb]. by eexists.
  - intros app_name ->. cbn [mbind outcome_bind negb]. split.
    + intros ->. by eexists.
    + intros app ->. split.
      * intros v ->. cbn [mbind outcome_bind negb]. by eexists.
      * intros name ->. cbn [mbind outcome_bind negb]. split.
        -- intros v ->. cbn [mbind outcome_bind negb]. by eexists.
        -- intros title -> ->. cbn [mbind outcome_bind negb]. by eexists.
Qed.

End Notify_errors.

Lemma NotifyHandler_Respond_errors_witness :
  ∃ w', main.NotifyHandler_Respond fold_case (Some notify_Baz_request) world_Foo
        = Return ((None, Some (GntpError_value (server.UnknownApplicationError "Baz"))), w')
        ∧ main.notes w' = main.notes world_Foo ∧ main.apps w' = main.apps world_Foo
        ∧ main.downloads w' = main.downloads world_Foo.
Proof.
  refine (proj1 (proj2 (NotifyHandler_Respond_errors fold_case notify_Baz_request world_Foo
                          {[ "Application-Name" := ["Baz"];
                             "Notification-Name" := ["Bar"];
                             "Notification-Title" := ["Hello"] ]} [] _ _)
                   "Baz" _) _).
  - by left.
  - reflexivity.
  - vm_compute. reflexivity.
  - vm_compute. reflexivity.
Defined.

